(** * Orphaned-prefix cleanup tools: a shallow embedding and its properties

    The development follows the Python sources file by file:

    - [PyStr]: the [str] built-ins the scripts rely on ([strip], [lower],
      [split], [startswith], [replace] with a count of one, text-file line
      iteration, [sorted] on lists of strings);
    - [get_final_dirty_data_prefix], [get_final_dirty_backup_prefix]: the
      dirty-set resolvers;
    - [utils]: the paginated listing helpers;
    - [delete_prefixes]: the deletion engine;
    - [list_backup_prefixes], [list_data_prefixes]: the enumerators, as far
      as the identifier check, the discovery of the top-level names, the
      candidate names, the two workers and the way from their results to
      the written document go.

    A Python [str] is modelled by the Rocq string of its UTF-8 encoding;
    bytewise lexicographic order on UTF-8 is the code-point order Python
    uses, so [sorted] is unaffected by that reading.  [strip] removes the
    characters [str.isspace] accepts, whatever their length in UTF-8, and a
    text file is read with universal newlines, as [open] does by default.
    [lower] acts on the ASCII letters: the scripts compare its result with
    'yes' and 'no' only, and no character outside ASCII lowers to a string
    that holds one of their letters. *)

From Stdlib Require Import ZArith Ascii.
From stdpp Require Import gmap strings list sorting pretty.

Local Open Scope Z_scope.

(** ** Python string built-ins *)

Module PyStr.

(** [s.startswith(p)] *)
Definition startswith (p s : string) : bool := String.prefix p s.

(** [s[n:]] *)
Fixpoint slice_from (n : nat) (s : string) : string :=
  match n, s with
  | O, _ => s
  | S _, EmptyString => EmptyString
  | S n', String _ s' => slice_from n' s'
  end.

(** [s[:n]] *)
Definition slice_to (n : nat) (s : string) : string := String.substring 0 n s.

(** [s.endswith(p)] *)
Definition endswith (p s : string) : bool :=
  (String.length p <=? String.length s)%nat
  && bool_decide (slice_from (String.length s - String.length p) s = p).

(** The string made of the bytes with the given codes. *)
Definition bytes (codes : list N) : string :=
  String.string_of_list_ascii (ascii_of_N <$> codes).

(** The characters [c] with [c.isspace()], each in UTF-8: U+0009 to U+000D,
    U+001C to U+001F, U+0020; U+0085, U+00A0; U+1680; U+2000 to U+200A,
    U+2028, U+2029, U+202F; U+205F; U+3000. *)
Definition whitespace : list string :=
  ((fun n => bytes [n]) <$> [9; 10; 11; 12; 13; 28; 29; 30; 31; 32]%N)
  ++ [bytes [194; 133]%N; bytes [194; 160]%N; bytes [225; 154; 128]%N]
  ++ ((fun n => bytes [226; 128; n]%N)
        <$> [128; 129; 130; 131; 132; 133; 134; 135; 136; 137; 138;
             168; 169; 175]%N)
  ++ [bytes [226; 129; 159]%N; bytes [227; 128; 128]%N].

(** [s] without the whitespace character it starts with, if it starts
    with one. *)
Definition drop_space_left (s : string) : option string :=
  (fun w => slice_from (String.length w) s)
    <$> head (filter (fun w => startswith w s = true) whitespace).

(** [s] without the whitespace character it ends with, if it ends with
    one. *)
Definition drop_space_right (s : string) : option string :=
  (fun w => slice_to (String.length s - String.length w) s)
    <$> head (filter (fun w => endswith w s = true) whitespace).

(** Dropping a character again and again, at most [n] times. *)
Fixpoint repeatedly (n : nat) (step : string -> option string) (s : string)
    : string :=
  match n with
  | O => s
  | S n' =>
      match step s with
      | Some s' => repeatedly n' step s'
      | None => s
      end
  end.

(** A run of whitespace characters. *)
Inductive spaces : string -> Prop :=
| spaces_nil : spaces EmptyString
| spaces_cons w s : w ∈ whitespace -> spaces s -> spaces (w +:+ s).

(** [s.lstrip()], [s.rstrip()]: a string holds no more characters than
    bytes. *)
Definition lstrip (s : string) : string :=
  repeatedly (String.length s) drop_space_left s.

Definition rstrip (s : string) : string :=
  repeatedly (String.length s) drop_space_right s.

(** [s.strip()] *)
Definition strip (s : string) : string := rstrip (lstrip s).

Definition lower_char (c : ascii) : ascii :=
  let n := N_of_ascii c in
  if ((65 <=? n)%N && (n <=? 90)%N) then ascii_of_N (n + 32) else c.

(** [s.lower()] *)
Fixpoint lower (s : string) : string :=
  match s with
  | EmptyString => EmptyString
  | String c s' => String (lower_char c) (lower s')
  end.

(** [s.split(sep)] for a one-character separator: never empty, and one
    more segment than there are separators. *)
Fixpoint split (sep : ascii) (s : string) : list string :=
  match s with
  | EmptyString => [EmptyString]
  | String c s' =>
      if decide (c = sep) then EmptyString :: split sep s'
      else match split sep s' with
           | [] => [String c EmptyString]
           | w :: ws => String c w :: ws
           end
  end.

(** [sep in s] for a one-character [sep]. *)
Fixpoint contains (sep : ascii) (s : string) : bool :=
  match s with
  | EmptyString => false
  | String c s' => bool_decide (c = sep) || contains sep s'
  end.

(** [s.endswith(p)] for a one-character [p]. *)
Fixpoint endswith_char (c : ascii) (s : string) : bool :=
  match s with
  | EmptyString => false
  | String d EmptyString => bool_decide (d = c)
  | String _ s' => endswith_char c s'
  end.

(** [s[:-1]] *)
Fixpoint drop_last (s : string) : string :=
  match s with
  | EmptyString => EmptyString
  | String _ EmptyString => EmptyString
  | String c s' => String c (drop_last s')
  end.

(** [s.replace(old, new, 1)] for a non-empty [old]: the leftmost
    occurrence is replaced, the rest of the string is kept. *)
Fixpoint replace1 (old new s : string) : string :=
  if startswith old s then new +:+ slice_from (String.length old) s
  else match s with
       | EmptyString => EmptyString
       | String c s' => String c (replace1 old new s')
       end.

Definition newline : ascii := ascii_of_N 10.

(** The one-character string made of a newline. *)
Definition nl : string := String newline EmptyString.

Definition carriage_return : ascii := ascii_of_N 13.

(** Iterating over a file opened in text mode: the lines of the content,
    each with its line end.  With universal newlines a line ends at a
    newline, at a carriage return or at the two together, and the line end
    is handed over as one newline.  The last line has none when the file
    does not end in one, and an empty file has no line. *)
Fixpoint readlines (content : string) : list string :=
  match content with
  | EmptyString => []
  | String c rest =>
      if decide (c = newline) then nl :: readlines rest
      else if decide (c = carriage_return) then
        match rest with
        | String d rest' =>
            if decide (d = newline) then nl :: readlines rest'
            else nl :: readlines rest
        | EmptyString => [nl]
        end
      else match readlines rest with
           | [] => [String c EmptyString]
           | l :: ls => String c l :: ls
           end
  end.

(** Whether the bytes are well-formed UTF-8, which is what the strict
    decoder of [open(..., encoding="utf-8")] accepts: no overlong form, no
    surrogate, nothing above U+10FFFF. *)
Definition byte_in (lo hi : N) (c : ascii) : bool :=
  (lo <=? N_of_ascii c)%N && (N_of_ascii c <=? hi)%N.

Fixpoint utf8_valid (s : string) : bool :=
  match s with
  | EmptyString => true
  | String a r1 =>
      if byte_in 0 127 a then utf8_valid r1
      else
        match r1 with
        | EmptyString => false
        | String b r2 =>
            if byte_in 194 223 a then byte_in 128 191 b && utf8_valid r2
            else
              match r2 with
              | EmptyString => false
              | String c r3 =>
                  if byte_in 224 239 a then
                    (if byte_in 224 224 a then byte_in 160 191 b
                     else if byte_in 237 237 a then byte_in 128 159 b
                     else byte_in 128 191 b)
                    && byte_in 128 191 c && utf8_valid r3
                  else
                    match r3 with
                    | EmptyString => false
                    | String d r4 =>
                        byte_in 240 244 a
                        && (if byte_in 240 240 a then byte_in 144 191 b
                            else if byte_in 244 244 a then byte_in 128 143 b
                            else byte_in 128 191 b)
                        && byte_in 128 191 c && byte_in 128 191 d
                        && utf8_valid r4
                    end
              end
        end
  end.

(** [sorted(l)] on strings.  The order is total and antisymmetric, so the
    sorted arrangement of a list is unique and the algorithm (a stable
    merge sort here, as in Python) cannot be observed. *)
Definition sorted (l : list string) : list string := merge_sort String.le l.

End PyStr.

(** ** get_final_dirty_data_prefix.py *)

Module get_final_dirty_data_prefix.
Import PyStr.

(** The loop of [load_non_terminated_uuids] over the lines of the file;
    [content] is the text of the file. *)
Definition load_non_terminated_uuids (content : string) : gset string :=
  foldl
    (fun (uuids : gset string) (line : string) =>
       let line := strip line in
       if decide (line = EmptyString) then uuids
       else
         let uuid :=
           if startswith "ch-s3-" line
           then replace1 "ch-s3-" "" line
           else line in
         uuids ∪ {[ uuid ]})
    ∅ (readlines content).

(** [load_non_terminated_uuids] on a file that holds the bytes [raw]:
    [None] stands for the [UnicodeDecodeError] the strict decoder raises. *)
Definition load_non_terminated_uuids_file (raw : string) : option (gset string) :=
  if utf8_valid raw then Some (load_non_terminated_uuids raw) else None.

Definition extract_uuid_from_path (full_path : string) : string :=
  let parts := split "/" full_path in
  if decide (2 <= length parts)%nat
  then default full_path (last parts)
  else full_path.

(** The progress bar written by the loop is not part of the result. *)
Definition find_dirty_data_prefixes
    (data_prefixes : list string) (non_terminated_uuids : gset string)
    : list string * gmap string Z :=
  let dirty_paths :=
    foldl
      (fun (dirty_paths : list string) (full_path : string) =>
         let uuid := extract_uuid_from_path full_path in
         if decide (uuid ∉ non_terminated_uuids)
         then dirty_paths ++ [full_path]
         else dirty_paths)
      [] data_prefixes in
  (dirty_paths, ∅).

(** What the loop body of [load_non_terminated_uuids] makes of one line:
    nothing for a line that is blank once trimmed, else one identifier. *)
Definition loaded_from (line : string) : option string :=
  let line := strip line in
  if decide (line = EmptyString) then None
  else Some (if startswith "ch-s3-" line then slice_from 6 line else line).

(** The test of the loop of [find_dirty_data_prefixes]. *)
Definition is_dirty (A : gset string) (p : string) : Prop :=
  extract_uuid_from_path p ∉ A.

(** [{path: sizes.get(path, 0) for path in paths}] *)
Definition sizes_for (sizes : gmap string Z) (paths : list string)
    : gmap string Z :=
  foldl (fun (m : gmap string Z) (path : string) =>
           <[ path := default 0 (sizes !! path) ]> m) ∅ paths.

(** [sum(d.values())] *)
Definition sum_values (d : gmap string Z) : Z :=
  foldr Z.add 0 (snd <$> map_to_list d).

(** The [summary] entry, without its human-readable size string. *)
Record Summary := {
  total_dirty_paths : nat;
  total_dirty_size_bytes : Z
}.

Record OutputData := {
  dirty_paths : list string;
  dirty_paths_sizes_bytes : option (gmap string Z);
  summary : option Summary
}.

(** [main], from the loaded inputs to the document it writes. *)
Definition main_output
    (data_prefixes : list string) (prefix_sizes : gmap string Z)
    (non_terminated_uuids : gset string) : OutputData :=
  let '(dirty_paths, dirty_sizes) :=
    find_dirty_data_prefixes data_prefixes non_terminated_uuids in
  let dirty_sizes :=
    if decide (prefix_sizes = ∅) then dirty_sizes
    else sizes_for prefix_sizes dirty_paths in
  let sorted_dirty_paths := sorted dirty_paths in
  if decide (dirty_sizes = ∅)
  then {| dirty_paths := sorted_dirty_paths;
          dirty_paths_sizes_bytes := None;
          summary := None |}
  else {| dirty_paths := sorted_dirty_paths;
          dirty_paths_sizes_bytes :=
            Some (sizes_for dirty_sizes sorted_dirty_paths);
          summary :=
            Some {| total_dirty_paths := length sorted_dirty_paths;
                    total_dirty_size_bytes := sum_values dirty_sizes |} |}.

(** The parsed discovered-paths file, as far as [load_data_prefixes] looks
    into it: an object (with or without the two keys it reads), a list, or
    any other JSON value. *)
Inductive PrefixesDoc :=
| DocObject (prefixes : option (list string))
    (prefix_sizes_bytes : option (gmap string Z))
| DocList (items : list string)
| DocOther.

(** [load_data_prefixes], from the parsed document; [inr] carries the
    message of the [ValueError]. *)
Definition load_data_prefixes (filename : string) (data : PrefixesDoc)
    : (list string * gmap string Z) + string :=
  match data with
  | DocObject (Some prefixes) sizes => inl (prefixes, default ∅ sizes)
  | DocList items => inl (items, ∅)
  | _ => inr ("Unexpected JSON format in " +:+ filename)
  end.

(** [main], from the two parsed inputs to the document it writes, or the
    [ValueError] that ends it before anything is written. *)
Definition main (data_prefixes_file : string) (data : PrefixesDoc)
    (non_terminated_content : string) : OutputData + string :=
  match load_data_prefixes data_prefixes_file data with
  | inl (data_prefixes, prefix_sizes) =>
      inl (main_output data_prefixes prefix_sizes
             (load_non_terminated_uuids non_terminated_content))
  | inr msg => inr msg
  end.

End get_final_dirty_data_prefix.

(** ** get_final_dirty_backup_prefix.py *)

Module get_final_dirty_backup_prefix.
Import PyStr.

Definition load_non_terminated_uuids (content : string) : gset string :=
  foldl
    (fun (uuids : gset string) (line : string) =>
       let line := strip line in
       if decide (line = EmptyString) then uuids
       else
         let uuid :=
           if startswith "ch-s3-" line
           then replace1 "ch-s3-" "" line
           else line in
         uuids ∪ {[ uuid ]})
    ∅ (readlines content).

(** [load_non_terminated_uuids] on a file that holds the bytes [raw]:
    [None] stands for the [UnicodeDecodeError] the strict decoder raises. *)
Definition load_non_terminated_uuids_file (raw : string) : option (gset string) :=
  if utf8_valid raw then Some (load_non_terminated_uuids raw) else None.

Definition extract_next_level_uuid_from_path (full_path : string) : string :=
  let parts := split "/" full_path in
  if decide (2 <= length parts)%nat
  then default full_path (last parts)
  else full_path.

Definition find_dirty_backup_prefixes
    (backup_prefixes : list string) (non_terminated_uuids : gset string)
    : list string * gmap string Z :=
  let dirty_paths :=
    foldl
      (fun (dirty_paths : list string) (full_path : string) =>
         let next_level_uuid := extract_next_level_uuid_from_path full_path in
         if decide (next_level_uuid ∉ non_terminated_uuids)
         then dirty_paths ++ [full_path]
         else dirty_paths)
      [] backup_prefixes in
  (dirty_paths, ∅).

(** The [dirty_paths] entry of the document [main] writes. *)
Definition main_dirty_paths
    (backup_prefixes : list string) (non_terminated_uuids : gset string)
    : list string :=
  sorted (fst (find_dirty_backup_prefixes backup_prefixes non_terminated_uuids)).

End get_final_dirty_backup_prefix.


(** ** Effects: exceptions, console, object-store calls *)

Module Py.

(** The exceptions the scripts raise or catch.  [SystemExit] is the only
    one here that [except Exception] does not catch. *)
Inductive Exn :=
| ValueError (msg : string)
| ClientError (msg : string)
| OtherException (msg : string)
| EOFError
| SystemExit (code : Z).

Definition is_Exception (e : Exn) : bool :=
  match e with SystemExit _ => false | _ => true end.

Definition is_ClientError (e : Exn) : bool :=
  match e with ClientError _ => true | _ => false end.

(** [str(e)] *)
Definition exn_str (e : Exn) : string :=
  match e with
  | ValueError msg | ClientError msg | OtherException msg => msg
  | EOFError => ""
  | SystemExit code => pretty code
  end.

Inductive Outcome (A : Type) :=
| Ret (a : A)
| Raise (e : Exn).
Global Arguments Ret {A} a.
Global Arguments Raise {A} e.

(** *** The object-store client (boto3), as far as the scripts use it *)

Record ListParams := {
  Bucket : string;
  Prefix : string;
  Delimiter : option string;
  ContinuationToken : option string
}.

Record S3Object := { Key : string; Size : option Z }.

(** A key that is absent from the response dictionary is [None]. *)
Record ListResponse := {
  CommonPrefixes : option (list string);
  Contents : option (list S3Object);
  NextContinuationToken : option string
}.

Record DeleteError := { ErrKey : string; ErrCode : string; ErrMessage : string }.

Record DeleteResponse := {
  Deleted : option (list string);
  Errors : option (list DeleteError)
}.

(** What a client call does: it answers, or raises [ClientError], or
    raises some other [Exception]. *)
Inductive ClientResult (A : Type) :=
| Answer (a : A)
| RaisesClientError (msg : string)
| RaisesException (msg : string).
Global Arguments Answer {A} a.
Global Arguments RaisesClientError {A} msg.
Global Arguments RaisesException {A} msg.

Definition failed {A} (r : ClientResult A) : bool :=
  match r with Answer _ => false | _ => true end.

(** The store is any state [World] with the two client operations; every
    statement below quantifies over all of them. *)
Record S3Client (World : Type) := {
  s3_list_objects_v2 : ListParams -> World -> ClientResult ListResponse * World;
  s3_delete_objects : string -> list string -> World -> ClientResult DeleteResponse * World
}.
Global Arguments s3_list_objects_v2 {World} _ _ _.
Global Arguments s3_delete_objects {World} _ _ _ _.

(** *** What a run leaves behind *)

Inductive Call :=
| CreateClient (max_workers : Z)
| ListObjectsV2 (params : ListParams)
| ListAllObjects (bucket prefix : string)
| DeleteObjects (bucket : string) (keys : list string)
| WriteLog (path : string).

Definition is_delete (c : Call) : bool :=
  match c with DeleteObjects _ _ => true | _ => false end.

(** The calls that change what the store holds. *)
Definition mutations (cs : list Call) : list Call := filter is_delete cs.

(** Console output.  Text that is fixed or built from strings and integers
    is kept; blocks whose text involves floating-point formatting are
    kept by their arguments.  The results block is kept by the totals and
    the failed prefixes [main] has computed when it prints it; of the
    totals a dry run prints the first only. *)
Inductive Output :=
| Print (line : string)
| Prompt (text : string)
| Progress (label : string) (current total : nat)
| SummaryBlock (bucket : string) (dry_run : bool) (paths : list string)
    (sizes : gmap string Z)
| ResultsBlock (found deleted errors : nat) (failed : list string)
| Elapsed.

Record State (World : Type) := {
  world : World;
  stdin : list string;
  stdout : list Output;
  calls : list Call
}.
Global Arguments world {World} _.
Global Arguments stdin {World} _.
Global Arguments stdout {World} _.
Global Arguments calls {World} _.

Section Monad.
Context {World : Type}.

Definition set_world (w : World) (st : State World) : State World :=
  {| world := w; stdin := stdin st; stdout := stdout st; calls := calls st |}.
Definition set_stdin (l : list string) (st : State World) : State World :=
  {| world := world st; stdin := l; stdout := stdout st; calls := calls st |}.
Definition add_out (o : Output) (st : State World) : State World :=
  {| world := world st; stdin := stdin st; stdout := stdout st ++ [o];
     calls := calls st |}.
Definition add_call (c : Call) (st : State World) : State World :=
  {| world := world st; stdin := stdin st; stdout := stdout st;
     calls := calls st ++ [c] |}.

(** The state after some calls [cs] that left the store as [w]. *)
Definition advance (w : World) (cs : list Call) (st : State World) : State World :=
  {| world := w; stdin := stdin st; stdout := stdout st;
     calls := calls st ++ cs |}.

(** The state after writing [os] to the console. *)
Definition emit (os : list Output) (st : State World) : State World :=
  {| world := world st; stdin := stdin st; stdout := stdout st ++ os;
     calls := calls st |}.

(** A statement: from a state to an outcome and the state it leaves. *)
Definition M (A : Type) : Type := State World -> Outcome A * State World.

Definition ret {A} (a : A) : M A := fun st => (Ret a, st).
Definition raise {A} (e : Exn) : M A := fun st => (Raise e, st).
Definition bind {A B} (m : M A) (k : A -> M B) : M B :=
  fun st =>
    match m st with
    | (Ret a, st') => k a st'
    | (Raise e, st') => (Raise e, st')
    end.

(** [try: body / except ...: handler]; a handler of [None] means that no
    [except] clause matches and the exception goes on. *)
Definition try_except {A} (body : M A) (handler : Exn -> option (M A)) : M A :=
  fun st =>
    match body st with
    | (Ret a, st') => (Ret a, st')
    | (Raise e, st') =>
        match handler e with
        | Some h => h st'
        | None => (Raise e, st')
        end
    end.

Definition out (o : Output) : M unit := fun st => (Ret tt, add_out o st).
Definition log_call (c : Call) : M unit := fun st => (Ret tt, add_call c st).
Definition sys_exit {A} (code : Z) : M A := raise (SystemExit code).

(** [for x in l: body], with the loop variables [s]. *)
Fixpoint for_each {X S} (l : list X) (body : X -> S -> M S) (s : S) : M S :=
  match l with
  | [] => ret s
  | x :: l' => bind (body x s) (for_each l' body)
  end.

(** One turn of a [while True] loop either goes round again or leaves
    through [break]. *)
Inductive Ctl (S : Type) :=
| Continue (s : S)
| Break (s : S).

(** [while True: body].  The loop has no bound in the source; [fuel]
    bounds the number of turns and [None] says it would go on. *)
Fixpoint while_true {S} (fuel : nat) (body : S -> M (Ctl S)) (s : S)
    (st : State World) : option (Outcome S * State World) :=
  match fuel with
  | O => None
  | Datatypes.S fuel' =>
      match body s st with
      | (Ret (Continue _ s'), st') => while_true fuel' body s' st'
      | (Ret (Break _ s'), st') => Some (Ret s', st')
      | (Raise e, st') => Some (Raise e, st')
      end
  end.

(** Client calls, recorded and turned into Python control flow. *)
Definition lift_client {A} (r : ClientResult A) : Outcome A :=
  match r with
  | Answer a => Ret a
  | RaisesClientError msg => Raise (ClientError msg)
  | RaisesException msg => Raise (OtherException msg)
  end.

Definition list_objects_v2 (client : S3Client World) (params : ListParams)
    : M ListResponse :=
  fun st =>
    let '(r, w) := s3_list_objects_v2 client params (world st) in
    (lift_client r, set_world w (add_call (ListObjectsV2 params) st)).

Definition delete_objects (client : S3Client World) (bucket : string)
    (keys : list string) : M DeleteResponse :=
  fun st =>
    let '(r, w) := s3_delete_objects client bucket keys (world st) in
    (lift_client r, set_world w (add_call (DeleteObjects bucket keys) st)).

End Monad.
Global Arguments M World A : clear implicits.
Global Arguments Continue {S} s.
Global Arguments Break {S} s.

Declare Scope py_scope.
Delimit Scope py_scope with py.
Notation "x <- m ;; k" := (bind m (fun x => k))
  (at level 100, m at next level, right associativity) : py_scope.
Notation "m ;;; k" := (bind m (fun _ => k))
  (at level 100, right associativity) : py_scope.

(** Truthiness of an optional string: [None] and [""] are false. *)
Definition truthy (t : option string) : bool :=
  match t with
  | Some (String _ _) => true
  | _ => false
  end.

End Py.

(** ** utils.py *)

Module utils.
Import PyStr Py.
Local Open Scope py_scope.

Section WithClient.
Context {World : Type}.
Variable s3_client : S3Client World.

(** [create_s3_client]: the client is the section's; creating it is
    recorded. *)
Definition create_s3_client (max_workers : Z) : M World unit :=
  log_call (CreateClient max_workers).

(** The inner [for common_prefix in response["CommonPrefixes"]]. *)
Definition add_common_prefix (prefix : string)
    (next_level_prefixes : gset string) (full_prefix : string) : gset string :=
  let relative_prefix := slice_from (String.length prefix) full_prefix in
  let relative_prefix :=
    if endswith_char "/" relative_prefix
    then drop_last relative_prefix else relative_prefix in
  if decide (relative_prefix = EmptyString) then next_level_prefixes
  else next_level_prefixes ∪ {[ relative_prefix ]}.

Definition list_params (bucket_name prefix : string)
    (delimiter continuation_token : option string) : ListParams :=
  {| Bucket := bucket_name; Prefix := prefix; Delimiter := delimiter;
     ContinuationToken :=
       if truthy continuation_token then continuation_token else None |}.

(** One turn of the loop of [list_next_level_prefixes]; the loop
    variables are the set and the continuation token. *)
Definition list_next_level_prefixes_turn (bucket_name prefix : string)
    (s : gset string * option string)
    : M World (Ctl (gset string * option string)) :=
  let '(next_level_prefixes, continuation_token) := s in
  try_except
    (response <- list_objects_v2 s3_client
                   (list_params bucket_name prefix (Some "/") continuation_token) ;;
     let next_level_prefixes :=
       match CommonPrefixes response with
       | Some cps => foldl (add_common_prefix prefix) next_level_prefixes cps
       | None => next_level_prefixes
       end in
     let continuation_token := NextContinuationToken response in
     if truthy continuation_token
     then ret (Continue (next_level_prefixes, continuation_token))
     else ret (Break (next_level_prefixes, continuation_token)))
    (fun e =>
       if is_ClientError e then
         Some (out (Print ("Error listing prefixes under " +:+ prefix
                           +:+ ": " +:+ exn_str e)) ;;;
               ret (Break (next_level_prefixes, continuation_token)))
       else if is_Exception e then
         Some (out (Print ("Unexpected error listing " +:+ prefix
                           +:+ ": " +:+ exn_str e)) ;;;
               ret (Break (next_level_prefixes, continuation_token)))
       else None).

Definition list_next_level_prefixes (fuel : nat) (bucket_name prefix : string)
    (st : State World) : option (Outcome (gset string) * State World) :=
  match while_true fuel (list_next_level_prefixes_turn bucket_name prefix)
          (∅, None) st with
  | Some (Ret (next_level_prefixes, _), st') => Some (Ret next_level_prefixes, st')
  | Some (Raise e, st') => Some (Raise e, st')
  | None => None
  end.

(** [for obj in response.get("Contents", []): total += obj.get("Size", 0)] *)
Definition add_sizes (total_size : Z) (contents : list S3Object) : Z :=
  foldl (fun total obj => total + default 0 (Size obj)) total_size contents.

Definition sum_sizes_in_prefix_turn (bucket_name prefix : string)
    (s : Z * option string) : M World (Ctl (Z * option string)) :=
  let '(total_size, continuation_token) := s in
  try_except
    (response <- list_objects_v2 s3_client
                   (list_params bucket_name prefix None continuation_token) ;;
     let total_size := add_sizes total_size (default [] (Contents response)) in
     let continuation_token := NextContinuationToken response in
     if truthy continuation_token
     then ret (Continue (total_size, continuation_token))
     else ret (Break (total_size, continuation_token)))
    (fun e =>
       if is_ClientError e then
         Some (out (Print ("Error counting objects under " +:+ prefix
                           +:+ ": " +:+ exn_str e)) ;;;
               ret (Break (total_size, continuation_token)))
       else if is_Exception e then
         Some (out (Print ("Unexpected error counting " +:+ prefix
                           +:+ ": " +:+ exn_str e)) ;;;
               ret (Break (total_size, continuation_token)))
       else None).

Definition sum_sizes_in_prefix (fuel : nat) (bucket_name prefix : string)
    (st : State World) : option (Outcome Z * State World) :=
  match while_true fuel (sum_sizes_in_prefix_turn bucket_name prefix)
          (0, None) st with
  | Some (Ret (total_size, _), st') => Some (Ret total_size, st')
  | Some (Raise e, st') => Some (Raise e, st')
  | None => None
  end.

(** What one page adds to the loop variable of each function. *)
Definition children_step (prefix : string) (acc : gset string)
    (page : ListResponse) : gset string :=
  match CommonPrefixes page with
  | Some cps => foldl (add_common_prefix prefix) acc cps
  | None => acc
  end.

Definition sizes_step (acc : Z) (page : ListResponse) : Z :=
  add_sizes acc (default [] (Contents page)).

(** A pagination that starts with [token] in the store [w]: the store
    answers with [pages], each naming a further page, and fails on the
    call after them, leaving [w']. *)
Inductive pages_then_error (bucket_name prefix : string)
    (delimiter : option string)
    : option string -> World -> list ListResponse -> World -> Prop :=
| pte_error token w r w' :
    s3_list_objects_v2 s3_client
      (list_params bucket_name prefix delimiter token) w = (r, w') ->
    failed r = true ->
    pages_then_error bucket_name prefix delimiter token w [] w'
| pte_page token w page w1 pages w' :
    s3_list_objects_v2 s3_client
      (list_params bucket_name prefix delimiter token) w = (Answer page, w1) ->
    truthy (NextContinuationToken page) = true ->
    pages_then_error bucket_name prefix delimiter
      (NextContinuationToken page) w1 pages w' ->
    pages_then_error bucket_name prefix delimiter token w (page :: pages) w'.

(** A pagination that runs to its end: the store answers with [pages], each
    but the last naming a further page, and leaves [w']. *)
Inductive pages_then_end (bucket_name prefix : string)
    (delimiter : option string)
    : option string -> World -> list ListResponse -> World -> Prop :=
| pte_last token w page w' :
    s3_list_objects_v2 s3_client
      (list_params bucket_name prefix delimiter token) w = (Answer page, w') ->
    truthy (NextContinuationToken page) = false ->
    pages_then_end bucket_name prefix delimiter token w [page] w'
| pte_more token w page w1 pages w' :
    s3_list_objects_v2 s3_client
      (list_params bucket_name prefix delimiter token) w = (Answer page, w1) ->
    truthy (NextContinuationToken page) = true ->
    pages_then_end bucket_name prefix delimiter
      (NextContinuationToken page) w1 pages w' ->
    pages_then_end bucket_name prefix delimiter token w (page :: pages) w'.

(** The listing calls that fetch [pages], starting with [token]: each call
    carries the token the page before it named. *)
Fixpoint listing_calls (bucket_name prefix : string) (delimiter : option string)
    (token : option string) (pages : list ListResponse) : list Call :=
  match pages with
  | [] => []
  | page :: pages' =>
      ListObjectsV2 (list_params bucket_name prefix delimiter token)
      :: listing_calls bucket_name prefix delimiter
           (NextContinuationToken page) pages'
  end.

(** A listing call of this pagination, with whatever token. *)
Definition is_listing_call (bucket_name prefix : string) (delimiter : option string)
    (c : Call) : Prop :=
  exists token, c = ListObjectsV2 (list_params bucket_name prefix delimiter token).

(** The child name [add_common_prefix] derives from one common prefix, if
    any: what follows the first [len(prefix)] characters, without one
    trailing '/', unless that is empty. *)
Definition child_name (prefix full_prefix : string) : option string :=
  let relative_prefix := slice_from (String.length prefix) full_prefix in
  let relative_prefix :=
    if endswith_char "/" relative_prefix
    then drop_last relative_prefix else relative_prefix in
  if decide (relative_prefix = EmptyString) then None else Some relative_prefix.

(** The sizes of the objects on some pages, an object without 'Size'
    counting 0. *)
Definition listed_sizes (pages : list ListResponse) : list Z :=
  (fun obj => default 0 (Size obj))
    <$> concat ((fun page => default [] (Contents page)) <$> pages).

(** [print_progress]: nothing is written when [total <= 0]. *)
Definition print_progress (label : string) (current total : nat) : M World unit :=
  if decide (total = 0%nat) then ret tt else out (Progress label current total).

End WithClient.

End utils.

(** ** delete_prefixes.py *)

Module delete_prefixes.
Import PyStr Py utils.
Local Open Scope py_scope.

(** The parsed input file, as far as [load_dirty_paths] looks into it:
    whether the document is an object, and for the two keys it reads
    whether they are present and of the expected JSON type. *)
Inductive JsonType :=
| json_dict | json_list | json_str | json_int | json_float | json_bool | json_null.

(** [str(type(v))] for a value of that JSON type. *)
Definition type_str (t : JsonType) : string :=
  match t with
  | json_dict => "<class 'dict'>"
  | json_list => "<class 'list'>"
  | json_str => "<class 'str'>"
  | json_int => "<class 'int'>"
  | json_float => "<class 'float'>"
  | json_bool => "<class 'bool'>"
  | json_null => "<class 'NoneType'>"
  end.

(** [PathsNotAList t] and [DocNotADict t] carry the type of the value
    found, which the error message names. *)
Inductive PathsField := PathsList (l : list string) | PathsNotAList (t : JsonType).
Inductive SizesField := SizesDict (d : gmap string Z) | SizesNotADict.
Inductive InputDoc :=
| DocDict (dirty_paths : option PathsField) (sizes : option SizesField)
| DocNotADict (t : JsonType).

(** Opening and parsing the input file gives the document, or fails with
    an exception ([OSError], [JSONDecodeError], ...). *)
Inductive FileResult :=
| Parsed (doc : InputDoc)
| Unreadable (msg : string).

Record Args := {
  bucket_name : string;
  input : string;
  workers : Z;
  dry_run : bool;
  output_log : option string
}.

(** Per-prefix result: objects found, objects deleted, error strings. *)
Definition PrefixResult : Type := nat * nat * list string.

(** [range(start, stop, step)] for a positive [step]. *)
Fixpoint range_from (n start stop step : nat) : list nat :=
  match n with
  | O => []
  | S n' =>
      if decide (start < stop)%nat
      then start :: range_from n' (start + step) stop step
      else []
  end.
Definition range (start stop step : nat) : list nat :=
  range_from stop start stop step.

(** [l[i:j]] for [0 <= i <= j]. *)
Definition slice {A} (l : list A) (i j : nat) : list A :=
  take (j - i) (drop i l).

Definition format_delete_error (error : DeleteError) : string :=
  ErrKey error +:+ ": " +:+ ErrCode error +:+ " - " +:+ ErrMessage error.

(** The condition under which [main] lists a prefix as failed. *)
Definition had_errors (dry_run : bool) (r : PrefixResult) : bool :=
  let '(total_objs, deleted, errors) := r in
  negb (bool_decide (errors = [])) || (negb dry_run && (deleted <? total_objs)%nat).

(** What [delete_objects_batch] reads off the answer to one bulk-delete
    call: the number of keys reported deleted, and the error strings. *)
Definition success_count (r : ClientResult DeleteResponse) : nat :=
  match r with
  | Answer response =>
      match Deleted response with Some d => length d | None => 0%nat end
  | _ => 0%nat
  end.

Definition error_strings (r : ClientResult DeleteResponse) : list string :=
  match r with
  | Answer response =>
      match Errors response with
      | Some errs => format_delete_error <$> errs
      | None => []
      end
  | RaisesClientError msg => ["ClientError: " +:+ msg]
  | RaisesException msg => ["Unexpected error: " +:+ msg]
  end.

(** The slices [delete_prefix] cuts a key list into. *)
Definition batches (object_keys : list string) : list (list string) :=
  (fun i => slice object_keys i (i + 1000)) <$> range 0 (length object_keys) 1000.

(** An answer to the confirmation prompt, as [get_confirmation] reads it. *)
Definition response_of (line : string) : string := lower (strip line).
Definition recognized (line : string) : Prop :=
  response_of line = "yes" \/ response_of line = "no".

Definition prompt_text : string :=
  "Type 'yes' to confirm deletion, or 'no' to cancel: ".
Definition reprompt_text : string := "Please type 'yes' or 'no'".

(** What the console shows for a run of unrecognized answers: for each, the
    prompt it was typed at and one re-prompt message. *)
Definition reprompts (bad : list string) : list Output :=
  concat ((fun _ => [Prompt prompt_text; Print reprompt_text]) <$> bad).

(** What [main] has written when it reaches the confirmation. *)
Definition loading_line (filename : string) : Output :=
  Print ("Loading dirty paths from " +:+ filename +:+ "...").
Definition summary_lines (bucket : string) (dry_run : bool)
    (dirty_paths : list string) (sizes : gmap string Z) : list Output :=
  [Print ("Loaded " +:+ pretty (length dirty_paths) +:+ " dirty paths");
   SummaryBlock bucket dry_run dirty_paths sizes].
Definition nothing_line : Output :=
  Print "No dirty paths found in input file. Nothing to delete.".
Definition cancelled_line : Output := Print (String newline "Deletion cancelled.").

Definition warning_text : string :=
  String newline "⚠️  WARNING: This will permanently delete objects from S3!".
Definition undone_text : string := String.app "This action cannot be undone." nl.

(** The exit status of the process for an outcome of [main]: [sys.exit(c)]
    gives [c], an exception nobody caught gives 1. *)
Definition exit_status (o : Outcome unit) : Z :=
  match o with
  | Ret _ => 0
  | Raise (SystemExit code) => code
  | Raise _ => 1
  end.

Section WithClient.
Context {World : Type}.
Variable s3_client : S3Client World.

(** [utils.list_all_objects] is imported by the script but is not defined
    in utils.py.  It is taken as given: an operation on the store that
    returns the keys listed under the prefix. *)
Variable list_all_objects_impl : string -> string -> World -> list string * World.

(** [open] and [json.load] on the file of that name. *)
Variable read_json : string -> FileResult.

(** [open(path, "w")] and [json.dump] on the file of that name: the file is
    written ([None]), or the attempt fails with an exception that carries
    a message. *)
Variable write_json : string -> option string.

Definition list_all_objects (bucket_name prefix : string) : M World (list string) :=
  fun st =>
    let '(keys, w) := list_all_objects_impl bucket_name prefix (world st) in
    (Ret keys, set_world w (add_call (ListAllObjects bucket_name prefix) st)).

Definition load_dirty_paths (filename : string)
    : M World (list string * gmap string Z) :=
  data <- (fun st =>
             (match read_json filename with
              | Parsed doc => Ret doc
              | Unreadable msg => Raise (OtherException msg)
              end, st)) ;;
  match data with
  | DocNotADict t =>
      raise (ValueError ("Expected JSON object, got " +:+ type_str t))
  | DocDict dp sz =>
      match default (PathsList []) dp with
      | PathsNotAList t =>
          raise (ValueError ("Expected 'dirty_paths' to be a list, got "
                             +:+ type_str t))
      | PathsList dirty_paths =>
          let sizes :=
            match default (SizesDict ∅) sz with
            | SizesDict d => d
            | SizesNotADict => ∅
            end in
          ret (dirty_paths, sizes)
      end
  end.

(** What [load_dirty_paths] returns or raises for a file name; it is
    shown below to be exactly that, in every state. *)
Definition load_dirty_paths_result (filename : string)
    : Outcome (list string * gmap string Z) :=
  match read_json filename with
  | Unreadable msg => Raise (OtherException msg)
  | Parsed (DocNotADict t) =>
      Raise (ValueError ("Expected JSON object, got " +:+ type_str t))
  | Parsed (DocDict dp sz) =>
      match default (PathsList []) dp with
      | PathsNotAList t =>
          Raise (ValueError ("Expected 'dirty_paths' to be a list, got "
                             +:+ type_str t))
      | PathsList dirty_paths =>
          Ret (dirty_paths,
               match default (SizesDict ∅) sz with
               | SizesDict d => d
               | SizesNotADict => ∅
               end)
      end
  end.

Definition delete_objects_batch (bucket_name : string) (keys : list string)
    : M World (nat * list string) :=
  if decide (keys = []) then ret (0%nat, [])
  else if decide (1000 < length keys)%nat then
    raise (ValueError ("Too many keys for batch delete: "
                       +:+ pretty (length keys) +:+ " (max 1000)"))
  else
    try_except
      (response <- delete_objects s3_client bucket_name keys ;;
       let deleted_count :=
         match Deleted response with
         | Some d => length d
         | None => 0%nat
         end in
       let errors :=
         match Errors response with
         | Some errs => format_delete_error <$> errs
         | None => []
         end in
       ret (deleted_count, errors))
      (fun e =>
         if is_ClientError e then
           Some (ret (0%nat, ["ClientError: " +:+ exn_str e]))
         else if is_Exception e then
           Some (ret (0%nat, ["Unexpected error: " +:+ exn_str e]))
         else None).

Definition batch_size : nat := 1000.

(** The store's answers to successive bulk-delete calls, one per batch,
    and the store they leave. *)
Fixpoint run_deletes (bucket_name : string) (bs : list (list string)) (w : World)
    : list (ClientResult DeleteResponse) * World :=
  match bs with
  | [] => ([], w)
  | b :: bs' =>
      let '(r, w1) := s3_delete_objects s3_client bucket_name b w in
      let '(rs, w2) := run_deletes bucket_name bs' w1 in
      (r :: rs, w2)
  end.

Definition delete_prefix (bucket_name prefix : string) (dry_run : bool)
    : M World PrefixResult :=
  object_keys <- list_all_objects bucket_name prefix ;;
  let total_objects := length object_keys in
  if decide (total_objects = 0%nat) then ret (0%nat, 0%nat, [])
  else if dry_run then ret (total_objects, 0%nat, [])
  else
    r <- for_each (range 0 total_objects batch_size)
           (fun i (acc : nat * list string) =>
              let '(deleted_count, all_errors) := acc in
              let batch := slice object_keys i (i + batch_size) in
              r <- delete_objects_batch bucket_name batch ;;
              let '(deleted, errors) := r in
              ret ((deleted_count + deleted)%nat, all_errors ++ errors))
           (0%nat, []) ;;
    let '(deleted_count, all_errors) := r in
    ret (total_objects, deleted_count, all_errors).

(** [ThreadPoolExecutor(max_workers=...)] refuses a number of workers that
    is not positive, before any task is submitted.  The pool itself is
    represented by one of its schedules: the tasks run to completion one
    after another, in submission order.  A task touches nothing but the
    store and its own result, and [results] is filled by the collecting
    loop alone. *)
Definition delete_prefixes_concurrent (bucket_name : string)
    (prefixes : list string) (max_workers : Z) (dry_run : bool)
    : M World (gmap string PrefixResult) :=
  let total := length prefixes in
  if decide (max_workers <= 0) then
    raise (ValueError "max_workers must be greater than 0")
  else
  r <- for_each prefixes
         (fun prefix (acc : gmap string PrefixResult * nat) =>
            let '(results, completed) := acc in
            r <- delete_prefix bucket_name prefix dry_run ;;
            let completed := (completed + 1)%nat in
            print_progress "Deleting prefixes" completed total ;;;
            ret (<[ prefix := r ]> results, completed))
         (∅, 0%nat) ;;
  ret (fst r).

Definition display_summary (dirty_paths : list string) (sizes : gmap string Z)
    (bucket_name : string) (dry_run : bool) : M World unit :=
  out (SummaryBlock bucket_name dry_run dirty_paths sizes).

(** The [while True] of [get_confirmation] reads one line per turn, so
    it is a recursion on the lines standard input still holds; at the
    end of input [input] raises [EOFError]. *)
Fixpoint get_confirmation_loop (lines : list string) (st : State World)
    : Outcome bool * State World :=
  match lines with
  | [] => (Raise EOFError, set_stdin [] (add_out (Prompt prompt_text) st))
  | line :: rest =>
      let st := set_stdin rest (add_out (Prompt prompt_text) st) in
      let response := lower (strip line) in
      if decide (response = "yes") then (Ret true, st)
      else if decide (response = "no") then (Ret false, st)
      else get_confirmation_loop rest (add_out (Print reprompt_text) st)
  end.

Definition get_confirmation : M World bool :=
  out (Print warning_text) ;;;
  out (Print undone_text) ;;;
  (fun st => get_confirmation_loop (stdin st) st).

(** The totals and the failed prefixes [main] computes from [results]. *)
Definition failed_prefixes (dry_run : bool) (results : gmap string PrefixResult)
    : list (string * PrefixResult) :=
  filter (fun pr => had_errors dry_run (snd pr) = true) (map_to_list results).

Definition total_of (f : PrefixResult -> nat) (results : gmap string PrefixResult)
    : nat :=
  foldr Nat.add 0%nat (f ∘ snd <$> map_to_list results).

(** [main] up to and including the confirmation: loading, the empty
    check, the summary and the prompt.  It hands the loaded paths on. *)
Definition main_prologue (args : Args) : M World (list string * gmap string Z) :=
  out (Print ("Loading dirty paths from " +:+ input args +:+ "...")) ;;;
  loaded <- try_except (load_dirty_paths (input args))
              (fun e =>
                 if is_Exception e then
                   Some (out (Print ("Error loading input file: " +:+ exn_str e)) ;;;
                         sys_exit 1)
                 else None) ;;
  let '(dirty_paths, sizes) := loaded in
  if decide (dirty_paths = []) then
    out (Print "No dirty paths found in input file. Nothing to delete.") ;;;
    sys_exit 0
  else
    out (Print ("Loaded " +:+ pretty (length dirty_paths) +:+ " dirty paths")) ;;;
    display_summary dirty_paths sizes (bucket_name args) (dry_run args) ;;;
    (if dry_run args then ret tt
     else
       confirmed <- get_confirmation ;;
       if confirmed then ret tt
       else out (Print (String newline "Deletion cancelled.")) ;;; sys_exit 0) ;;;
    ret (dirty_paths, sizes).

(** The announcements and the creation of the client. *)
Definition main_create_client (args : Args) : M World unit :=
  out (Print (String newline ("Creating S3 client with "
                              +:+ pretty (workers args) +:+ " workers..."))) ;;;
  create_s3_client (workers args) ;;;
  out (Print (String newline
                (if dry_run args then "Simulating deletion..."
                 else "Starting deletion..."))).

(** The log file [main] writes, if any: [if args.output_log] holds for a
    name that was given and is not empty. *)
Definition log_path (args : Args) : option string :=
  if truthy (output_log args) then output_log args else None.

(** Whether a log file is asked for and cannot be written. *)
Definition log_fails (args : Args) : Prop :=
  exists path msg, log_path args = Some path /\ write_json path = Some msg.

(** The call that writing the log leaves, if the log is written. *)
Definition log_calls (args : Args) : list Call :=
  match log_path args with
  | Some path =>
      match write_json path with
      | None => [WriteLog path]
      | Some _ => []
      end
  | None => []
  end.

(** The report, the optional log and the exit status, from [results].
    A log that is written is recorded as a call; when [open] or the write
    fails, the exception is not caught. *)
Definition main_report (args : Args) (results : gmap string PrefixResult)
    : M World unit :=
  let failed := failed_prefixes (dry_run args) results in
  out (ResultsBlock
         (total_of (fun r => fst (fst r)) results)
         (total_of (fun r => snd (fst r)) results)
         (total_of (fun r => length (snd r)) results)
         (fst <$> failed)) ;;;
  match log_path args with
  | Some path =>
      match write_json path with
      | None =>
          log_call (WriteLog path) ;;;
          out (Print (String newline ("Log saved to " +:+ path)))
      | Some msg => raise (OtherException msg)
      end
  | None => ret tt
  end ;;;
  out Elapsed ;;;
  if decide (failed <> [] /\ dry_run args = false) then sys_exit 1
  else ret tt.

(** [main] after the confirmation. *)
Definition main_processing (args : Args) (dirty_paths : list string)
    : M World unit :=
  main_create_client args ;;;
  results <- delete_prefixes_concurrent (bucket_name args) dirty_paths
               (workers args) (dry_run args) ;;
  main_report args results.

Definition main (args : Args) : M World unit :=
  loaded <- main_prologue args ;;
  main_processing args (fst loaded).

End WithClient.

(** The store calls the engine may make for a bucket and a list of
    prefixes: a listing of one of the prefixes, or a bulk delete of 1 to
    1000 keys, both in that bucket. *)
Definition engine_call_ok (bucket : string) (prefixes : list string) (c : Call)
    : Prop :=
  match c with
  | ListAllObjects b p => b = bucket /\ p ∈ prefixes
  | DeleteObjects b keys => b = bucket /\ (1 <= length keys <= 1000)%nat
  | _ => False
  end.

(** The progress lines of a phase over [n] items, after [done] of [total]. *)
Definition progress_lines (label : string) (done n total : nat) : list Output :=
  (fun i => Progress label (done + S i) total) <$> seq 0 n.

(** What [delete_prefix] returns in a dry run: a count, nothing deleted, no
    error. *)
Definition dry_result (r : PrefixResult) : Prop :=
  exists found, r = (found, 0%nat, []).

Definition is_prompt (o : Output) : bool :=
  match o with Prompt _ => true | _ => false end.

End delete_prefixes.

(** ** list_backup_prefixes.py *)

Module list_backup_prefixes.
Import PyStr Py utils.
Local Open Scope py_scope.

(** [[0-9a-f]] under [re.IGNORECASE]. *)
Definition is_hex (c : ascii) : bool :=
  let n := N_of_ascii c in
  ((48 <=? n)%N && (n <=? 57)%N) || ((97 <=? n)%N && (n <=? 102)%N)
  || ((65 <=? n)%N && (n <=? 70)%N).

(** [[0-9a-f]{n}] at the head of [s]: what follows the match, if there is
    one. *)
Fixpoint hex_run (n : nat) (s : string) : option string :=
  match n with
  | O => Some s
  | Datatypes.S n' =>
      match s with
      | String c s' => if is_hex c then hex_run n' s' else None
      | EmptyString => None
      end
  end.

(** [-] at the head of [s]. *)
Definition hyphen (s : string) : option string :=
  match s with
  | String c s' => if decide (c = "-"%char) then Some s' else None
  | EmptyString => None
  end.

(** [$] without [re.MULTILINE]: at the end of the string, or just before a
    newline that ends it. *)
Definition at_end (s : string) : bool :=
  bool_decide (s = EmptyString) || bool_decide (s = nl).

(** The pattern of [is_valid_uuid], item by item.  Its repetition counts
    are fixed, so matching it is one pass over the string. *)
Definition uuid_pattern : list (string -> option string) :=
  [hex_run 8; hyphen; hex_run 4; hyphen; hex_run 4; hyphen; hex_run 4; hyphen;
   hex_run 12].

Definition is_valid_uuid (uuid_str : string) : bool :=
  match foldl (fun rest item => rest ≫= item) (Some uuid_str) uuid_pattern with
  | Some rest => at_end rest
  | None => false
  end.

(** The body of [for common_prefix in response["CommonPrefixes"]] of
    [discover_ch_s3_prefixes]. *)
Definition keep_ch_s3_prefix (ch_s3_prefixes : list string) (full_prefix : string)
    : list string :=
  let full_prefix :=
    if endswith_char "/" full_prefix then drop_last full_prefix else full_prefix in
  if startswith "ch-s3-" full_prefix then
    let uuid_part := slice_from 6 full_prefix in
    if is_valid_uuid uuid_part then ch_s3_prefixes ++ [full_prefix]
    else ch_s3_prefixes
  else ch_s3_prefixes.

Section WithClient.
Context {World : Type}.
Variable s3_client : S3Client World.

(** One turn of the loop of [discover_ch_s3_prefixes]; its one handler
    catches every [Exception]. *)
Definition discover_ch_s3_prefixes_turn (bucket_name : string)
    (s : list string * option string)
    : M World (Ctl (list string * option string)) :=
  let '(ch_s3_prefixes, continuation_token) := s in
  try_except
    (response <- list_objects_v2 s3_client
                   (list_params bucket_name "ch-s3-" (Some "/") continuation_token) ;;
     let ch_s3_prefixes :=
       match CommonPrefixes response with
       | Some cps => foldl keep_ch_s3_prefix ch_s3_prefixes cps
       | None => ch_s3_prefixes
       end in
     let continuation_token := NextContinuationToken response in
     if truthy continuation_token
     then ret (Continue (ch_s3_prefixes, continuation_token))
     else ret (Break (ch_s3_prefixes, continuation_token)))
    (fun e =>
       if is_Exception e then
         Some (out (Print ("Error discovering ch-s3-* prefixes: " +:+ exn_str e)) ;;;
               ret (Break (ch_s3_prefixes, continuation_token)))
       else None).

Definition discover_ch_s3_prefixes (fuel : nat) (bucket_name : string)
    (st : State World) : option (Outcome (list string) * State World) :=
  match while_true fuel (discover_ch_s3_prefixes_turn bucket_name) ([], None) st with
  | Some (Ret (ch_s3_prefixes, _), st') => Some (Ret (sorted ch_s3_prefixes), st')
  | Some (Raise e, st') => Some (Raise e, st')
  | None => None
  end.

Definition list_uuids_under_backup_prefix (fuel : nat)
    (bucket_name ch_s3_prefix : string)
    (st : State World) : option (Outcome (gset string) * State World) :=
  let full_prefix := ch_s3_prefix +:+ "/" in
  list_next_level_prefixes s3_client fuel bucket_name full_prefix st.

End WithClient.

(** What one page adds to the list of [discover_ch_s3_prefixes]. *)
Definition discover_step (acc : list string) (page : ListResponse) : list string :=
  match CommonPrefixes page with
  | Some cps => foldl keep_ch_s3_prefix acc cps
  | None => acc
  end.

(** The name [keep_ch_s3_prefix] keeps for one common prefix, if it keeps
    one. *)
Definition top_level_name (full_prefix : string) : option string :=
  let full_prefix :=
    if endswith_char "/" full_prefix then drop_last full_prefix else full_prefix in
  if startswith "ch-s3-" full_prefix && is_valid_uuid (slice_from 6 full_prefix)
  then Some full_prefix else None.

(** Every character of [s] is a hexadecimal digit, of either case. *)
Fixpoint all_hex (s : string) : bool :=
  match s with
  | EmptyString => true
  | String c s' => is_hex c && all_hex s'
  end.

(** Five groups joined by hyphens. *)
Definition uuid_text (a b c d e : string) : string :=
  a +:+ "-" +:+ b +:+ "-" +:+ c +:+ "-" +:+ d +:+ "-" +:+ e.

End list_backup_prefixes.

(** ** list_data_prefixes.py *)

Module list_data_prefixes.
Import PyStr Py utils.
Local Open Scope py_scope.

Section WithClient.
Context {World : Type}.
Variable s3_client : S3Client World.

Definition list_prefixes_for_ch_s3_prefix (fuel : nat)
    (bucket_name ch_s3_prefix : string)
    (st : State World) : option (Outcome (gset string) * State World) :=
  let full_prefix := ch_s3_prefix +:+ "/" in
  list_next_level_prefixes s3_client fuel bucket_name full_prefix st.

(** The worker [process_prefix] of [collect_all_next_level_prefixes]. *)
Definition process_prefix (fuel : nat) (bucket_name ch_s3_prefix : string)
    (st : State World) : option (Outcome (string * list string) * State World) :=
  match list_prefixes_for_ch_s3_prefix fuel bucket_name ch_s3_prefix st with
  | Some (Ret prefixes_set, st') =>
      let prefixes_list := sorted (elements prefixes_set) in
      Some (Ret (ch_s3_prefix, prefixes_list), st')
  | Some (Raise e, st') =>
      if is_Exception e
      then Some (Ret (ch_s3_prefix, []),
                 add_out (Print ("Error processing " +:+ ch_s3_prefix
                                 +:+ ": " +:+ exn_str e)) st')
      else Some (Raise e, st')
  | None => None
  end.

(** The worker [size_for_prefix] of [collect_all_next_level_prefixes]. *)
Definition size_for_prefix (fuel : nat) (bucket_name full_path : string)
    (st : State World) : option (Outcome (string * Z) * State World) :=
  match sum_sizes_in_prefix s3_client fuel bucket_name (full_path +:+ "/") st with
  | Some (Ret total_size, st') => Some (Ret (full_path, total_size), st')
  | Some (Raise e, st') =>
      if is_Exception e
      then Some (Ret (full_path, 0),
                 add_out (Print ("Error counting objects for " +:+ full_path
                                 +:+ ": " +:+ exn_str e)) st')
      else Some (Raise e, st')
  | None => None
  end.

End WithClient.

(** One lower-case hexadecimal digit. *)
Definition hex_digit (d : N) : ascii :=
  default "0"%char (String.get (N.to_nat d) "0123456789abcdef").

(** [f"{i:x}"]: the digits of [i], most significant first; [fuel] bounds
    their number. *)
Fixpoint hex_digits (fuel : nat) (i : N) (acc : string) : string :=
  match fuel with
  | O => acc
  | Datatypes.S fuel' =>
      let acc := String (hex_digit (i mod 16)%N) acc in
      if decide (i / 16 = 0)%N then acc else hex_digits fuel' (i / 16)%N acc
  end.

(** [f"{i:03x}"]: at least three digits, padded with zeros on the left. *)
Definition format_03x (i : N) : string :=
  let digits := hex_digits (Datatypes.S (N.to_nat (N.log2 i))) i EmptyString in
  String.string_of_list_ascii (replicate (3 - String.length digits) "0"%char)
  +:+ digits.

(** [[f"ch-s3-{i:03x}" for i in range(0x000, 0x1000)]] *)
Definition ch_s3_prefixes : list string :=
  (fun i => "ch-s3-" +:+ format_03x (N.of_nat i)) <$> seq 0 4096.

(** The sixteen digits [format_03x] writes. *)
Definition hex_chars : list ascii :=
  String.list_ascii_of_string "0123456789abcdef".

(** [d[k] = v] on a dict, kept as its items in insertion order: a key that
    is present keeps its place. *)
Fixpoint dict_set {V} (d : list (string * V)) (k : string) (v : V)
    : list (string * V) :=
  match d with
  | [] => [(k, v)]
  | (k', v') :: d' =>
      if decide (k' = k) then (k, v) :: d' else (k', v') :: dict_set d' k v
  end.

(** [f"{ch_s3_prefix}/{prefix}"] *)
Definition full_path (ch_s3_prefix prefix : string) : string :=
  ch_s3_prefix +:+ "/" +:+ prefix.

(** The [summary] entry, without its human-readable size string. *)
Record Summary := {
  total_unique_prefixes : nat;
  total_uuids_with_prefixes : nat;
  total_full_paths : nat;
  total_size_bytes : Z
}.

Record OutputData := {
  prefixes : list string;
  prefix_sizes_bytes : gmap string Z;
  summary : Summary
}.

(** [collect_all_next_level_prefixes], from what the workers return to the
    document it writes.  [completed] holds the results of [process_prefix]
    and [sized] those of [size_for_prefix], each in the order in which
    [as_completed] hands them over. *)
Definition output_data (completed : list (string * list string))
    (sized : list (string * Z)) : OutputData :=
  let uuid_to_prefixes :=
    foldl (fun d r => dict_set d r.1 r.2) [] completed in
  let all_next_level_prefixes : gset string :=
    foldl (fun s r => s ∪ list_to_set r.2) ∅ completed in
  let all_full_paths :=
    concat ((fun r : string * list string => full_path r.1 <$> r.2)
              <$> uuid_to_prefixes) in
  let sorted_full_paths := sorted all_full_paths in
  let prefix_to_size : gmap string Z :=
    foldl (fun m r => <[ r.1 := r.2 ]> m) ∅ sized in
  {| prefixes := sorted_full_paths;
     prefix_sizes_bytes := prefix_to_size;
     summary :=
       {| total_unique_prefixes := size all_next_level_prefixes;
          total_uuids_with_prefixes :=
            length (filter (fun r => r.2 <> []) uuid_to_prefixes);
          total_full_paths := length sorted_full_paths;
          total_size_bytes :=
            get_final_dirty_data_prefix.sum_values prefix_to_size |} |}.

End list_data_prefixes.

(** ** A scripted store, for running the definitions on concrete inputs

    The store holds a list of keys.  Listing pages and bulk-delete answers
    can be scripted, one entry per call; when a script is used up, a listing
    answers with an empty last page and a bulk delete removes every key it
    was given. *)

Module Mock.
Import PyStr Py.

Record MockWorld := {
  objects : list string;
  list_script : list (ClientResult ListResponse);
  delete_script : list (ClientResult DeleteResponse)
}.

Definition empty_page : ListResponse :=
  {| CommonPrefixes := None; Contents := None; NextContinuationToken := None |}.

Definition remove_keys (gone : list string) (objs : list string) : list string :=
  filter (fun k => k ∉ gone) objs.

Definition mock_list_objects_v2 (params : ListParams) (w : MockWorld)
    : ClientResult ListResponse * MockWorld :=
  match list_script w with
  | [] => (Answer empty_page, w)
  | r :: rs =>
      (r, {| objects := objects w; list_script := rs;
             delete_script := delete_script w |})
  end.

Definition mock_delete_objects (bucket : string) (keys : list string) (w : MockWorld)
    : ClientResult DeleteResponse * MockWorld :=
  match delete_script w with
  | [] =>
      (Answer {| Deleted := Some keys; Errors := None |},
       {| objects := remove_keys keys (objects w); list_script := list_script w;
          delete_script := [] |})
  | r :: rs =>
      let gone :=
        match r with
        | Answer resp => default [] (Deleted resp)
        | _ => []
        end in
      (r, {| objects := remove_keys gone (objects w); list_script := list_script w;
             delete_script := rs |})
  end.

Definition client : S3Client MockWorld :=
  {| s3_list_objects_v2 := mock_list_objects_v2;
     s3_delete_objects := mock_delete_objects |}.

Definition list_all_objects_impl (bucket prefix : string) (w : MockWorld)
    : list string * MockWorld :=
  (filter (fun k => startswith prefix k = true) (objects w), w).

Definition store (keys : list string) : MockWorld :=
  {| objects := keys; list_script := []; delete_script := [] |}.

Definition start (w : MockWorld) (lines : list string) : State MockWorld :=
  {| world := w; stdin := lines; stdout := []; calls := [] |}.

(** [n] keys under the prefix [p/]. *)
Definition keys_under (p : string) (n : nat) : list string :=
  (fun i => p +:+ "/" +:+ pretty i) <$> seq 0 n.

(** A store whose listing gives one page that names a further page, and
    then fails. *)
Definition page_a : ListResponse :=
  {| CommonPrefixes := Some ["p/a/"];
     Contents := Some [ {| Key := "p/a/x"; Size := Some 7 |} ];
     NextContinuationToken := Some "t" |}.

Definition flaky : MockWorld :=
  {| objects := [];
     list_script := [Answer page_a; RaisesClientError "boom"];
     delete_script := [] |}.

(** A store with three keys under [p/] whose first bulk delete is refused. *)
Definition denied : MockWorld :=
  {| objects := keys_under "p" 3;
     list_script := [];
     delete_script := [RaisesClientError "AccessDenied"] |}.

(** Input files: one that parses to the given paths, one that cannot be
    read. *)
Definition reader (paths : list string) (filename : string)
    : delete_prefixes.FileResult :=
  delete_prefixes.Parsed
    (delete_prefixes.DocDict (Some (delete_prefixes.PathsList paths)) None).

Definition unreadable (filename : string) : delete_prefixes.FileResult :=
  delete_prefixes.Unreadable "No such file or directory".

(** Log files: one that can be written, one that cannot. *)
Definition writable (path : string) : option string := None.

Definition read_only (path : string) : option string := Some "Permission denied".

Definition live_args : delete_prefixes.Args :=
  {| delete_prefixes.bucket_name := "b"; delete_prefixes.input := "in.json";
     delete_prefixes.workers := 10; delete_prefixes.dry_run := false;
     delete_prefixes.output_log := None |}.

Definition dry_args : delete_prefixes.Args :=
  {| delete_prefixes.bucket_name := "b"; delete_prefixes.input := "in.json";
     delete_prefixes.workers := 10; delete_prefixes.dry_run := true;
     delete_prefixes.output_log := None |}.

(** A dry run with [-w 0], and a dry run that asks for a log file. *)
Definition idle_args : delete_prefixes.Args :=
  {| delete_prefixes.bucket_name := "b"; delete_prefixes.input := "in.json";
     delete_prefixes.workers := 0; delete_prefixes.dry_run := true;
     delete_prefixes.output_log := None |}.

Definition logged_args : delete_prefixes.Args :=
  {| delete_prefixes.bucket_name := "b"; delete_prefixes.input := "in.json";
     delete_prefixes.workers := 10; delete_prefixes.dry_run := true;
     delete_prefixes.output_log := Some "log.json" |}.

(** A second, last page after [page_a], and a store that lists both. *)
Definition page_b : ListResponse :=
  {| CommonPrefixes := Some ["p/b/"; "p/"];
     Contents := Some [ {| Key := "p/b/y"; Size := Some 5 |};
                        {| Key := "p/b/z"; Size := None |} ];
     NextContinuationToken := None |}.

Definition steady : MockWorld :=
  {| objects := [];
     list_script := [Answer page_a; Answer page_b];
     delete_script := [] |}.

(** A store that lists top-level names on two pages: an identifier in
    lower case, a name that is no identifier, and an identifier in upper
    case listed without a final '/'. *)
Definition tops_a : ListResponse :=
  {| CommonPrefixes := Some ["ch-s3-0a1b2c3d-0000-1111-2222-333344445555/";
                             "ch-s3-000/"];
     Contents := None;
     NextContinuationToken := Some "t" |}.

Definition tops_b : ListResponse :=
  {| CommonPrefixes := Some ["ch-s3-0A1B2C3D-AAAA-BBBB-CCCC-DDDDEEEEFFFF"];
     Contents := None;
     NextContinuationToken := None |}.

Definition backups : MockWorld :=
  {| objects := [];
     list_script := [Answer tops_a; Answer tops_b];
     delete_script := [] |}.

(** An input file that holds a JSON value other than an object. *)
Definition not_an_object (filename : string) : delete_prefixes.FileResult :=
  delete_prefixes.Parsed (delete_prefixes.DocNotADict delete_prefixes.json_list).

(** What the workers of the data enumerator return when one name has two
    children and the others none, and the sizes of the two paths. *)
Definition completed : list (string * list string) :=
  (fun p => (p, if decide (p = "ch-s3-00a") then ["u1"; "u2"] else []))
    <$> list_data_prefixes.ch_s3_prefixes.

Definition sized : list (string * Z) :=
  [("ch-s3-00a/u2", 5); ("ch-s3-00a/u1", 7)].

End Mock.

(** * Properties *)

(** ** Strings *)

Section StringFacts.
Import PyStr.

Lemma split_cons sep c s :
  split sep (String c s) =
  if decide (c = sep) then EmptyString :: split sep s
  else match split sep s with
       | [] => [String c EmptyString]
       | w :: ws => String c w :: ws
       end.
Proof. reflexivity. Qed.

Lemma contains_cons sep c s :
  contains sep (String c s) = bool_decide (c = sep) || contains sep s.
Proof. reflexivity. Qed.

Lemma split_nonempty sep s : split sep s <> [].
Proof.
  destruct s as [|c s]; [done|]. rewrite split_cons.
  case_decide; [done|]. by destruct (split sep s).
Qed.

Lemma split_singleton sep s w : split sep s = [w] -> w = s.
Proof.
  revert w. induction s as [|c s IH]; intros w Hw.
  - by inversion Hw.
  - rewrite split_cons in Hw. case_decide.
    + inversion Hw as [[Hw1 Hw2]]. by apply split_nonempty in Hw2.
    + pose proof (split_nonempty sep s) as Hne.
      destruct (split sep s) as [|w' ws]; [done|].
      inversion Hw; subst. f_equal. by apply IH.
Qed.

Lemma split_no_sep sep s : contains sep s = false -> split sep s = [s].
Proof.
  induction s as [|c s IH]; [done|].
  rewrite contains_cons, split_cons.
  intros [Hc Hs]%orb_false_iff. apply bool_decide_eq_false in Hc.
  rewrite decide_False by done. by rewrite IH.
Qed.

Lemma split_segments_no_sep sep s :
  Forall (fun w => contains sep w = false) (split sep s).
Proof.
  induction s as [|c s IH].
  - by constructor.
  - rewrite split_cons. case_decide as Hc.
    + by constructor.
    + destruct (split sep s) as [|w ws]; inversion IH; subst;
        (constructor; [|done]);
        rewrite contains_cons, bool_decide_eq_false_2 by done; done.
Qed.

Lemma split_last_suffix sep s w :
  contains sep s = true -> last (split sep s) = Some w ->
  exists pre, s = pre +:+ String sep w.
Proof.
  revert w. induction s as [|c s IH]; intros w Hs Hl; [done|].
  rewrite contains_cons in Hs. rewrite split_cons in Hl.
  pose proof (split_nonempty sep s) as Hne.
  pose proof (split_segments_no_sep sep s) as Hseg.
  pose proof (split_singleton sep s) as Hone.
  pose proof (split_no_sep sep s) as Hno.
  destruct (split sep s) as [|w' ws]; [done|]. clear Hne.
  case_decide as Hc.
  - subst c. rewrite last_cons_cons in Hl.
    destruct (contains sep s) eqn:Hcs.
    + destruct (IH w eq_refl Hl) as [pre ->]. by exists (String sep pre).
    + specialize (Hno eq_refl). inversion Hno; subst.
      simpl in Hl. inversion Hl; subst. by exists EmptyString.
  - rewrite bool_decide_eq_false_2 in Hs by done. simpl in Hs.
    destruct ws as [|w'' ws].
    + rewrite <- (Hone w' eq_refl) in Hs. inversion Hseg; subst. congruence.
    + rewrite last_cons_cons in Hl. rewrite <- (last_cons_cons w') in Hl.
      destruct (IH w Hs Hl) as [pre ->]. by exists (String c pre).
Qed.

Lemma replace1_prefix old new s :
  startswith old s = true ->
  replace1 old new s = new +:+ slice_from (String.length old) s.
Proof. intros H. destruct s; cbn [replace1]; by rewrite H. Qed.

Lemma sorted_Sorted l : Sorted String.le (sorted l).
Proof. apply (Sorted_merge_sort String.le). Qed.

Lemma sorted_Permutation l : sorted l ≡ₚ l.
Proof. apply merge_sort_Permutation. Qed.

Lemma sorted_unique l l' : Sorted String.le l' -> l' ≡ₚ l -> l' = sorted l.
Proof.
  intros Hs Hp. apply (Sorted_unique String.le); [done|apply sorted_Sorted|].
  by rewrite sorted_Permutation.
Qed.

Lemma app_cons c s t : String.app (String c s) t = String c (String.app s t).
Proof. reflexivity. Qed.

Lemma str_app_nil_r s : String.app s EmptyString = s.
Proof. induction s as [|c s IH]; [done|]. by rewrite app_cons, IH. Qed.

Lemma slice_from_app p x : slice_from (String.length p) (p +:+ x) = x.
Proof. induction p as [|c p IH]; [done|]. by rewrite app_cons. Qed.

Lemma str_app_assoc (a b c : string) : (a +:+ b) +:+ c = a +:+ b +:+ c.
Proof. induction a as [|x a IH]; [done|]. by rewrite !app_cons, IH. Qed.

Lemma str_app_length (a b : string) :
  String.length (a +:+ b) = (String.length a + String.length b)%nat.
Proof. induction a as [|x a IH]; [done|]. rewrite app_cons. cbn. by rewrite IH. Qed.

Lemma startswith_split p s :
  startswith p s = true -> s = p +:+ slice_from (String.length p) s.
Proof.
  unfold startswith. revert s. induction p as [|a p IH]; intros s H; [done|].
  destruct s as [|b s]; [done|]. cbn in H.
  destruct (ascii_dec a b) as [->|]; [|done].
  rewrite app_cons. cbn [String.length slice_from]. f_equal. by apply IH.
Qed.

Lemma startswith_app p s : startswith p (p +:+ s) = true.
Proof.
  unfold startswith. induction p as [|a p IH]; [by destruct s|].
  rewrite app_cons. cbn. by destruct (ascii_dec a a).
Qed.

(** *** Trimming *)

Lemma whitespace_nonempty w : w ∈ whitespace -> w <> EmptyString.
Proof.
  intros Hin ->.
  assert (H : bool_decide (EmptyString ∈ whitespace) = false) by (by vm_compute).
  by apply bool_decide_eq_false in H.
Qed.

Lemma spaces_one w : w ∈ whitespace -> spaces w.
Proof.
  intros Hw. rewrite <- (str_app_nil_r w). apply spaces_cons; [done|constructor].
Qed.

Lemma spaces_app a b : spaces a -> spaces b -> spaces (a +:+ b).
Proof.
  induction 1 as [|w a Hw Ha IH]; intros Hb; [done|].
  rewrite str_app_assoc. apply spaces_cons; [done|by apply IH].
Qed.

Lemma slice_to_from n s : slice_to n s +:+ slice_from n s = s.
Proof.
  unfold slice_to. revert s. induction n as [|n IH]; intros s.
  - by destruct s.
  - destruct s as [|c s]; [done|]. cbn [String.substring slice_from].
    by rewrite app_cons, IH.
Qed.

Lemma drop_space_left_Some s r :
  drop_space_left s = Some r -> exists w, w ∈ whitespace /\ s = w +:+ r.
Proof.
  unfold drop_space_left.
  destruct (head (filter _ whitespace)) as [w|] eqn:E; [|done].
  intros [= <-]. apply head_Some_elem_of, list_elem_of_filter in E as [Hp Hw].
  exists w. split; [done|]. by apply startswith_split.
Qed.

Lemma drop_space_left_None s w :
  drop_space_left s = None -> w ∈ whitespace -> startswith w s = false.
Proof.
  unfold drop_space_left.
  destruct (head (filter _ whitespace)) as [w'|] eqn:E; [done|].
  intros _ Hw. apply head_None in E.
  destruct (startswith w s) eqn:Hs; [|done].
  assert (Hin : w ∈ filter (fun w => startswith w s = true) whitespace)
    by (by apply list_elem_of_filter).
  rewrite E in Hin. by apply elem_of_nil in Hin.
Qed.

Lemma drop_space_right_Some s r :
  drop_space_right s = Some r -> exists w, w ∈ whitespace /\ s = r +:+ w.
Proof.
  unfold drop_space_right.
  destruct (head (filter _ whitespace)) as [w|] eqn:E; [|done].
  intros [= <-]. apply head_Some_elem_of, list_elem_of_filter in E as [Hp Hw].
  exists w. split; [done|]. unfold endswith in Hp.
  apply andb_true_iff in Hp as [_ Hp]. apply bool_decide_eq_true in Hp.
  pose proof (slice_to_from (String.length s - String.length w) s) as E'.
  by rewrite Hp in E'.
Qed.

Lemma drop_space_nil : drop_space_left EmptyString = None /\
                       drop_space_right EmptyString = None.
Proof. by vm_compute. Qed.

Lemma repeatedly_left n s :
  exists l, s = l +:+ repeatedly n drop_space_left s /\ spaces l /\
            ((String.length s <= n)%nat ->
             drop_space_left (repeatedly n drop_space_left s) = None).
Proof.
  revert s. induction n as [|n IH]; intros s.
  - exists EmptyString. split; [done|]. split; [constructor|]. intros Hlen.
    destruct s; [apply drop_space_nil|simpl in Hlen; lia].
  - cbn [repeatedly]. destruct (drop_space_left s) as [r|] eqn:E.
    + apply drop_space_left_Some in E as (w & Hw & ->).
      destruct (IH r) as (l & Hl & Hs & Hn). exists (w +:+ l).
      split; [by rewrite str_app_assoc, <- Hl|]. split; [by constructor|].
      intros Hlen. apply Hn. rewrite str_app_length in Hlen.
      pose proof (whitespace_nonempty w Hw). destruct w; [done|].
      simpl in Hlen. lia.
    + exists EmptyString. split; [done|]. split; [constructor|done].
Qed.

Lemma repeatedly_right n s :
  exists r, s = repeatedly n drop_space_right s +:+ r /\ spaces r /\
            ((String.length s <= n)%nat ->
             drop_space_right (repeatedly n drop_space_right s) = None).
Proof.
  revert s. induction n as [|n IH]; intros s.
  - exists EmptyString. split; [by rewrite str_app_nil_r|]. split; [constructor|].
    intros Hlen. destruct s; [apply drop_space_nil|simpl in Hlen; lia].
  - cbn [repeatedly]. destruct (drop_space_right s) as [s1|] eqn:E.
    + apply drop_space_right_Some in E as (w & Hw & ->).
      destruct (IH s1) as (r & Hr & Hs & Hn). exists (r +:+ w).
      split; [by rewrite <- str_app_assoc, <- Hr|].
      split; [apply spaces_app; [done|by apply spaces_one]|].
      intros Hlen. apply Hn. rewrite str_app_length in Hlen.
      pose proof (whitespace_nonempty w Hw). destruct w; [done|].
      simpl in Hlen. lia.
    + exists EmptyString. split; [by rewrite str_app_nil_r|]. split; [constructor|done].
Qed.

Lemma startswith_app_l w a b : startswith w a = true -> startswith w (a +:+ b) = true.
Proof.
  intros H. apply startswith_split in H. rewrite H, str_app_assoc.
  apply startswith_app.
Qed.

(** [strip] removes a run of whitespace characters at either end, and
    what is left neither starts nor ends with one. *)
Lemma strip_spec s :
  exists l r,
    s = l +:+ strip s +:+ r /\ spaces l /\ spaces r /\
    drop_space_left (strip s) = None /\ drop_space_right (strip s) = None.
Proof.
  unfold strip, lstrip, rstrip.
  destruct (repeatedly_left (String.length s) s) as (l & Hl & Hsl & Hnl).
  specialize (Hnl (le_n _)).
  set (m := repeatedly (String.length s) drop_space_left s) in *.
  destruct (repeatedly_right (String.length m) m) as (r & Hr & Hsr & Hnr).
  specialize (Hnr (le_n _)).
  set (t := repeatedly (String.length m) drop_space_right m) in *.
  exists l, r. split; [by rewrite <- Hr|]. split; [done|]. split; [done|].
  split; [|done].
  destruct (drop_space_left t) as [x|] eqn:E; [|done].
  apply drop_space_left_Some in E as (w & Hw & Ht).
  pose proof (drop_space_left_None m w Hnl Hw) as Hf.
  rewrite Hr, Ht, str_app_assoc, startswith_app in Hf. done.
Qed.

End StringFacts.

(** ** The dirty-set resolvers *)

Section Resolver.
Import PyStr get_final_dirty_data_prefix.

Lemma load_step_elem (uuids : gset string) lines u :
  u ∈ foldl
        (fun (uuids : gset string) (line : string) =>
           let line := strip line in
           if decide (line = EmptyString) then uuids
           else
             let uuid :=
               if startswith "ch-s3-" line
               then replace1 "ch-s3-" "" line
               else line in
             uuids ∪ {[ uuid ]})
        uuids lines <->
  u ∈ uuids \/ exists line, line ∈ lines /\ loaded_from line = Some u.
Proof.
  revert uuids. induction lines as [|l lines IH]; intros uuids.
  - simpl. split; [by left|]. intros [?|(line & Hin & _)]; [done|].
    by apply elem_of_nil in Hin.
  - cbn [foldl]. rewrite IH. clear IH. unfold loaded_from. cbv zeta.
    destruct (decide (strip l = EmptyString)) as [He|Hne].
    + split.
      * intros [?|(line & Hin & Hl)]; [by left|].
        right. exists line. split; [by right|done].
      * intros [?|(line & Hin & Hl)]; [by left|].
        apply elem_of_cons in Hin as [->|Hin].
        -- by rewrite decide_True in Hl.
        -- right. eauto.
    + assert (Hu : (if startswith "ch-s3-" (strip l)
                    then replace1 "ch-s3-" "" (strip l) else strip l) =
                   (if startswith "ch-s3-" (strip l)
                    then slice_from 6 (strip l) else strip l)).
      { destruct (startswith "ch-s3-" (strip l)) eqn:Hp; [|done].
        by rewrite replace1_prefix. }
      rewrite Hu. clear Hu. split.
      * intros [[?| ->%elem_of_singleton]%elem_of_union|(line & Hin & Hl)].
        -- by left.
        -- right. exists l. split; [by left|]. by rewrite decide_False.
        -- right. exists line. split; [by right|done].
      * intros [?|(line & Hin & Hl)]; [left; set_solver|].
        apply elem_of_cons in Hin as [->|Hin].
        -- rewrite decide_False in Hl by done. inversion Hl. left. set_solver.
        -- right. eauto.
Qed.

Lemma find_dirty_foldl (A : gset string) (acc P : list string) :
  foldl
    (fun (dirty_paths : list string) (full_path : string) =>
       let uuid := extract_uuid_from_path full_path in
       if decide (uuid ∉ A) then dirty_paths ++ [full_path] else dirty_paths)
    acc P = acc ++ filter (is_dirty A) P.
Proof.
  revert acc. induction P as [|p P IH]; intros acc; simpl.
  - by rewrite app_nil_r.
  - rewrite IH. unfold filter at 2. cbn [list_filter]. fold (filter (is_dirty A) P).
    unfold is_dirty at 2. cbv zeta.
    destruct (decide (extract_uuid_from_path p ∉ A)); [|done].
    by rewrite <- app_assoc.
Qed.

Lemma find_dirty_data_prefixes_filter P A :
  fst (find_dirty_data_prefixes P A) = filter (is_dirty A) P.
Proof. unfold find_dirty_data_prefixes. simpl. by rewrite find_dirty_foldl. Qed.

Lemma main_output_dirty_paths P S A :
  dirty_paths (main_output P S A) = sorted (filter (is_dirty A) P).
Proof.
  unfold main_output.
  pose proof (find_dirty_data_prefixes_filter P A) as Hf.
  destruct (find_dirty_data_prefixes P A) as [dp ds]. simpl in Hf. subst dp.
  by repeat case_decide.
Qed.

End Resolver.

Section ResolverClaims.
Import PyStr get_final_dirty_data_prefix.
Import get_final_dirty_backup_prefix.

(** C7. Identifier extraction returns the final '/'-delimited segment of
    the path: the last element of the split, which contains no '/' and is
    what follows the last '/' of the path.  A path without '/' is returned
    whole.  Both resolvers extract the same way, and the three sample
    paths give "leaf", "leaf" and "onlyone". *)
Theorem extract_uuid_final_segment :
  (forall p, last (split "/" p) = Some (extract_uuid_from_path p)) /\
  (forall p, contains "/" (extract_uuid_from_path p) = false) /\
  (forall p, contains "/" p = true ->
             exists pre, p = pre +:+ "/" +:+ extract_uuid_from_path p) /\
  (forall p, contains "/" p = false -> extract_uuid_from_path p = p) /\
  (forall p, extract_next_level_uuid_from_path p = extract_uuid_from_path p) /\
  extract_uuid_from_path "top/leaf" = "leaf" /\
  extract_uuid_from_path "top/mid/leaf" = "leaf" /\
  extract_uuid_from_path "onlyone" = "onlyone".
Proof.
  assert (Hlast : forall p, last (split "/" p) = Some (extract_uuid_from_path p)).
  { intros p. unfold extract_uuid_from_path.
    pose proof (split_nonempty "/" p) as Hne.
    pose proof (split_singleton "/" p) as Hone.
    destruct (split "/" p) as [|w ws] eqn:E; [done|].
    case_decide as Hlen.
    - destruct (last (w :: ws)) eqn:El; [done|].
      by apply last_None in El.
    - destruct ws; [|simpl in Hlen; lia].
      simpl. f_equal. by apply Hone. }
  split; [done|]. split; [|split; [|split; [|split]]].
  - intros p. specialize (Hlast p).
    pose proof (split_segments_no_sep "/" p) as Hseg.
    rewrite Forall_forall in Hseg. apply Hseg.
    apply last_Some in Hlast as [l' ->]. set_solver.
  - intros p Hp. destruct (split_last_suffix "/" p _ Hp (Hlast p)) as [pre Hpre].
    exists pre. exact Hpre.
  - intros p Hp. specialize (Hlast p). rewrite (split_no_sep _ _ Hp) in Hlast.
    change (last [p]) with (Some p) in Hlast. by injection Hlast.
  - done.
  - by vm_compute.
Qed.

Lemma extract_uuid_final_segment_witness :
  contains "/" "onlyone" = false /\ extract_uuid_from_path "onlyone" = "onlyone".
Proof.
  split; [reflexivity|].
  apply (proj1 (proj2 (proj2 (proj2 extract_uuid_final_segment)))).
  reflexivity.
Defined.

(** C8, as the code has it. Allow-list loading yields a set, so repeated
    identifiers count once.  Every line is first trimmed of surrounding
    whitespace; a line that is empty after trimming is skipped; if the
    trimmed line starts with 'ch-s3-' exactly that leading literal is
    removed, otherwise the trimmed line is loaded as it is.  A line
    'ch-s3-abc123' loads as 'abc123'.  Both resolvers load the same way.
    Trimming removes a run of whitespace characters at either end, of
    whatever length in UTF-8, and leaves a line that neither starts nor ends
    with one.  Lines end at a newline, at a carriage return or at the two
    together.  A file that is not well-formed UTF-8 loads nothing: the
    decoder raises. *)
Theorem load_non_terminated_uuids_trimmed :
  (forall content u,
      u ∈ get_final_dirty_data_prefix.load_non_terminated_uuids content <->
      exists line, line ∈ readlines content /\ loaded_from line = Some u) /\
  (forall line, strip line = EmptyString -> loaded_from line = None) /\
  (forall line rest, strip line = "ch-s3-" +:+ rest ->
                     loaded_from line = Some rest) /\
  (forall line, strip line <> EmptyString ->
                startswith "ch-s3-" (strip line) = false ->
                loaded_from line = Some (strip line)) /\
  get_final_dirty_data_prefix.load_non_terminated_uuids ("ch-s3-abc123" +:+ nl)
    = {[ "abc123" ]} /\
  get_final_dirty_data_prefix.load_non_terminated_uuids
      ("x" +:+ nl +:+ nl +:+ "ch-s3-x" +:+ nl +:+ "x") = {[ "x" ]} /\
  (forall content,
      get_final_dirty_backup_prefix.load_non_terminated_uuids content =
      get_final_dirty_data_prefix.load_non_terminated_uuids content) /\
  (forall line, exists l r,
      line = l +:+ strip line +:+ r /\ spaces l /\ spaces r /\
      drop_space_left (strip line) = None /\
      drop_space_right (strip line) = None) /\
  (forall raw,
      (get_final_dirty_data_prefix.load_non_terminated_uuids_file raw = None <->
       utf8_valid raw = false) /\
      (forall loaded,
         get_final_dirty_data_prefix.load_non_terminated_uuids_file raw
           = Some loaded ->
         forall u, u ∈ loaded <->
           exists line, line ∈ readlines raw /\ loaded_from line = Some u) /\
      get_final_dirty_backup_prefix.load_non_terminated_uuids_file raw =
      get_final_dirty_data_prefix.load_non_terminated_uuids_file raw) /\
  get_final_dirty_data_prefix.load_non_terminated_uuids_file
      (bytes [97; 255; 10]%N) = None /\
  get_final_dirty_data_prefix.load_non_terminated_uuids
      ("a" +:+ bytes [13]%N +:+ "b" +:+ nl) = {[ "a"; "b" ]} /\
  get_final_dirty_data_prefix.load_non_terminated_uuids
      ("a" +:+ bytes [13; 10]%N +:+ "ch-s3-b") = {[ "a"; "b" ]} /\
  get_final_dirty_data_prefix.load_non_terminated_uuids
      (bytes [194; 160]%N +:+ "abc" +:+ bytes [227; 128; 128; 9]%N +:+ nl)
    = {[ "abc" ]}.
Proof.
  assert (Hload : forall content u,
      u ∈ get_final_dirty_data_prefix.load_non_terminated_uuids content <->
      exists line, line ∈ readlines content /\ loaded_from line = Some u).
  { intros content u.
    unfold get_final_dirty_data_prefix.load_non_terminated_uuids.
    rewrite load_step_elem. split.
    - intros [H|H]; [by apply not_elem_of_empty in H|done].
    - by right. }
  split; [|split; [|split; [|split; [|split; [|split; [|split;
    [|split; [|split; [|split; [|split; [|split]]]]]]]]]]].
  8: apply strip_spec.
  8: { intros raw.
       unfold get_final_dirty_data_prefix.load_non_terminated_uuids_file.
       split; [|split].
       - by destruct (utf8_valid raw).
       - destruct (utf8_valid raw); [|done]. intros loaded [= <-]. apply Hload.
       - done. }
  8-11: by vm_compute.
  - apply Hload.
  - intros line H. unfold loaded_from. cbv zeta. by rewrite decide_True.
  - intros line rest H. unfold loaded_from. cbv zeta. rewrite H.
    rewrite decide_False by done.
    assert (Hp : startswith "ch-s3-" ("ch-s3-" +:+ rest) = true).
    { change ("ch-s3-" +:+ rest) with
        (String "c" (String "h" (String "-" (String "s" (String "3"
           (String "-" rest)))))).
      unfold startswith. cbn. by destruct rest. }
    by rewrite Hp.
  - intros line Hne Hp. unfold loaded_from. cbv zeta.
    rewrite decide_False by done. by rewrite Hp.
  - by vm_compute.
  - by vm_compute.
  - done.
Qed.

Lemma load_non_terminated_uuids_trimmed_witness :
  strip ("ch-s3-abc123" +:+ nl) = "ch-s3-" +:+ "abc123" /\
  loaded_from ("ch-s3-abc123" +:+ nl) = Some "abc123".
Proof.
  split; [reflexivity|].
  apply (proj1 (proj2 (proj2 load_non_terminated_uuids_trimmed))).
  reflexivity.
Defined.

(** C8 as stated fails: the line " abc" does not carry the literal and is
    not blank, yet it is loaded as "abc", not unchanged. *)
Lemma load_line_not_unchanged :
  startswith "ch-s3-" " abc" = false /\
  strip " abc" <> EmptyString /\
  get_final_dirty_data_prefix.load_non_terminated_uuids (" abc" +:+ nl)
    = {[ "abc" ]} /\
  " abc" ∉ get_final_dirty_data_prefix.load_non_terminated_uuids (" abc" +:+ nl).
Proof.
  split; [reflexivity|]. split; [by vm_compute|]. split; [by vm_compute|].
  assert (H : bool_decide
                (" abc" ∈ get_final_dirty_data_prefix.load_non_terminated_uuids
                            (" abc" +:+ nl)) = false) by by vm_compute.
  by apply bool_decide_eq_false in H.
Qed.

(** C1, as the code has it. For every list of discovered paths P and
    allow-list A, [dirty_paths] is the lexicographically sorted arrangement
    of the dirty paths of P, each as often as it occurs in P: nothing is
    deduplicated.  Its members are exactly the paths of P whose identifier
    is not in A, and it has no duplicates when P has none.  Only
    membership in A decides; the size map plays no part. *)
Theorem dirty_paths_sorted_filter (P : list string) (S : gmap string Z)
    (A : gset string) :
  let out := dirty_paths (main_output P S A) in
  Sorted String.le out /\
  out ≡ₚ filter (is_dirty A) P /\
  (forall l, Sorted String.le l -> l ≡ₚ filter (is_dirty A) P -> l = out) /\
  (forall p, p ∈ out <-> p ∈ P /\ extract_uuid_from_path p ∉ A) /\
  (NoDup P -> NoDup out) /\
  out = get_final_dirty_backup_prefix.main_dirty_paths P A.
Proof.
  cbv zeta. rewrite main_output_dirty_paths.
  split; [apply sorted_Sorted|]. split; [apply sorted_Permutation|].
  split; [intros l; apply sorted_unique|]. split; [|split].
  - intros p. rewrite sorted_Permutation, list_elem_of_filter.
    unfold is_dirty. tauto.
  - intros Hnd. rewrite sorted_Permutation. by apply NoDup_filter.
  - unfold main_dirty_paths, find_dirty_backup_prefixes. cbn [fst].
    change extract_next_level_uuid_from_path with extract_uuid_from_path.
    by rewrite find_dirty_foldl.
Qed.

Lemma dirty_paths_sorted_filter_witness :
  NoDup ["b/2"; "a/1"; "a/3"] /\
  NoDup (dirty_paths (main_output ["b/2"; "a/1"; "a/3"] ∅ {[ "1" ]})).
Proof.
  assert (Hnd : NoDup ["b/2"; "a/1"; "a/3"]).
  { assert (H : bool_decide (NoDup ["b/2"; "a/1"; "a/3"]) = true) by by vm_compute.
    by apply bool_decide_eq_true in H. }
  split; [exact Hnd|].
  apply (dirty_paths_sorted_filter ["b/2"; "a/1"; "a/3"] ∅ {[ "1" ]}).
  exact Hnd.
Defined.

(** C1 as stated fails: a path listed twice in P is written twice, so the
    output is not deduplicated. *)
Lemma dirty_paths_keeps_duplicates :
  dirty_paths (main_output ["a/x"; "a/x"] ∅ ∅) = ["a/x"; "a/x"] /\
  ~ NoDup (dirty_paths (main_output ["a/x"; "a/x"] ∅ ∅)).
Proof.
  assert (E : dirty_paths (main_output ["a/x"; "a/x"] ∅ ∅) = ["a/x"; "a/x"])
    by by vm_compute.
  split; [exact E|]. rewrite E. intros Hnd.
  apply NoDup_cons in Hnd as [Hnotin _]. apply Hnotin. by left.
Qed.

End ResolverClaims.

(** ** The deletion engine: chunking *)

Section Chunking.
Import delete_prefixes.

Lemma range_from_seq (n start stop : nat) :
  (stop - start <= n)%nat ->
  range_from n start stop 1000 =
  (fun j => (start + j * 1000)%nat) <$> seq 0 ((stop - start + 999) / 1000).
Proof.
  revert start. induction n as [|n IH]; intros start Hn.
  - replace ((stop - start + 999) / 1000)%nat with 0%nat; [done|].
    symmetry. apply Nat.div_small. lia.
  - cbn [range_from]. case_decide as Hlt.
    + rewrite IH by lia.
      replace ((stop - start + 999) / 1000)%nat
        with (S ((stop - (start + 1000) + 999) / 1000)).
      * cbn [seq fmap list_fmap]. f_equal; [lia|].
        rewrite <- fmap_S_seq, <- list_fmap_compose.
        apply list_fmap_ext. intros _ j _. simpl. lia.
      * pose proof (Nat.div_mod_eq (stop - start + 999) 1000) as E1.
        pose proof (Nat.mod_upper_bound (stop - start + 999) 1000) as B1.
        pose proof (Nat.div_mod_eq (stop - (start + 1000) + 999) 1000) as E2.
        pose proof (Nat.mod_upper_bound (stop - (start + 1000) + 999) 1000) as B2.
        lia.
    + replace ((stop - start + 999) / 1000)%nat with 0%nat; [done|].
      symmetry. apply Nat.div_small. lia.
Qed.

Lemma batches_seq (keys : list string) :
  batches keys =
  (fun j => take 1000 (drop (j * 1000) keys)) <$> seq 0 ((length keys + 999) / 1000).
Proof.
  unfold batches, range. rewrite range_from_seq by lia.
  rewrite <- list_fmap_compose. rewrite Nat.sub_0_r.
  apply list_fmap_ext. intros _ j _. simpl. unfold slice. f_equal. lia.
Qed.

Lemma batches_length (keys : list string) :
  length (batches keys) = ((length keys + 999) / 1000)%nat.
Proof. by rewrite batches_seq, length_fmap, length_seq. Qed.

Lemma batches_lookup (keys : list string) i b :
  batches keys !! i = Some b ->
  (i < length (batches keys))%nat /\ b = take 1000 (drop (i * 1000) keys).
Proof.
  intros H. split; [by eapply lookup_lt_Some|].
  rewrite batches_seq in H. apply list_lookup_fmap_Some in H as (j & -> & Hj).
  apply lookup_seq in Hj as [-> _]. done.
Qed.

(** Sizes: every batch but the last has 1000 keys; the last has what is
    left, which is [K mod 1000], or 1000 when that is 0. *)
Lemma batches_sizes (keys : list string) i b :
  batches keys !! i = Some b ->
  length b =
  if decide (S i < length (batches keys))%nat then 1000%nat
  else if decide (length keys mod 1000 = 0)%nat then 1000%nat
       else (length keys mod 1000)%nat.
Proof.
  intros H. apply batches_lookup in H as [Hi ->].
  rewrite batches_length in *. rewrite length_take, length_drop.
  pose proof (Nat.div_mod_eq (length keys + 999) 1000) as E1.
  pose proof (Nat.mod_upper_bound (length keys + 999) 1000) as B1.
  pose proof (Nat.div_mod_eq (length keys) 1000) as E2.
  pose proof (Nat.mod_upper_bound (length keys) 1000) as B2.
  repeat case_decide; nia.
Qed.

Lemma batches_bounds (keys : list string) :
  Forall (fun b => 1 <= length b <= 1000)%nat (batches keys).
Proof.
  apply Forall_lookup. intros i b H.
  pose proof (batches_sizes keys i b H) as Hs.
  pose proof (Nat.mod_upper_bound (length keys) 1000).
  repeat case_decide; lia.
Qed.

Lemma batches_concat_from (keys : list string) n start :
  (length keys - start <= n)%nat ->
  concat ((fun i => slice keys i (i + 1000)) <$> range_from n start (length keys) 1000)
  = drop start keys.
Proof.
  revert start. induction n as [|n IH]; intros start Hn.
  - simpl. symmetry. apply drop_ge. lia.
  - cbn [range_from]. case_decide as Hlt.
    + cbn [fmap list_fmap concat]. rewrite IH by lia.
      unfold slice. replace (start + 1000 - start)%nat with 1000%nat by lia.
      rewrite <- (drop_drop keys 1000 start)
        || rewrite (Nat.add_comm start 1000), <- drop_drop.
      apply take_drop.
    + simpl. symmetry. apply drop_ge. lia.
Qed.

Lemma batches_concat (keys : list string) : concat (batches keys) = keys.
Proof. unfold batches, range. by rewrite batches_concat_from by lia. Qed.

Lemma batches_nil : batches [] = [].
Proof. reflexivity. Qed.

End Chunking.

(** ** The deletion engine: one prefix *)

Section Engine.
Import Py utils delete_prefixes.
Local Open Scope py_scope.
Context {World : Type}.
Variable s3_client : S3Client World.
Variable list_all_objects_impl : string -> string -> World -> list string * World.
Variable read_json : string -> FileResult.
Variable write_json : string -> option string.

Local Abbreviation delete_objects_batch :=
  (delete_prefixes.delete_objects_batch s3_client).
Local Abbreviation delete_prefix :=
  (delete_prefixes.delete_prefix s3_client list_all_objects_impl).
Local Abbreviation run_deletes := (delete_prefixes.run_deletes s3_client).

Lemma advance_nil (st : State World) : advance (world st) [] st = st.
Proof. destruct st. unfold advance. simpl. by rewrite app_nil_r. Qed.

Lemma advance_advance (w1 w2 : World) cs1 cs2 (st : State World) :
  advance w2 cs2 (advance w1 cs1 st) = advance w2 (cs1 ++ cs2) st.
Proof. unfold advance. simpl. by rewrite app_assoc. Qed.

Lemma for_each_fmap {X Y S} (f : X -> Y) (l : list X)
    (body : Y -> S -> M World S) (s : S) (st : State World) :
  for_each (f <$> l) body s st = for_each l (fun x => body (f x)) s st.
Proof.
  revert s st. induction l as [|x l IH]; intros s st; [done|].
  cbn [fmap list_fmap for_each]. unfold bind.
  destruct (body (f x) s st) as [[a|e] st']; [apply IH|done].
Qed.

(** One bulk-delete call for a batch within the limit: the counts and the
    error strings are read off the store's answer, whatever it is. *)
Lemma delete_objects_batch_call bucket keys (st : State World) :
  keys <> [] -> (length keys <= 1000)%nat ->
  delete_objects_batch bucket keys st =
  (Ret (success_count (fst (s3_delete_objects s3_client bucket keys (world st))),
        error_strings (fst (s3_delete_objects s3_client bucket keys (world st)))),
   advance (snd (s3_delete_objects s3_client bucket keys (world st)))
           [DeleteObjects bucket keys] st).
Proof.
  intros Hne Hlen. unfold delete_prefixes.delete_objects_batch.
  rewrite decide_False by done. rewrite decide_False by lia.
  unfold try_except, bind, delete_objects.
  destruct (s3_delete_objects s3_client bucket keys (world st)) as [[resp|msg|msg] w];
    reflexivity.
Qed.

Lemma delete_objects_batch_too_many bucket keys (st : State World) :
  (1000 < length keys)%nat ->
  exists msg, delete_objects_batch bucket keys st = (Raise (ValueError msg), st).
Proof.
  intros Hlen. unfold delete_prefixes.delete_objects_batch.
  rewrite decide_False by (intros ->; simpl in Hlen; lia).
  rewrite decide_True by done. eexists. reflexivity.
Qed.

Lemma run_deletes_length bucket bs w :
  length (fst (run_deletes bucket bs w)) = length bs.
Proof.
  revert w. induction bs as [|b bs IH]; intros w; [done|].
  cbn [delete_prefixes.run_deletes].
  destruct (s3_delete_objects s3_client bucket b w) as [r w1].
  specialize (IH w1). destruct (run_deletes bucket bs w1) as [rs w2].
  simpl in *. by rewrite IH.
Qed.

(** The loop of [delete_prefix] over batches within the limit. *)
Lemma delete_loop bucket (bs : list (list string)) (acc : nat * list string)
    (st : State World) :
  Forall (fun b => 1 <= length b <= 1000)%nat bs ->
  for_each bs
    (fun batch (acc : nat * list string) =>
       let '(deleted_count, all_errors) := acc in
       r <- delete_objects_batch bucket batch ;;
       let '(deleted, errors) := r in
       ret ((deleted_count + deleted)%nat, all_errors ++ errors))
    acc st =
  (Ret ((fst acc + sum_list (success_count <$> fst (run_deletes bucket bs (world st))))%nat,
        snd acc ++ concat (error_strings <$> fst (run_deletes bucket bs (world st)))),
   advance (snd (run_deletes bucket bs (world st))) (DeleteObjects bucket <$> bs) st).
Proof.
  intros HF. revert acc st.
  induction HF as [|b bs [Hb1 Hb2] HF IH]; intros [d e] st.
  - simpl. unfold ret. rewrite advance_nil, Nat.add_0_r, app_nil_r. done.
  - cbn [for_each]. unfold bind at 1. unfold bind at 1.
    rewrite delete_objects_batch_call by (try done; intros ->; simpl in Hb1; lia).
    unfold ret at 1. rewrite IH. cbn [delete_prefixes.run_deletes].
    destruct (s3_delete_objects s3_client bucket b (world st)) as [r w1].
    cbn [fst snd advance world].
    destruct (run_deletes bucket bs w1) as [rs w2].
    cbn [fst snd fmap list_fmap sum_list concat].
    rewrite advance_advance. f_equal. unfold id. rewrite <- app_assoc.
    do 2 f_equal. lia.
Qed.


Lemma delete_prefix_loop bucket (keys : list string) (st : State World) :
  for_each (range 0 (length keys) batch_size)
    (fun i (acc : nat * list string) =>
       let '(deleted_count, all_errors) := acc in
       let batch := slice keys i (i + batch_size) in
       r <- delete_objects_batch bucket batch ;;
       let '(deleted, errors) := r in
       ret ((deleted_count + deleted)%nat, all_errors ++ errors))
    (0%nat, []) st =
  (Ret (sum_list (success_count <$> fst (run_deletes bucket (batches keys) (world st))),
        concat (error_strings <$> fst (run_deletes bucket (batches keys) (world st)))),
   advance (snd (run_deletes bucket (batches keys) (world st)))
           (DeleteObjects bucket <$> batches keys) st).
Proof.
  pose proof (delete_loop bucket (batches keys) (0%nat, []) st (batches_bounds keys))
    as E.
  unfold batches at 1 in E. rewrite for_each_fmap in E. exact E.
Qed.

(** [delete_prefix] without [dry_run]: one equation for every key list
    (for an empty listing there is no batch). *)
Lemma delete_prefix_live bucket prefix (st : State World) :
  let keys := fst (list_all_objects_impl bucket prefix (world st)) in
  let w1 := snd (list_all_objects_impl bucket prefix (world st)) in
  delete_prefix bucket prefix false st =
  (Ret (length keys,
        sum_list (success_count <$> fst (run_deletes bucket (batches keys) w1)),
        concat (error_strings <$> fst (run_deletes bucket (batches keys) w1))),
   advance (snd (run_deletes bucket (batches keys) w1))
           (ListAllObjects bucket prefix :: (DeleteObjects bucket <$> batches keys))
           st).
Proof.
  cbv zeta. unfold delete_prefixes.delete_prefix, list_all_objects.
  unfold bind at 1.
  destruct (list_all_objects_impl bucket prefix (world st)) as [keys w1].
  cbn [fst snd]. case_decide as Hz.
  - apply length_zero_iff_nil in Hz. subst keys. reflexivity.
  - pose proof (delete_prefix_loop bucket keys
                  (set_world w1 (add_call (ListAllObjects bucket prefix) st))) as E.
    cbv zeta in E. unfold bind at 1. rewrite E. clear E.
    cbn [world set_world]. unfold ret.
    change (set_world w1 (add_call (ListAllObjects bucket prefix) st))
      with (advance w1 [ListAllObjects bucket prefix] st).
    by rewrite advance_advance.
Qed.

Lemma delete_prefix_dry bucket prefix (st : State World) :
  delete_prefix bucket prefix true st =
  (Ret (length (fst (list_all_objects_impl bucket prefix (world st))), 0%nat, []),
   advance (snd (list_all_objects_impl bucket prefix (world st)))
           [ListAllObjects bucket prefix] st).
Proof.
  unfold delete_prefixes.delete_prefix, list_all_objects. unfold bind.
  destruct (list_all_objects_impl bucket prefix (world st)) as [keys w1].
  cbn [fst snd]. case_decide as Hz; [|reflexivity].
  rewrite Hz. reflexivity.
Qed.

Lemma mutations_app cs1 cs2 : mutations (cs1 ++ cs2) = mutations cs1 ++ mutations cs2.
Proof. apply filter_app. Qed.

Lemma mutations_deletes bucket (bs : list (list string)) :
  mutations (DeleteObjects bucket <$> bs) = DeleteObjects bucket <$> bs.
Proof.
  unfold mutations. induction bs as [|b bs IH]; [done|].
  cbn [fmap list_fmap]. rewrite filter_cons_True by done. by f_equal.
Qed.

(** C2. For every prefix and every store, [delete_prefix] in dry-run mode
    returns the number of listed keys, 0 deleted and no error; the only
    call it makes is the listing, so no bulk delete is issued; the store is
    the one the listing left, hence unchanged in whatever the listing
    leaves unchanged.  Console and input are untouched. *)
Theorem delete_prefix_dry_run_no_delete bucket prefix (st : State World) :
  let keys := fst (list_all_objects_impl bucket prefix (world st)) in
  let w1 := snd (list_all_objects_impl bucket prefix (world st)) in
  let o := fst (delete_prefix bucket prefix true st) in
  let st' := snd (delete_prefix bucket prefix true st) in
  o = Ret (length keys, 0%nat, []) /\
  calls st' = calls st ++ [ListAllObjects bucket prefix] /\
  mutations (calls st') = mutations (calls st) /\
  world st' = w1 /\
  stdout st' = stdout st /\ stdin st' = stdin st /\
  (forall (C : Type) (contents : World -> C),
      (forall b p w, contents (snd (list_all_objects_impl b p w)) = contents w) ->
      contents (world st') = contents (world st)).
Proof.
  cbv zeta. rewrite delete_prefix_dry. cbn [fst snd advance world calls stdout stdin].
  repeat split.
  - rewrite mutations_app. cbn. by rewrite app_nil_r.
  - intros C contents H. apply H.
Qed.

Lemma delete_prefix_returns bucket prefix dry (st : State World) :
  exists r w cs,
    delete_prefix bucket prefix dry st = (Ret r, advance w cs st) /\
    (dry = true -> snd r = [] /\ mutations cs = []).
Proof.
  destruct dry.
  - rewrite delete_prefix_dry. do 3 eexists. split; [reflexivity|]. done.
  - pose proof (delete_prefix_live bucket prefix st) as E. cbv zeta in E.
    rewrite E. do 3 eexists. split; [reflexivity|]. done.
Qed.

(** C9. [delete_objects_batch] raises [ValueError], without calling the
    store, when it is given more than 1000 keys.  The loop of
    [delete_prefix] is a loop over the batches of the listed keys, each of
    which has between 1 and 1000 keys; so [delete_prefix] never raises,
    and every bulk-delete call it makes carries at most 1000 keys. *)
Theorem delete_prefix_batches_within_limit :
  (forall bucket keys (st : State World),
      (1000 < length keys)%nat ->
      exists msg, delete_objects_batch bucket keys st = (Raise (ValueError msg), st)) /\
  (forall bucket (keys : list string) (st : State World),
      for_each (range 0 (length keys) batch_size)
        (fun i (acc : nat * list string) =>
           let '(deleted_count, all_errors) := acc in
           let batch := slice keys i (i + batch_size) in
           r <- delete_objects_batch bucket batch ;;
           let '(deleted, errors) := r in
           ret ((deleted_count + deleted)%nat, all_errors ++ errors))
        (0%nat, []) st =
      for_each (batches keys)
        (fun batch (acc : nat * list string) =>
           let '(deleted_count, all_errors) := acc in
           r <- delete_objects_batch bucket batch ;;
           let '(deleted, errors) := r in
           ret ((deleted_count + deleted)%nat, all_errors ++ errors))
        (0%nat, []) st) /\
  (forall keys : list string,
      Forall (fun b => 1 <= length b <= 1000)%nat (batches keys)) /\
  (forall bucket prefix dry (st : State World),
      exists r, fst (delete_prefix bucket prefix dry st) = Ret r) /\
  (forall bucket prefix dry (st : State World) c,
      c ∈ mutations (calls (snd (delete_prefix bucket prefix dry st))) ->
      c ∈ mutations (calls st) \/
      exists b, c = DeleteObjects bucket b /\ (1 <= length b <= 1000)%nat).
Proof.
  split; [apply delete_objects_batch_too_many|].
  split; [|split; [apply batches_bounds|split]].
  - intros bucket keys st. unfold batches. by rewrite for_each_fmap.
  - intros bucket prefix dry st.
    destruct (delete_prefix_returns bucket prefix dry st) as (r & w & cs & E & _).
    exists r. by rewrite E.
  - intros bucket prefix dry st c. destruct dry.
    + rewrite delete_prefix_dry. cbn [snd advance calls].
      rewrite mutations_app. cbn. rewrite app_nil_r. by left.
    + pose proof (delete_prefix_live bucket prefix st) as E. cbv zeta in E.
      rewrite E. clear E. cbn [snd advance calls].
      rewrite mutations_app.
      change (ListAllObjects bucket prefix :: ?l)
        with ([ListAllObjects bucket prefix] ++ l).
      rewrite mutations_app, mutations_deletes.
      intros [Hc|[Hc|Hc]%elem_of_app]%elem_of_app; [by left| |].
      * by apply elem_of_nil in Hc.
      * right. apply list_elem_of_fmap in Hc as (b & -> & Hb).
        exists b. split; [done|].
        pose proof (batches_bounds
                      (list_all_objects_impl bucket prefix (world st)).1) as HF.
        rewrite Forall_forall in HF. by apply HF.
Qed.

(** *** The confirmation prompt *)

Lemma emit_emit os1 os2 (st : State World) :
  emit os2 (emit os1 st) = emit (os1 ++ os2) st.
Proof. unfold emit. simpl. by rewrite app_assoc. Qed.

Lemma add_out_emit o (st : State World) : add_out o st = emit [o] st.
Proof. reflexivity. Qed.

(** Console output is compared as one [emit] of everything written. *)
Ltac emit_norm :=
  cbn [fst snd];
  repeat (rewrite ?add_out_emit, ?emit_emit; cbn [app]).

Lemma recognized_dec line : {recognized line} + {~ recognized line}.
Proof.
  unfold recognized.
  destruct (decide (response_of line = "yes")); [by left; left|].
  destruct (decide (response_of line = "no")); [by left; right|].
  right. intros [?|?]; done.
Qed.

(** Unrecognized answers, then a recognized one: each unrecognized answer
    costs one prompt and one re-prompt message, and the recognized answer
    decides. *)
Lemma get_confirmation_loop_answer bad answer rest (st : State World) :
  Forall (fun l => ~ recognized l) bad -> recognized answer ->
  get_confirmation_loop (bad ++ answer :: rest) st =
  (Ret (bool_decide (response_of answer = "yes")),
   set_stdin rest (emit (reprompts bad ++ [Prompt prompt_text]) st)).
Proof.
  intros Hbad Hans. revert st.
  induction Hbad as [|l bad Hl Hbad IH]; intros st.
  - cbn [app get_confirmation_loop]. fold (response_of answer).
    destruct Hans as [Hy|Hn].
    + rewrite decide_True by done. by rewrite bool_decide_eq_true_2.
    + rewrite decide_False by (rewrite Hn; done).
      rewrite decide_True by done. rewrite bool_decide_eq_false_2; [done|].
      by rewrite Hn.
  - cbn [app get_confirmation_loop]. fold (response_of l).
    rewrite decide_False by (intros ?; apply Hl; by left).
    rewrite decide_False by (intros ?; apply Hl; by right).
    rewrite IH. f_equal. unfold set_stdin, emit, add_out, reprompts. simpl.
    f_equal. rewrite <- !app_assoc. done.
Qed.

(** Unrecognized answers up to the end of input: [EOFError]. *)
Lemma get_confirmation_loop_eof bad (st : State World) :
  Forall (fun l => ~ recognized l) bad ->
  get_confirmation_loop bad st =
  (Raise EOFError, set_stdin [] (emit (reprompts bad ++ [Prompt prompt_text]) st)).
Proof.
  intros Hbad. revert st.
  induction Hbad as [|l bad Hl Hbad IH]; intros st; [done|].
  cbn [get_confirmation_loop]. fold (response_of l).
  rewrite decide_False by (intros ?; apply Hl; by left).
  rewrite decide_False by (intros ?; apply Hl; by right).
  rewrite IH. f_equal. unfold set_stdin, emit, add_out, reprompts. simpl.
  f_equal. rewrite <- !app_assoc. done.
Qed.

(** Every input is of one of the two shapes. *)
Lemma stdin_shape (lines : list string) :
  (exists bad answer rest,
      lines = bad ++ answer :: rest /\
      Forall (fun l => ~ recognized l) bad /\ recognized answer) \/
  Forall (fun l => ~ recognized l) lines.
Proof.
  induction lines as [|l lines IH]; [by right|].
  destruct (recognized_dec l) as [Hl|Hl].
  - left. exists [], l, lines. by repeat split.
  - destruct IH as [(bad & answer & rest & -> & Hbad & Hans)|Hall].
    + left. exists (l :: bad), answer, rest. repeat split; [|done]. by constructor.
    + right. by constructor.
Qed.

Lemma get_confirmation_loop_frame lines (st : State World) :
  calls (snd (get_confirmation_loop lines st)) = calls st /\
  world (snd (get_confirmation_loop lines st)) = world st.
Proof.
  destruct (stdin_shape lines) as [(bad & answer & rest & -> & Hbad & Hans)|Hall].
  - by rewrite get_confirmation_loop_answer.
  - by rewrite get_confirmation_loop_eof.
Qed.

Lemma get_confirmation_loop_true lines (st st1 : State World) :
  get_confirmation_loop lines st = (Ret true, st1) ->
  exists bad answer rest,
    lines = bad ++ answer :: rest /\
    Forall (fun l => ~ recognized l) bad /\ response_of answer = "yes".
Proof.
  intros E.
  destruct (stdin_shape lines) as [(bad & answer & rest & -> & Hbad & Hans)|Hall].
  - rewrite get_confirmation_loop_answer in E by done.
    exists bad, answer, rest. split; [done|]. split; [done|].
    injection E as Hb Hst. by apply bool_decide_eq_true in Hb.
  - by rewrite get_confirmation_loop_eof in E.
Qed.

(** *** [main] *)

Local Abbreviation load_dirty_paths :=
  (delete_prefixes.load_dirty_paths (World := World) read_json).
Local Abbreviation main_prologue :=
  (delete_prefixes.main_prologue (World := World) read_json).
Local Abbreviation main_processing :=
  (delete_prefixes.main_processing s3_client list_all_objects_impl write_json).
Local Abbreviation main_report :=
  (delete_prefixes.main_report (World := World) write_json).
Local Abbreviation delete_prefixes_concurrent :=
  (delete_prefixes.delete_prefixes_concurrent s3_client list_all_objects_impl).
Local Abbreviation main :=
  (delete_prefixes.main s3_client list_all_objects_impl read_json write_json).
Local Abbreviation log_fails := (delete_prefixes.log_fails write_json).
Local Abbreviation log_calls := (delete_prefixes.log_calls write_json).

Local Abbreviation load_dirty_paths_result :=
  (delete_prefixes.load_dirty_paths_result read_json).

Lemma load_dirty_paths_pure filename (st : State World) :
  load_dirty_paths filename st = (load_dirty_paths_result filename, st).
Proof.
  unfold delete_prefixes.load_dirty_paths, delete_prefixes.load_dirty_paths_result, bind.
  destruct (read_json filename) as [[dp sz|t]|msg]; try reflexivity.
  destruct (default (PathsList []) dp); reflexivity.
Qed.

Lemma load_dirty_paths_raises filename e :
  load_dirty_paths_result filename = Raise e -> is_Exception e = true.
Proof.
  unfold delete_prefixes.load_dirty_paths_result.
  destruct (read_json filename) as [[dp sz|t]|msg]; try by intros [= <-].
  destruct (default (PathsList []) dp); try done. by intros [= <-].
Qed.

Lemma main_prologue_load_fails args (st : State World) e :
  load_dirty_paths_result (input args) = Raise e ->
  main_prologue args st =
  (Raise (SystemExit 1),
   emit [loading_line (input args);
         Print ("Error loading input file: " +:+ exn_str e)] st).
Proof.
  intros Hl. unfold delete_prefixes.main_prologue.
  unfold bind at 1. unfold out at 1. unfold bind at 1. unfold try_except.
  rewrite load_dirty_paths_pure, Hl, (load_dirty_paths_raises _ _ Hl).
  unfold bind, out, sys_exit, raise. by emit_norm.
Qed.

Lemma main_prologue_empty args (st : State World) sizes :
  load_dirty_paths_result (input args) = Ret ([], sizes) ->
  main_prologue args st =
  (Raise (SystemExit 0), emit [loading_line (input args); nothing_line] st).
Proof.
  intros Hl. unfold delete_prefixes.main_prologue.
  unfold bind at 1. unfold out at 1. unfold bind at 1. unfold try_except.
  rewrite load_dirty_paths_pure, Hl. rewrite decide_True by done.
  unfold bind, out, sys_exit, raise. by emit_norm.
Qed.

Lemma main_prologue_dry args (st : State World) paths sizes :
  load_dirty_paths_result (input args) = Ret (paths, sizes) -> paths <> [] ->
  dry_run args = true ->
  main_prologue args st =
  (Ret (paths, sizes),
   emit (loading_line (input args)
         :: summary_lines (bucket_name args) true paths sizes) st).
Proof.
  intros Hl Hne Hdry. unfold delete_prefixes.main_prologue.
  unfold bind at 1. unfold out at 1. unfold bind at 1. unfold try_except.
  rewrite load_dirty_paths_pure, Hl. rewrite decide_False by done.
  rewrite Hdry. unfold bind, out, display_summary, ret, out. by emit_norm.
Qed.

Lemma main_prologue_live args (st : State World) paths sizes :
  load_dirty_paths_result (input args) = Ret (paths, sizes) -> paths <> [] ->
  dry_run args = false ->
  main_prologue args st =
  match get_confirmation_loop (stdin st)
          (emit (loading_line (input args)
                 :: summary_lines (bucket_name args) false paths sizes
                 ++ [Print warning_text; Print undone_text]) st) with
  | (Ret true, st1) => (Ret (paths, sizes), st1)
  | (Ret false, st1) => (Raise (SystemExit 0), emit [cancelled_line] st1)
  | (Raise e, st1) => (Raise e, st1)
  end.
Proof.
  intros Hl Hne Hdry. unfold delete_prefixes.main_prologue.
  unfold bind at 1. unfold out at 1. unfold bind at 1. unfold try_except.
  rewrite load_dirty_paths_pure, Hl. rewrite decide_False by done.
  rewrite Hdry. unfold bind, out, display_summary, get_confirmation, bind, out.
  emit_norm. cbn [stdin emit].
  fold (emit (loading_line (input args)
              :: summary_lines (bucket_name args) false paths sizes
              ++ [Print warning_text; Print undone_text]) st).
  destruct (get_confirmation_loop _ _) as [[[|]|e] st1]; reflexivity.
Qed.

Lemma main_unfold args (st : State World) :
  main args st =
  match main_prologue args st with
  | (Ret loaded, st1) => main_processing args (fst loaded) st1
  | (Raise e, st1) => (Raise e, st1)
  end.
Proof. reflexivity. Qed.

(** The prologue makes no call and leaves the store alone. *)
Lemma main_prologue_frame args (st : State World) :
  calls (snd (main_prologue args st)) = calls st /\
  world (snd (main_prologue args st)) = world st.
Proof.
  destruct (load_dirty_paths_result (input args)) as [[paths sizes]|e] eqn:Hl.
  - destruct (decide (paths = [])) as [->|Hne].
    + by rewrite (main_prologue_empty _ _ _ Hl).
    + destruct (dry_run args) eqn:Hdry.
      * by rewrite (main_prologue_dry _ _ _ _ Hl Hne Hdry).
      * rewrite (main_prologue_live _ _ _ _ Hl Hne Hdry).
        match goal with
        | |- context [get_confirmation_loop ?l ?s] =>
            pose proof (get_confirmation_loop_frame l s) as [Hc Hw];
            destruct (get_confirmation_loop l s) as [[[|]|e] st1]
        end; cbn [fst snd emit calls world] in *; by rewrite ?Hc, ?Hw.
  - by rewrite (main_prologue_load_fails _ _ _ Hl).
Qed.

(** Without [--dry-run], the prologue returns only on an affirmative answer. *)
Lemma main_prologue_live_returns args (st st1 : State World) loaded :
  dry_run args = false ->
  main_prologue args st = (Ret loaded, st1) ->
  exists bad answer rest,
    stdin st = bad ++ answer :: rest /\
    Forall (fun l => ~ recognized l) bad /\ response_of answer = "yes".
Proof.
  intros Hdry E.
  destruct (load_dirty_paths_result (input args)) as [[paths sizes]|e] eqn:Hl.
  - destruct (decide (paths = [])) as [->|Hne].
    + by rewrite (main_prologue_empty _ _ _ Hl) in E.
    + rewrite (main_prologue_live _ _ _ _ Hl Hne Hdry) in E.
      match type of E with
      | context [get_confirmation_loop ?l ?s] =>
          destruct (get_confirmation_loop l s) as [[[|]|e] st2] eqn:Eg
      end; try done.
      by apply get_confirmation_loop_true in Eg.
  - by rewrite (main_prologue_load_fails _ _ _ Hl) in E.
Qed.

(** A negative answer. *)
Lemma main_negative_answer args (st : State World) bad answer rest paths sizes :
  dry_run args = false ->
  load_dirty_paths_result (input args) = Ret (paths, sizes) -> paths <> [] ->
  stdin st = bad ++ answer :: rest ->
  Forall (fun l => ~ recognized l) bad -> response_of answer = "no" ->
  main args st =
  (Raise (SystemExit 0),
   set_stdin rest
     (emit (loading_line (input args)
            :: summary_lines (bucket_name args) false paths sizes
            ++ [Print warning_text; Print undone_text]
            ++ reprompts bad ++ [Prompt prompt_text; cancelled_line]) st)).
Proof.
  intros Hdry Hl Hne Hin Hbad Hno.
  rewrite main_unfold, (main_prologue_live _ _ _ _ Hl Hne Hdry), Hin.
  rewrite get_confirmation_loop_answer by (try done; by right).
  rewrite bool_decide_eq_false_2 by (rewrite Hno; done).
  f_equal. unfold set_stdin, emit. cbn [world stdin stdout calls]. f_equal.
  rewrite <- !app_assoc. f_equal.
Qed.

Lemma print_progress_returns label current total (st : State World) :
  exists st', print_progress label current total st = (Ret tt, st').
Proof. unfold print_progress. case_decide; by eexists. Qed.

Lemma concurrent_loop_returns bucket prefixes dry total
    (acc : gmap string PrefixResult * nat) (st : State World) :
  exists r st2,
    for_each prefixes
      (fun prefix (acc : gmap string PrefixResult * nat) =>
         let '(results, completed) := acc in
         r <- delete_prefix bucket prefix dry ;;
         let completed := (completed + 1)%nat in
         print_progress "Deleting prefixes" completed total ;;;
         ret (<[ prefix := r ]> results, completed))
      acc st = (Ret r, st2).
Proof.
  revert acc st. induction prefixes as [|p ps IH]; intros [results completed] st.
  - by do 2 eexists.
  - cbn [for_each]. unfold bind at 1. unfold bind at 1.
    destruct (delete_prefix_returns bucket p dry st) as (r & w & cs & E & _).
    rewrite E. cbv zeta. unfold bind at 1.
    destruct (print_progress_returns "Deleting prefixes" (completed + 1) total
                (advance w cs st)) as [st' Ep].
    rewrite Ep. unfold ret at 1. apply IH.
Qed.

(** A number of workers that is not positive: the pool refuses it, and
    nothing has happened by then. *)
Lemma delete_prefixes_concurrent_no_workers bucket prefixes max_workers dry
    (st : State World) :
  max_workers <= 0 ->
  delete_prefixes_concurrent bucket prefixes max_workers dry st =
  (Raise (ValueError "max_workers must be greater than 0"), st).
Proof.
  intros Hw. unfold delete_prefixes.delete_prefixes_concurrent. cbv zeta.
  by rewrite decide_True.
Qed.

Lemma delete_prefixes_concurrent_returns bucket prefixes max_workers dry
    (st : State World) :
  0 < max_workers ->
  exists results st2,
    delete_prefixes_concurrent bucket prefixes max_workers dry st = (Ret results, st2).
Proof.
  intros Hw. unfold delete_prefixes.delete_prefixes_concurrent. cbv zeta.
  rewrite decide_False by (by apply Z.lt_nge).
  destruct (concurrent_loop_returns bucket prefixes dry (length prefixes)
              (∅, 0%nat) st) as (r & st2 & H).
  cbv zeta in H. unfold bind at 1. rewrite H. by do 2 eexists.
Qed.

(** Every entry of [results] is what [delete_prefix] returned for its own
    prefix. *)
Lemma concurrent_loop_results_own bucket prefixes dry total
    (acc r : gmap string PrefixResult * nat) (st st2 : State World) :
  for_each prefixes
    (fun prefix (acc : gmap string PrefixResult * nat) =>
       let '(results, completed) := acc in
       r <- delete_prefix bucket prefix dry ;;
       let completed := (completed + 1)%nat in
       print_progress "Deleting prefixes" completed total ;;;
       ret (<[ prefix := r ]> results, completed))
    acc st = (Ret r, st2) ->
  forall p res, fst r !! p = Some res ->
    fst acc !! p = Some res \/
    (p ∈ prefixes /\
     exists st0 : State World, fst (delete_prefix bucket p dry st0) = Ret res).
Proof.
  revert acc st. induction prefixes as [|x ps IH]; intros [results completed] st H p res Hp.
  - cbn [for_each] in H. injection H as <- _. by left.
  - cbn [for_each] in H. unfold bind at 1 in H. unfold bind at 1 in H.
    destruct (delete_prefix_returns bucket x dry st) as (r0 & w & cs & E & _).
    rewrite E in H. cbv zeta in H. unfold bind at 1 in H.
    destruct (print_progress_returns "Deleting prefixes" (completed + 1) total
                (advance w cs st)) as [st' Ep].
    rewrite Ep in H. unfold ret at 1 in H.
    destruct (IH _ _ H p res Hp) as [Hacc|[Hin Hst0]].
    + cbn [fst] in Hacc. destruct (decide (x = p)) as [->|Hne].
      * rewrite lookup_insert_eq in Hacc. injection Hacc as <-.
        right. split; [by left|]. exists st. by rewrite E.
      * rewrite lookup_insert_ne in Hacc by done. by left.
    + right. split; [by right|done].
Qed.

Lemma concurrent_results_own bucket (st : State World) prefixes max_workers dry
    results (st2 : State World) :
  delete_prefixes_concurrent bucket prefixes max_workers dry st = (Ret results, st2) ->
  forall p r, results !! p = Some r ->
              p ∈ prefixes /\
              exists st0 : State World, fst (delete_prefix bucket p dry st0) = Ret r.
Proof.
  unfold delete_prefixes.delete_prefixes_concurrent. cbv zeta. intros H p r Hp.
  case_decide as Hw; [done|].
  destruct (concurrent_loop_returns bucket prefixes dry (length prefixes)
              (∅, 0%nat) st) as (r0 & st3 & E).
  pose proof (concurrent_loop_results_own _ _ _ _ _ _ _ _ E) as Hown.
  cbv zeta in E. unfold bind at 1 in H. rewrite E in H. injection H as <- _.
  destruct (Hown p r Hp) as [Hacc|Hres]; [|done].
  cbn [fst] in Hacc. by rewrite lookup_empty in Hacc.
Qed.

(** C3. In live mode, for a prefix with K listed keys, [delete_prefix]
    issues after the listing exactly one bulk-delete call per batch, in
    order; there are ceil(K/1000) batches, together they are the listed
    keys, each but the last has 1000 keys and the last has K mod 1000 keys
    (1000 when that is 0), so 2500 keys give 1000, 1000, 500.  The deleted
    count is the sum of the per-call success counts, and the error list of
    the path is the concatenation of the error strings of its own calls.
    In the results of a whole run, the entry of a path is what
    [delete_prefix] returned for that path, so no other path's error
    reaches it. *)
Theorem delete_prefix_live_batches bucket prefix (st : State World) :
  let keys := fst (list_all_objects_impl bucket prefix (world st)) in
  let w1 := snd (list_all_objects_impl bucket prefix (world st)) in
  let K := length keys in
  let answers := fst (run_deletes bucket (batches keys) w1) in
  let o := fst (delete_prefix bucket prefix false st) in
  let st' := snd (delete_prefix bucket prefix false st) in
  calls st' = calls st ++ ListAllObjects bucket prefix
                          :: (DeleteObjects bucket <$> batches keys) /\
  mutations (calls st') = mutations (calls st) ++ (DeleteObjects bucket <$> batches keys) /\
  length (batches keys) = ((K + 999) / 1000)%nat /\
  length answers = length (batches keys) /\
  concat (batches keys) = keys /\
  (forall i b, batches keys !! i = Some b ->
               length b = if decide (S i < length (batches keys))%nat then 1000%nat
                          else if decide (K mod 1000 = 0)%nat then 1000%nat
                               else (K mod 1000)%nat) /\
  (K = 2500%nat -> length <$> batches keys = [1000; 1000; 500]%nat) /\
  o = Ret (K, sum_list (success_count <$> answers),
           concat (error_strings <$> answers)) /\
  world st' = snd (run_deletes bucket (batches keys) w1) /\
  (forall prefixes max_workers dry results (st2 : State World),
      delete_prefixes_concurrent bucket prefixes max_workers dry st = (Ret results, st2) ->
      forall p r, results !! p = Some r ->
                  p ∈ prefixes /\
                  exists st0 : State World, fst (delete_prefix bucket p dry st0) = Ret r).
Proof.
  cbv zeta. rewrite delete_prefix_live. cbn [fst snd advance world calls].
  split; [done|]. split.
  { rewrite mutations_app. f_equal.
    change (ListAllObjects bucket prefix :: (DeleteObjects bucket <$> batches
              (list_all_objects_impl bucket prefix (world st)).1))
      with ([ListAllObjects bucket prefix] ++ (DeleteObjects bucket <$> batches
              (list_all_objects_impl bucket prefix (world st)).1)).
    rewrite mutations_app. apply mutations_deletes. }
  split; [apply batches_length|]. split; [apply run_deletes_length|].
  split; [apply batches_concat|]. split; [apply batches_sizes|].
  split; [|split; [done|split; [done|]]].
  2: { intros prefixes max_workers dry results st2 H.
       by eapply concurrent_results_own. }
  intros HK. rewrite batches_seq, HK.
  change ((2500 + 999) / 1000)%nat with 3%nat.
  cbn [seq fmap list_fmap]. rewrite !length_take, !length_drop, HK.
  reflexivity.
Qed.

Lemma failed_prefixes_nonempty dry (results : gmap string PrefixResult) :
  failed_prefixes dry results <> [] <->
  exists p r, results !! p = Some r /\ had_errors dry r = true.
Proof.
  unfold failed_prefixes. split.
  - intros Hne.
    destruct (filter _ (map_to_list results)) as [|[p r] l] eqn:E; [done|].
    assert (Hin : (p, r) ∈ filter (fun pr => had_errors dry pr.2 = true)
                                  (map_to_list results)) by (rewrite E; by left).
    apply list_elem_of_filter in Hin as [Hh Hin].
    apply elem_of_map_to_list in Hin. by exists p, r.
  - intros (p & r & Hp & Hh) E.
    assert (Hin : (p, r) ∈ filter (fun pr => had_errors dry pr.2 = true)
                                  (map_to_list results)).
    { apply list_elem_of_filter. split; [done|]. by apply elem_of_map_to_list. }
    rewrite E in Hin. by apply elem_of_nil in Hin.
Qed.

Lemma had_errors_spec dry found deleted errors :
  had_errors dry (found, deleted, errors) = true <->
  errors <> [] \/ (dry = false /\ (deleted < found)%nat).
Proof.
  unfold had_errors. rewrite orb_true_iff, andb_true_iff, negb_true_iff.
  rewrite bool_decide_eq_false, negb_true_iff, Nat.ltb_lt. done.
Qed.

Lemma log_fails_dec args : {log_fails args} + {~ log_fails args}.
Proof.
  unfold delete_prefixes.log_fails.
  destruct (log_path args) as [path|] eqn:Ep.
  - destruct (write_json path) as [msg|] eqn:Ew.
    + left. by exists path, msg.
    + right. intros (path' & msg & [= <-] & Hw). congruence.
  - right. by intros (path' & msg & [=] & _).
Qed.

(** The report: a log that cannot be written ends the run with the
    exception; otherwise the status follows the failed prefixes. *)
Lemma main_report_status args results (st : State World) :
  (forall path msg,
      log_path args = Some path -> write_json path = Some msg ->
      fst (main_report args results st) = Raise (OtherException msg)) /\
  (~ log_fails args ->
   exit_status (fst (main_report args results st)) =
   if decide (failed_prefixes (dry_run args) results <> [] /\ dry_run args = false)
   then 1 else 0).
Proof.
  unfold delete_prefixes.main_report, delete_prefixes.log_fails, bind, out. split.
  - intros path msg Ep Ew. by rewrite Ep, Ew.
  - intros Hok. destruct (log_path args) as [path|] eqn:Ep.
    + destruct (write_json path) as [msg|] eqn:Ew.
      * destruct Hok. by exists path, msg.
      * cbn. case_decide; reflexivity.
    + cbn. case_decide; reflexivity.
Qed.

Lemma main_processing_unfold args paths (st : State World) :
  main_processing args paths st =
  match delete_prefixes_concurrent (bucket_name args) paths (workers args)
          (dry_run args) (snd (main_create_client args st)) with
  | (Ret results, st2) => main_report args results st2
  | (Raise e, st2) => (Raise e, st2)
  end.
Proof. reflexivity. Qed.

(** Processing with a number of workers that is not positive: the client is
    created, the pool refuses the number, and the exception ends the run. *)
Lemma main_processing_no_workers args paths (st : State World) :
  workers args <= 0 ->
  main_processing args paths st =
  (Raise (ValueError "max_workers must be greater than 0"),
   snd (main_create_client args st)).
Proof.
  intros Hw. rewrite main_processing_unfold.
  by rewrite delete_prefixes_concurrent_no_workers.
Qed.

Lemma main_processing_status args paths (st : State World) :
  0 < workers args ->
  exists results st2,
    delete_prefixes_concurrent (bucket_name args) paths (workers args) (dry_run args)
      (snd (main_create_client args st)) = (Ret results, st2) /\
    (log_fails args -> exit_status (fst (main_processing args paths st)) = 1) /\
    (~ log_fails args ->
     exit_status (fst (main_processing args paths st)) =
     if decide (failed_prefixes (dry_run args) results <> [] /\ dry_run args = false)
     then 1 else 0).
Proof.
  intros Hw.
  destruct (delete_prefixes_concurrent_returns (bucket_name args) paths (workers args)
              (dry_run args) (snd (main_create_client args st)) Hw)
    as (results & st2 & E).
  exists results, st2. split; [done|].
  rewrite main_processing_unfold, E.
  destruct (main_report_status args results st2) as [Hf Hok]. split; [|done].
  intros (path & msg & Ep & Ew). by rewrite (Hf path msg Ep Ew).
Qed.

(** C4. Without [--dry-run]: up to the moment the confirmation returns,
    [main] has made no store call and the store is as it was; [main] goes
    on to processing only when the answer is affirmative, so a run that
    mutates the store has been confirmed.  An answer is read after
    trimming and lower-casing; every answer that is then neither "yes" nor
    "no" costs one prompt and exactly one re-prompt message.  A negative
    answer ends the run with exit status 0, before the client is created
    and before any prefix is processed: no call at all, store untouched.
    Trimming removes every whitespace character, not only the ASCII ones:
    'Yes' between a no-break space and an em space is an affirmative
    answer. *)
Theorem confirmation_gate args (st : State World) :
  dry_run args = false ->
  (calls (snd (main_prologue args st)) = calls st /\
   world (snd (main_prologue args st)) = world st) /\
  (forall loaded, fst (main_prologue args st) = Ret loaded ->
      exists bad answer rest,
        stdin st = bad ++ answer :: rest /\
        Forall (fun l => ~ recognized l) bad /\ response_of answer = "yes") /\
  (mutations (calls (snd (main args st))) <> mutations (calls st) ->
      exists bad answer rest,
        stdin st = bad ++ answer :: rest /\
        Forall (fun l => ~ recognized l) bad /\ response_of answer = "yes") /\
  (forall bad answer rest (st0 : State World),
      Forall (fun l => ~ recognized l) bad -> recognized answer ->
      get_confirmation_loop (bad ++ answer :: rest) st0 =
      (Ret (bool_decide (response_of answer = "yes")),
       set_stdin rest (emit (reprompts bad ++ [Prompt prompt_text]) st0))) /\
  (forall bad answer rest paths sizes,
      load_dirty_paths_result (input args) = Ret (paths, sizes) -> paths <> [] ->
      stdin st = bad ++ answer :: rest ->
      Forall (fun l => ~ recognized l) bad -> response_of answer = "no" ->
      exit_status (fst (main args st)) = 0 /\
      calls (snd (main args st)) = calls st /\
      world (snd (main args st)) = world st /\
      stdin (snd (main args st)) = rest /\
      stdout (snd (main args st)) =
        stdout st ++ loading_line (input args)
          :: summary_lines (bucket_name args) false paths sizes
          ++ [Print warning_text; Print undone_text]
          ++ reprompts bad ++ [Prompt prompt_text; cancelled_line]) /\
  response_of (PyStr.bytes [194; 160]%N +:+ "Yes"
               +:+ PyStr.bytes [226; 128; 131]%N) = "yes".
Proof.
  intros Hdry. split; [apply main_prologue_frame|].
  split; [|split; [|split; [|split; [|by vm_compute]]]].
  - intros loaded E.
    destruct (main_prologue args st) as [o st1] eqn:Ep. cbn [fst] in E. subst o.
    by eapply main_prologue_live_returns.
  - intros Hmut. rewrite main_unfold in Hmut.
    pose proof (main_prologue_frame args st) as [Hc _].
    destruct (main_prologue args st) as [[loaded|e] st1] eqn:Ep.
    + by eapply main_prologue_live_returns.
    + cbn [fst snd] in *. by rewrite Hc in Hmut.
  - intros. by apply get_confirmation_loop_answer.
  - intros bad answer rest paths sizes Hl Hne Hin Hbad Hno.
    by rewrite (main_negative_answer _ _ _ _ _ _ _ Hdry Hl Hne Hin Hbad Hno).
Qed.


(** C10. If the loaded [dirty_paths] list is empty, [main] exits with
    status 0 right after loading, in live and in dry-run mode alike: the
    console shows the loading line and the nothing-to-delete line, so no
    summary and no prompt; nothing is read from standard input; no client
    is created and no store call is made.  A document without a
    [dirty_paths] key loads as the empty list. *)
Theorem empty_input_exits_at_once args (st : State World) sizes :
  load_dirty_paths_result (input args) = Ret ([], sizes) ->
  main args st =
    (Raise (SystemExit 0), emit [loading_line (input args); nothing_line] st) /\
  exit_status (fst (main args st)) = 0 /\
  stdout (snd (main args st)) = stdout st ++ [loading_line (input args); nothing_line] /\
  stdin (snd (main args st)) = stdin st /\
  calls (snd (main args st)) = calls st /\
  world (snd (main args st)) = world st /\
  (forall sz, read_json (input args) = Parsed (DocDict None sz) ->
              exists sizes', load_dirty_paths_result (input args) = Ret ([], sizes')).
Proof.
  intros Hl. rewrite main_unfold, (main_prologue_empty _ _ _ Hl).
  repeat split.
  intros sz Hr. unfold delete_prefixes.load_dirty_paths_result. rewrite Hr.
  by eexists.
Qed.

End Engine.

(** ** The paginated listing helpers *)

Section Pagination.
Import PyStr Py utils.
Local Open Scope py_scope.
Context {World : Type}.
Variable s3_client : S3Client World.

Local Abbreviation list_next_level_prefixes :=
  (utils.list_next_level_prefixes s3_client).
Local Abbreviation sum_sizes_in_prefix := (utils.sum_sizes_in_prefix s3_client).
Local Abbreviation pages_then_error := (utils.pages_then_error s3_client).

(** The two loops share their shape: a turn makes one listing call, folds
    the page into the loop variable and follows the continuation token; a
    failed call leaves the loop variable as it was and ends the loop. *)
Section Loop.
Context {S : Type}.
Variable bucket_name prefix : string.
Variable delimiter : option string.
Variable step : S -> ListResponse -> S.
Variable turn : S * option string -> M World (Ctl (S * option string)).

Hypothesis turn_page : forall acc token (st : State World) page w1,
  s3_list_objects_v2 s3_client
    (list_params bucket_name prefix delimiter token) (world st) = (Answer page, w1) ->
  exists st1, world st1 = w1 /\
    turn (acc, token) st =
    (Ret (if truthy (NextContinuationToken page)
          then Continue (step acc page, NextContinuationToken page)
          else Break (step acc page, NextContinuationToken page)), st1).

Hypothesis turn_error : forall acc token (st : State World) r w1,
  s3_list_objects_v2 s3_client
    (list_params bucket_name prefix delimiter token) (world st) = (r, w1) ->
  failed r = true ->
  exists st1, world st1 = w1 /\ turn (acc, token) st = (Ret (Break (acc, token)), st1).

Lemma turn_returns s (st : State World) :
  exists c st1, turn s st = (Ret c, st1).
Proof.
  destruct s as [acc token].
  destruct (s3_list_objects_v2 s3_client
              (list_params bucket_name prefix delimiter token) (world st))
    as [r w1] eqn:E.
  destruct r as [page|msg|msg].
  - destruct (turn_page acc token st page w1 E) as (st1 & _ & ->). by do 2 eexists.
  - destruct (turn_error acc token st _ w1 E eq_refl) as (st1 & _ & ->).
    by do 2 eexists.
  - destruct (turn_error acc token st _ w1 E eq_refl) as (st1 & _ & ->).
    by do 2 eexists.
Qed.

Lemma loop_never_raises fuel s (st st' : State World) o :
  while_true fuel turn s st = Some (o, st') -> exists v, o = Ret v.
Proof.
  revert s st. induction fuel as [|fuel IH]; intros s st H; [done|].
  cbn [while_true] in H.
  destruct (turn_returns s st) as (c & st1 & E). rewrite E in H.
  destruct c as [s1|s1].
  - by eapply IH.
  - inversion H. by eexists.
Qed.

Lemma loop_pages_then_error token w pages w' :
  pages_then_error bucket_name prefix delimiter token w pages w' ->
  forall fuel acc (st : State World),
    world st = w -> (length pages < fuel)%nat ->
    exists token' st',
      world st' = w' /\
      while_true fuel turn (acc, token) st = Some (Ret (foldl step acc pages, token'), st').
Proof.
  induction 1 as [token w r w' E Hf|token w page w1 pages w' E Ht Hrest IH];
    intros fuel acc st Hw Hfuel.
  - destruct fuel as [|fuel]; [simpl in Hfuel; lia|]. subst w.
    destruct (turn_error acc token st r w' E Hf) as (st1 & Hw1 & Et).
    exists token, st1. split; [done|]. cbn [while_true]. by rewrite Et.
  - destruct fuel as [|fuel]; [simpl in Hfuel; lia|]. subst w.
    destruct (turn_page acc token st page w1 E) as (st1 & Hw1 & Et).
    rewrite Ht in Et.
    destruct (IH fuel (step acc page) st1 Hw1) as (token' & st' & Hw' & El).
    { simpl in Hfuel. lia. }
    exists token', st'. split; [done|]. cbn [while_true]. by rewrite Et.
Qed.
End Loop.

Lemma list_next_level_prefixes_turn_page bucket_name prefix acc token
    (st : State World) page w1 :
  s3_list_objects_v2 s3_client
    (list_params bucket_name prefix (Some "/") token) (world st) = (Answer page, w1) ->
  exists st1, world st1 = w1 /\
    list_next_level_prefixes_turn s3_client bucket_name prefix (acc, token) st =
    (Ret (if truthy (NextContinuationToken page)
          then Continue (children_step prefix acc page, NextContinuationToken page)
          else Break (children_step prefix acc page, NextContinuationToken page)), st1).
Proof.
  intros E. unfold list_next_level_prefixes_turn, try_except, bind, list_objects_v2.
  rewrite E. cbn [lift_client]. eexists. split; [|by destruct (truthy _)]. done.
Qed.

Lemma list_next_level_prefixes_turn_error bucket_name prefix acc token
    (st : State World) r w1 :
  s3_list_objects_v2 s3_client
    (list_params bucket_name prefix (Some "/") token) (world st) = (r, w1) ->
  failed r = true ->
  exists st1, world st1 = w1 /\
    list_next_level_prefixes_turn s3_client bucket_name prefix (acc, token) st =
    (Ret (Break (acc, token)), st1).
Proof.
  intros E Hf. unfold list_next_level_prefixes_turn, try_except, bind, list_objects_v2.
  rewrite E. destruct r as [page|msg|msg]; [done| |]; cbn;
    (eexists; split; [|reflexivity]; done).
Qed.

Lemma sum_sizes_in_prefix_turn_page bucket_name prefix acc token
    (st : State World) page w1 :
  s3_list_objects_v2 s3_client
    (list_params bucket_name prefix None token) (world st) = (Answer page, w1) ->
  exists st1, world st1 = w1 /\
    sum_sizes_in_prefix_turn s3_client bucket_name prefix (acc, token) st =
    (Ret (if truthy (NextContinuationToken page)
          then Continue (sizes_step acc page, NextContinuationToken page)
          else Break (sizes_step acc page, NextContinuationToken page)), st1).
Proof.
  intros E. unfold sum_sizes_in_prefix_turn, try_except, bind, list_objects_v2.
  rewrite E. cbn [lift_client]. eexists. split; [|by destruct (truthy _)]. done.
Qed.

Lemma sum_sizes_in_prefix_turn_error bucket_name prefix acc token
    (st : State World) r w1 :
  s3_list_objects_v2 s3_client
    (list_params bucket_name prefix None token) (world st) = (r, w1) ->
  failed r = true ->
  exists st1, world st1 = w1 /\
    sum_sizes_in_prefix_turn s3_client bucket_name prefix (acc, token) st =
    (Ret (Break (acc, token)), st1).
Proof.
  intros E Hf. unfold sum_sizes_in_prefix_turn, try_except, bind, list_objects_v2.
  rewrite E. destruct r as [page|msg|msg]; [done| |]; cbn;
    (eexists; split; [|reflexivity]; done).
Qed.

(** C6, as the code has it. Whatever the store does, neither helper lets
    an exception escape.  When a listing call fails after some pages were
    fetched, [list_next_level_prefixes] returns the children found on
    those earlier pages and [sum_sizes_in_prefix] the sizes summed over
    them; they return no children and size 0 when the failure is on the
    first call.  Enough fuel for the pages fetched gives the result. *)
Theorem listing_error_keeps_earlier_pages bucket_name prefix (st : State World) :
  (forall fuel o st',
      list_next_level_prefixes fuel bucket_name prefix st = Some (o, st') ->
      exists v, o = Ret v) /\
  (forall fuel o st',
      sum_sizes_in_prefix fuel bucket_name prefix st = Some (o, st') ->
      exists v, o = Ret v) /\
  (forall pages w' fuel,
      pages_then_error bucket_name prefix (Some "/") None (world st) pages w' ->
      (length pages < fuel)%nat ->
      exists st', world st' = w' /\
        list_next_level_prefixes fuel bucket_name prefix st =
        Some (Ret (foldl (children_step prefix) ∅ pages), st')) /\
  (forall pages w' fuel,
      pages_then_error bucket_name prefix None None (world st) pages w' ->
      (length pages < fuel)%nat ->
      exists st', world st' = w' /\
        sum_sizes_in_prefix fuel bucket_name prefix st =
        Some (Ret (foldl sizes_step 0 pages), st')) /\
  (forall r w' fuel,
      s3_list_objects_v2 s3_client
        (list_params bucket_name prefix (Some "/") None) (world st) = (r, w') ->
      failed r = true -> (0 < fuel)%nat ->
      exists st', list_next_level_prefixes fuel bucket_name prefix st
                  = Some (Ret ∅, st')) /\
  (forall r w' fuel,
      s3_list_objects_v2 s3_client
        (list_params bucket_name prefix None None) (world st) = (r, w') ->
      failed r = true -> (0 < fuel)%nat ->
      exists st', sum_sizes_in_prefix fuel bucket_name prefix st
                  = Some (Ret 0, st')).
Proof.
  assert (Hc : forall pages w' fuel,
      pages_then_error bucket_name prefix (Some "/") None (world st) pages w' ->
      (length pages < fuel)%nat ->
      exists st', world st' = w' /\
        list_next_level_prefixes fuel bucket_name prefix st =
        Some (Ret (foldl (children_step prefix) ∅ pages), st')).
  { intros pages w' fuel Hp Hfuel.
    destruct (loop_pages_then_error bucket_name prefix (Some "/")
                (children_step prefix)
                (list_next_level_prefixes_turn s3_client bucket_name prefix)
                (list_next_level_prefixes_turn_page bucket_name prefix)
                (list_next_level_prefixes_turn_error bucket_name prefix)
                None (world st) pages w' Hp fuel ∅ st eq_refl Hfuel)
      as (token' & st' & Hw & E).
    exists st'. split; [done|]. unfold utils.list_next_level_prefixes. by rewrite E. }
  assert (Hs : forall pages w' fuel,
      pages_then_error bucket_name prefix None None (world st) pages w' ->
      (length pages < fuel)%nat ->
      exists st', world st' = w' /\
        sum_sizes_in_prefix fuel bucket_name prefix st =
        Some (Ret (foldl sizes_step 0 pages), st')).
  { intros pages w' fuel Hp Hfuel.
    destruct (loop_pages_then_error bucket_name prefix None sizes_step
                (sum_sizes_in_prefix_turn s3_client bucket_name prefix)
                (sum_sizes_in_prefix_turn_page bucket_name prefix)
                (sum_sizes_in_prefix_turn_error bucket_name prefix)
                None (world st) pages w' Hp fuel 0 st eq_refl Hfuel)
      as (token' & st' & Hw & E).
    exists st'. split; [done|]. unfold utils.sum_sizes_in_prefix. by rewrite E. }
  split; [|split; [|split; [exact Hc|split; [exact Hs|split]]]].
  - intros fuel o st' H. unfold utils.list_next_level_prefixes in H.
    destruct (while_true fuel _ _ st) as [[[[v tok]|e] st1]|] eqn:E; [| |done].
    + inversion H. by eexists.
    + apply (loop_never_raises bucket_name prefix (Some "/") (children_step prefix) _
               (list_next_level_prefixes_turn_page bucket_name prefix)
               (list_next_level_prefixes_turn_error bucket_name prefix)) in E.
      by destruct E.
  - intros fuel o st' H. unfold utils.sum_sizes_in_prefix in H.
    destruct (while_true fuel _ _ st) as [[[[v tok]|e] st1]|] eqn:E; [| |done].
    + inversion H. by eexists.
    + apply (loop_never_raises bucket_name prefix None sizes_step _
               (sum_sizes_in_prefix_turn_page bucket_name prefix)
               (sum_sizes_in_prefix_turn_error bucket_name prefix)) in E.
      by destruct E.
  - intros r w' fuel E Hf Hfuel.
    destruct (Hc [] w' fuel) as (st' & _ & H); [by econstructor|done|].
    by exists st'.
  - intros r w' fuel E Hf Hfuel.
    destruct (Hs [] w' fuel) as (st' & _ & H); [by econstructor|done|].
    by exists st'.
Qed.

End Pagination.

(** ** The statements at concrete inputs *)

Section Instances.
Import PyStr Py utils delete_prefixes.

Lemma delete_prefix_dry_run_no_delete_witness :
  (forall b p w, Mock.objects (snd (Mock.list_all_objects_impl b p w)) = Mock.objects w) /\
  Mock.objects
    (world (snd (delete_prefix Mock.client Mock.list_all_objects_impl "b" "p" true
                   (Mock.start (Mock.store (Mock.keys_under "p" 3)) []))))
  = Mock.keys_under "p" 3.
Proof.
  assert (H : forall b p w,
             Mock.objects (snd (Mock.list_all_objects_impl b p w)) = Mock.objects w)
    by reflexivity.
  split; [exact H|].
  apply (proj2 (proj2 (proj2 (proj2 (proj2 (proj2
           (delete_prefix_dry_run_no_delete Mock.client Mock.list_all_objects_impl
              "b" "p" (Mock.start (Mock.store (Mock.keys_under "p" 3)) []))))))) _
           Mock.objects H).
Defined.

Lemma delete_prefix_live_batches_witness :
  length (fst (Mock.list_all_objects_impl "b" "p"
                 (Mock.store (Mock.keys_under "p" 2500)))) = 2500%nat /\
  length <$> batches (fst (Mock.list_all_objects_impl "b" "p"
                             (Mock.store (Mock.keys_under "p" 2500))))
  = [1000; 1000; 500]%nat.
Proof.
  assert (H : length (fst (Mock.list_all_objects_impl "b" "p"
                             (Mock.store (Mock.keys_under "p" 2500)))) = 2500%nat)
    by (vm_compute; reflexivity).
  split; [exact H|].
  apply (proj1 (proj2 (proj2 (proj2 (proj2 (proj2 (proj2
           (delete_prefix_live_batches Mock.client Mock.list_all_objects_impl
              "b" "p" (Mock.start (Mock.store (Mock.keys_under "p" 2500)) []))))))))).
  exact H.
Defined.

Lemma delete_prefix_batches_within_limit_witness :
  (1000 < length (replicate 1001 "k"))%nat /\
  exists msg,
    delete_objects_batch Mock.client "b" (replicate 1001 "k")
      (Mock.start (Mock.store []) [])
    = (Raise (ValueError msg), Mock.start (Mock.store []) []).
Proof.
  assert (H : (1000 < length (replicate 1001 "k"))%nat)
    by (rewrite length_replicate; lia).
  split; [exact H|].
  apply (proj1 (delete_prefix_batches_within_limit Mock.client
                  Mock.list_all_objects_impl)).
  exact H.
Defined.

Lemma maybe_unrecognized : Forall (fun l => ~ recognized l) ["maybe"].
Proof.
  constructor; [|constructor].
  intros [H|H]; vm_compute in H; discriminate H.
Qed.

(** The scenario of the specification: "maybe", then "no". *)
Lemma confirmation_gate_witness :
  dry_run Mock.live_args = false /\
  exit_status (fst (main Mock.client Mock.list_all_objects_impl (Mock.reader ["p"])
                      Mock.writable Mock.live_args
                      (Mock.start (Mock.store (Mock.keys_under "p" 3))
                         ["maybe"; "no"]))) = 0 /\
  calls (snd (main Mock.client Mock.list_all_objects_impl (Mock.reader ["p"])
                Mock.writable Mock.live_args
                (Mock.start (Mock.store (Mock.keys_under "p" 3))
                   ["maybe"; "no"]))) = [].
Proof.
  split; [reflexivity|].
  destruct (proj1 (proj2 (proj2 (proj2 (proj2
             (confirmation_gate Mock.client Mock.list_all_objects_impl
                (Mock.reader ["p"]) Mock.writable Mock.live_args
                (Mock.start (Mock.store (Mock.keys_under "p" 3)) ["maybe"; "no"])
                eq_refl)))))
             ["maybe"] "no" [] ["p"] ∅ eq_refl ltac:(discriminate) eq_refl
             maybe_unrecognized eq_refl)
    as (Hexit & Hcalls & _).
  split; [exact Hexit|exact Hcalls].
Defined.



(** Live runs that reach processing: a refused bulk delete gives exit
    status 1 and leaves the keys in place; a clean run gives 0 and removes
    them. *)
Lemma live_run_exit_statuses :
  exit_status (fst (main Mock.client Mock.list_all_objects_impl (Mock.reader ["p"])
                      Mock.writable Mock.live_args (Mock.start Mock.denied ["yes"]))) = 1 /\
  Mock.objects (world (snd (main Mock.client Mock.list_all_objects_impl
                              (Mock.reader ["p"]) Mock.writable Mock.live_args
                              (Mock.start Mock.denied ["yes"]))))
    = Mock.keys_under "p" 3 /\
  exit_status (fst (main Mock.client Mock.list_all_objects_impl (Mock.reader ["p"])
                      Mock.writable Mock.live_args
                      (Mock.start (Mock.store (Mock.keys_under "p" 3)) ["yes"]))) = 0 /\
  Mock.objects (world (snd (main Mock.client Mock.list_all_objects_impl
                              (Mock.reader ["p"]) Mock.writable Mock.live_args
                              (Mock.start (Mock.store (Mock.keys_under "p" 3))
                                 ["yes"])))) = [].
Proof. repeat split; by vm_compute. Qed.

Lemma empty_input_exits_at_once_witness :
  load_dirty_paths_result (Mock.reader []) (input Mock.live_args) = Ret ([], ∅) /\
  exit_status (fst (main Mock.client Mock.list_all_objects_impl (Mock.reader [])
                      Mock.writable Mock.live_args
                      (Mock.start (Mock.store (Mock.keys_under "p" 3)) ["yes"]))) = 0 /\
  calls (snd (main Mock.client Mock.list_all_objects_impl (Mock.reader [])
                Mock.writable Mock.live_args
                (Mock.start (Mock.store (Mock.keys_under "p" 3)) ["yes"]))) = [].
Proof.
  split; [reflexivity|].
  destruct (empty_input_exits_at_once Mock.client Mock.list_all_objects_impl
              (Mock.reader []) Mock.writable Mock.live_args
              (Mock.start (Mock.store (Mock.keys_under "p" 3)) ["yes"]) ∅ eq_refl)
    as (_ & Hexit & _ & _ & Hcalls & _).
  split; [exact Hexit|exact Hcalls].
Defined.

Lemma flaky_pages :
  pages_then_error Mock.client "b" "p/" (Some "/") None Mock.flaky [Mock.page_a]
    {| Mock.objects := []; Mock.list_script := []; Mock.delete_script := [] |}.
Proof.
  eapply pte_page; [reflexivity|reflexivity|].
  eapply pte_error; reflexivity.
Qed.

Lemma listing_error_keeps_earlier_pages_witness :
  pages_then_error Mock.client "b" "p/" (Some "/") None Mock.flaky [Mock.page_a]
    {| Mock.objects := []; Mock.list_script := []; Mock.delete_script := [] |} /\
  exists st',
    list_next_level_prefixes Mock.client 2 "b" "p/" (Mock.start Mock.flaky [])
    = Some (Ret (foldl (children_step "p/") ∅ [Mock.page_a]), st').
Proof.
  split; [exact flaky_pages|].
  destruct (proj1 (proj2 (proj2
             (listing_error_keeps_earlier_pages Mock.client "b" "p/"
                (Mock.start Mock.flaky []))))
             [Mock.page_a] _ 2%nat flaky_pages ltac:(simpl; lia))
    as (st' & _ & H).
  exists st'. exact H.
Defined.

(** C6 as stated fails: the listing fails on the second call, and the
    helpers return the child and the size found on the first page, not
    zero children and size 0. *)
Lemma listing_error_after_first_page :
  failed (fst (s3_list_objects_v2 Mock.client
                 (list_params "b" "p/" (Some "/") (Some "t"))
                 {| Mock.objects := [];
                    Mock.list_script := [RaisesClientError "boom"];
                    Mock.delete_script := [] |})) = true /\
  fst <$> list_next_level_prefixes Mock.client 5 "b" "p/" (Mock.start Mock.flaky [])
    = Some (Ret {[ "a" ]}) /\
  ({[ "a" ]} : gset string) <> ∅ /\
  fst <$> sum_sizes_in_prefix Mock.client 5 "b" "p/" (Mock.start Mock.flaky [])
    = Some (Ret 7).
Proof.
  split; [reflexivity|]. split; [by vm_compute|]. split; [|by vm_compute].
  intros H. assert (Hin : "a" ∈ ({[ "a" ]} : gset string)) by set_solver.
  rewrite H in Hin. by apply not_elem_of_empty in Hin.
Qed.

End Instances.


(** * Further properties *)

(** ** The dirty-set resolvers: composition *)

Section ResolverComposition.
Import PyStr get_final_dirty_data_prefix.

Lemma sizes_for_fold_lookup (S m : gmap string Z) (l : list string) p :
  foldl (fun (m : gmap string Z) (path : string) =>
           <[ path := default 0 (S !! path) ]> m) m l !! p =
  if decide (p ∈ l) then Some (default 0 (S !! p)) else m !! p.
Proof.
  revert m. induction l as [|x l IH]; intros m.
  - cbn [foldl]. rewrite decide_False; [done|]. apply not_elem_of_nil.
  - cbn [foldl]. rewrite IH. destruct (decide (p ∈ l)) as [Hin|Hnin].
    + rewrite decide_True; [done|]. by right.
    + destruct (decide (x = p)) as [->|Hne].
      * rewrite lookup_insert_eq. rewrite decide_True; [done|]. by left.
      * rewrite lookup_insert_ne by done. rewrite decide_False; [done|].
        intros [?|?]%elem_of_cons; [congruence|done].
Qed.

Lemma sizes_for_lookup (S : gmap string Z) (l : list string) p :
  sizes_for S l !! p = if decide (p ∈ l) then Some (default 0 (S !! p)) else None.
Proof. unfold sizes_for. by rewrite sizes_for_fold_lookup, lookup_empty. Qed.

Lemma sizes_for_empty_iff (S : gmap string Z) (l : list string) :
  sizes_for S l = ∅ <-> l = [].
Proof.
  split; [|by intros ->].
  intros H. destruct l as [|x l]; [done|].
  assert (Hx : sizes_for S (x :: l) !! x = None) by (rewrite H; apply lookup_empty).
  rewrite sizes_for_lookup, decide_True in Hx; [done|by left].
Qed.

Lemma sizes_for_again (S : gmap string Z) (l l' : list string) :
  l' ≡ₚ l -> sizes_for (sizes_for S l) l' = sizes_for S l.
Proof.
  intros Hp. apply map_eq. intros p. rewrite !sizes_for_lookup.
  destruct (decide (p ∈ l')) as [Hin|Hnin].
  - rewrite decide_True by (by rewrite <- Hp). done.
  - rewrite decide_False by (by rewrite <- Hp). done.
Qed.

Lemma strongly_sorted_filter {A} (R : relation A) (P : A -> Prop)
    `{!forall x, Decision (P x)} (l : list A) :
  StronglySorted R l -> StronglySorted R (filter P l).
Proof.
  induction 1 as [|x l Hs IH Hx]; [constructor|].
  rewrite filter_cons. case_decide; [|done].
  constructor; [done|]. rewrite Forall_forall in *.
  intros y [_ Hy]%list_elem_of_filter. by apply Hx.
Qed.

Lemma sorted_perm_eq (l l' : list string) : l ≡ₚ l' -> sorted l = sorted l'.
Proof.
  intros Hp. apply sorted_unique; [apply sorted_Sorted|].
  by rewrite sorted_Permutation.
Qed.

Lemma filter_sorted (P : string -> Prop) `{!forall x, Decision (P x)}
    (l : list string) :
  filter P (sorted l) = sorted (filter P l).
Proof.
  apply sorted_unique.
  - apply StronglySorted_Sorted, strongly_sorted_filter.
    apply (Sorted_StronglySorted String.le), sorted_Sorted.
  - by rewrite sorted_Permutation.
Qed.

(** The document [main_output] builds, by cases. *)
Lemma main_output_cases (P : list string) (S : gmap string Z) (A : gset string) :
  main_output P S A =
  if decide (S = ∅ \/ filter (is_dirty A) P = [])
  then {| dirty_paths := sorted (filter (is_dirty A) P);
          dirty_paths_sizes_bytes := None;
          summary := None |}
  else {| dirty_paths := sorted (filter (is_dirty A) P);
          dirty_paths_sizes_bytes := Some (sizes_for S (filter (is_dirty A) P));
          summary :=
            Some {| total_dirty_paths := length (filter (is_dirty A) P);
                    total_dirty_size_bytes :=
                      sum_values (sizes_for S (filter (is_dirty A) P)) |} |}.
Proof.
  unfold main_output.
  pose proof (find_dirty_data_prefixes_filter P A) as Hf.
  destruct (find_dirty_data_prefixes P A) as [dp ds] eqn:E.
  assert (ds = ∅) as -> by (unfold find_dirty_data_prefixes in E; by inversion E).
  cbn [fst] in Hf. subst dp.
  destruct (decide (S = ∅)) as [HS|HS].
  - rewrite decide_True by done. by rewrite decide_True by by left.
  - destruct (decide (sizes_for S (filter (is_dirty A) P) = ∅)) as [He|He].
    + apply sizes_for_empty_iff in He. by rewrite decide_True by by right.
    + rewrite decide_False.
      * rewrite sizes_for_again by apply sorted_Permutation.
        do 3 f_equal. apply Permutation_length, sorted_Permutation.
      * intros [?|Hd]; [done|]. destruct He. by apply sizes_for_empty_iff.
Qed.

(** X1. The optional entries of the resolver's output.  The size map and
    the summary are written together, and exactly when the input carried a
    non-empty size map and at least one path is dirty.  The size map then
    has an entry for each dirty path and for nothing else; a dirty path the
    input has no size for gets 0.  The summary counts the dirty paths as
    listed and adds up the entries of the size map. *)
Theorem output_sizes_present (P : list string) (S : gmap string Z) (A : gset string) :
  let out := main_output P S A in
  let dirty := filter (is_dirty A) P in
  (dirty_paths_sizes_bytes out = None <-> S = ∅ \/ dirty = []) /\
  (summary out = None <-> dirty_paths_sizes_bytes out = None) /\
  (forall m, dirty_paths_sizes_bytes out = Some m ->
     (forall p, m !! p = if decide (p ∈ dirty) then Some (default 0 (S !! p))
                         else None) /\
     summary out = Some {| total_dirty_paths := length dirty;
                           total_dirty_size_bytes := sum_values m |}).
Proof.
  cbv zeta. rewrite main_output_cases. case_decide as Hd; cbn.
  - split; [tauto|]. split; [done|]. done.
  - split; [split; [done|tauto]|]. split; [done|].
    intros m [= <-]. split; [intros p; apply sizes_for_lookup|done].
Qed.

Lemma output_sizes_present_witness :
  dirty_paths_sizes_bytes (main_output ["a/1"; "a/2"] {[ "a/1" := 5 ]} {[ "1" ]})
    = Some {[ "a/2" := 0 ]} /\
  summary (main_output ["a/1"; "a/2"] {[ "a/1" := 5 ]} {[ "1" ]})
    = Some {| total_dirty_paths := 1;
              total_dirty_size_bytes := sum_values {[ "a/2" := 0 ]} |}.
Proof.
  assert (H : dirty_paths_sizes_bytes
                (main_output ["a/1"; "a/2"] {[ "a/1" := 5 ]} {[ "1" ]})
              = Some {[ "a/2" := 0 ]}) by (vm_compute; reflexivity).
  split; [exact H|].
  apply (proj2 (proj2 (proj2 (output_sizes_present ["a/1"; "a/2"] {[ "a/1" := 5 ]}
                                {[ "1" ]})) _ H)).
Defined.

(** X2. An allow-list file that is empty or holds only blank lines loads
    as the empty set, and then every discovered path is dirty: the output is
    the sorted input. *)
Theorem blank_allow_list_all_dirty (content : string) (P : list string)
    (S : gmap string Z) :
  (forall line, line ∈ readlines content -> strip line = EmptyString) ->
  load_non_terminated_uuids content = ∅ /\
  dirty_paths (main_output P S (load_non_terminated_uuids content)) = sorted P.
Proof.
  intros Hblank.
  assert (He : load_non_terminated_uuids content = ∅).
  { apply set_eq. intros u. unfold load_non_terminated_uuids.
    rewrite load_step_elem. split; [|by intros ?%not_elem_of_empty].
    intros [?|(line & Hin & Hl)]; [done|].
    unfold loaded_from in Hl. cbv zeta in Hl.
    by rewrite decide_True in Hl by by apply Hblank. }
  split; [done|]. rewrite He, main_output_dirty_paths. f_equal.
  induction P as [|p P IH]; [done|].
  rewrite filter_cons_True; [by rewrite IH|].
  unfold is_dirty. apply not_elem_of_empty.
Qed.

Lemma blank_allow_list_all_dirty_witness :
  (forall line, line ∈ readlines (" " +:+ nl +:+ nl) -> strip line = EmptyString) /\
  dirty_paths (main_output ["b/2"; "a/1"] ∅
                 (load_non_terminated_uuids (" " +:+ nl +:+ nl))) = sorted ["b/2"; "a/1"].
Proof.
  assert (H : forall line, line ∈ readlines (" " +:+ nl +:+ nl) ->
                           strip line = EmptyString).
  { intros line Hin.
    change (readlines (" " +:+ nl +:+ nl)) with [" " +:+ nl; nl] in Hin.
    apply elem_of_cons in Hin as [->|Hin]; [reflexivity|].
    apply elem_of_cons in Hin as [->|Hin]; [reflexivity|].
    by apply elem_of_nil in Hin. }
  split; [exact H|].
  apply (proj2 (blank_allow_list_all_dirty _ ["b/2"; "a/1"] ∅ H)).
Defined.

(** X3. The dirty list depends on the discovered paths only up to their
    order, and not on the size map; resolving the dirty list again against
    the same allow-list returns it unchanged. *)
Theorem dirty_paths_order_independent (P P' : list string) (S S' : gmap string Z)
    (A : gset string) :
  (P ≡ₚ P' -> dirty_paths (main_output P S A) = dirty_paths (main_output P' S' A)) /\
  dirty_paths (main_output (dirty_paths (main_output P S A)) S' A)
    = dirty_paths (main_output P S A).
Proof.
  rewrite !main_output_dirty_paths. split.
  - intros Hp. apply sorted_perm_eq. by rewrite Hp.
  - rewrite filter_sorted. rewrite list_filter_filter_l by done.
    apply sorted_perm_eq. by rewrite sorted_Permutation.
Qed.

Lemma dirty_paths_order_independent_witness :
  ["b/2"; "a/1"; "a/3"] ≡ₚ ["a/3"; "b/2"; "a/1"] /\
  dirty_paths (main_output ["b/2"; "a/1"; "a/3"] ∅ {[ "1" ]})
    = dirty_paths (main_output ["a/3"; "b/2"; "a/1"] {[ "b/2" := 4 ]} {[ "1" ]}).
Proof.
  assert (H : ["b/2"; "a/1"; "a/3"] ≡ₚ ["a/3"; "b/2"; "a/1"]).
  { change ["b/2"; "a/1"; "a/3"] with (["b/2"; "a/1"] ++ ["a/3"]).
    by rewrite Permutation_app_comm. }
  split; [exact H|].
  apply (proj1 (dirty_paths_order_independent _ _ ∅ {[ "b/2" := 4 ]} {[ "1" ]}) H).
Defined.

(** X4. Growing the allow-list only removes paths: against a larger
    allow-list the dirty list is the old dirty list with the newly allowed
    paths filtered out, in the same order. *)
Theorem larger_allow_list_filters (P : list string) (S S' : gmap string Z)
    (A A' : gset string) :
  A ⊆ A' ->
  dirty_paths (main_output P S' A')
    = filter (is_dirty A') (dirty_paths (main_output P S A)) /\
  dirty_paths (main_output P S' A') `sublist_of` dirty_paths (main_output P S A).
Proof.
  intros Hsub.
  assert (E : dirty_paths (main_output P S' A')
              = filter (is_dirty A') (dirty_paths (main_output P S A))).
  { rewrite !main_output_dirty_paths, filter_sorted. f_equal.
    rewrite list_filter_filter_l; [done|].
    unfold is_dirty. intros p Hp Hin. apply Hp. by apply Hsub. }
  split; [exact E|]. rewrite E. apply sublist_filter.
Qed.

Lemma larger_allow_list_filters_witness :
  ({[ "1" ]} : gset string) ⊆ {[ "1" ]} ∪ {[ "3" ]} /\
  dirty_paths (main_output ["b/2"; "a/1"; "a/3"] ∅ ({[ "1" ]} ∪ {[ "3" ]}))
    = filter (is_dirty ({[ "1" ]} ∪ {[ "3" ]}))
        (dirty_paths (main_output ["b/2"; "a/1"; "a/3"] ∅ {[ "1" ]})).
Proof.
  assert (H : ({[ "1" ]} : gset string) ⊆ {[ "1" ]} ∪ {[ "3" ]}) by set_solver.
  split; [exact H|].
  apply (proj1 (larger_allow_list_filters ["b/2"; "a/1"; "a/3"] ∅ ∅ _ _ H)).
Defined.

(** X5. End to end, from the allow-list file: a discovered path is in the
    dirty list exactly when no line of the file loads as its identifier.  So
    a path whose identifier is listed, bare or behind the literal 'ch-s3-',
    with or without surrounding whitespace, is never marked dirty. *)
Theorem dirty_iff_not_listed (content : string) (P : list string)
    (S : gmap string Z) (p : string) :
  p ∈ dirty_paths (main_output P S (load_non_terminated_uuids content)) <->
  p ∈ P /\
  forall line, line ∈ readlines content ->
               loaded_from line <> Some (extract_uuid_from_path p).
Proof.
  rewrite main_output_dirty_paths, sorted_Permutation, list_elem_of_filter.
  unfold is_dirty, load_non_terminated_uuids. rewrite load_step_elem. split.
  - intros [Hn Hp]. split; [done|]. intros line Hin Hl. apply Hn. right. eauto.
  - intros [Hp Hn]. split; [|done].
    intros [?%not_elem_of_empty|(line & Hin & Hl)]; [done|]. by eapply Hn.
Qed.

(** X6. The input formats of the resolver.  An object without a 'prefixes'
    key, and a value that is neither an object nor a list, end [main] with a
    [ValueError] and no output.  An old-format list and an object without
    size map resolve alike, and the output then has neither size map nor
    summary, whatever the allow-list. *)
Theorem main_input_formats (file : string) (content : string) :
  (forall sizes, main file (DocObject None sizes) content
                 = inr ("Unexpected JSON format in " +:+ file)) /\
  main file DocOther content = inr ("Unexpected JSON format in " +:+ file) /\
  (forall items, main file (DocObject (Some items) None) content
                 = main file (DocList items) content) /\
  (forall items, exists out,
      main file (DocList items) content = inl out /\
      dirty_paths_sizes_bytes out = None /\ summary out = None /\
      dirty_paths out
        = sorted (filter (is_dirty (load_non_terminated_uuids content)) items)).
Proof.
  split; [done|]. split; [done|]. split; [done|].
  intros items. eexists. split; [reflexivity|].
  rewrite main_output_cases. rewrite decide_True by by left. done.
Qed.

End ResolverComposition.

(** ** The deletion engine: whole runs *)

Section EngineRuns.
Import Py utils delete_prefixes.
Local Open Scope py_scope.
Context {World : Type}.
Variable s3_client : S3Client World.
Variable list_all_objects_impl : string -> string -> World -> list string * World.
Variable read_json : string -> FileResult.
Variable write_json : string -> option string.

Local Abbreviation delete_objects_batch :=
  (delete_prefixes.delete_objects_batch s3_client).
Local Abbreviation delete_prefix :=
  (delete_prefixes.delete_prefix s3_client list_all_objects_impl).
Local Abbreviation delete_prefixes_concurrent :=
  (delete_prefixes.delete_prefixes_concurrent s3_client list_all_objects_impl).
Local Abbreviation load_dirty_paths_result :=
  (delete_prefixes.load_dirty_paths_result read_json).
Local Abbreviation main_prologue :=
  (delete_prefixes.main_prologue (World := World) read_json).
Local Abbreviation main_processing :=
  (delete_prefixes.main_processing s3_client list_all_objects_impl write_json).
Local Abbreviation main_report :=
  (delete_prefixes.main_report (World := World) write_json).
Local Abbreviation main :=
  (delete_prefixes.main s3_client list_all_objects_impl read_json write_json).
Local Abbreviation log_fails := (delete_prefixes.log_fails write_json).
Local Abbreviation log_calls := (delete_prefixes.log_calls write_json).

Lemma engine_call_ok_mono bucket (l l' : list string) c :
  (forall p, p ∈ l -> p ∈ l') -> engine_call_ok bucket l c -> engine_call_ok bucket l' c.
Proof. intros Hsub. destruct c; cbn; try done. intros [? ?]. split; auto. Qed.

Lemma delete_prefix_trace bucket prefix dry (st : State World) :
  exists r w cs,
    delete_prefix bucket prefix dry st = (Ret r, advance w cs st) /\
    Forall (engine_call_ok bucket [prefix]) cs /\
    (dry = true -> mutations cs = [] /\ exists found, r = (found, 0%nat, [])).
Proof.
  destruct dry.
  - rewrite delete_prefix_dry. do 3 eexists. split; [reflexivity|]. split.
    + constructor; [|constructor]. split; [done|by left].
    + intros _. split; [done|by eexists].
  - pose proof (delete_prefix_live s3_client list_all_objects_impl bucket prefix st) as E.
    cbv zeta in E. rewrite E. do 3 eexists. split; [reflexivity|]. split; [|done].
    constructor; [split; [done|by left]|].
    apply Forall_fmap. eapply Forall_impl; [apply batches_bounds|].
    intros b Hb. split; [done|exact Hb].
Qed.

(** The collecting loop of [delete_prefixes_concurrent]. *)
Lemma concurrent_loop_trace bucket dry total prefixes
    (acc : gmap string PrefixResult * nat) (st : State World) :
  exists r st2,
    for_each prefixes
      (fun prefix (acc : gmap string PrefixResult * nat) =>
         let '(results, completed) := acc in
         r <- delete_prefix bucket prefix dry ;;
         let completed := (completed + 1)%nat in
         print_progress "Deleting prefixes" completed total ;;;
         ret (<[ prefix := r ]> results, completed))
      acc st = (Ret r, st2) /\
    stdin st2 = stdin st /\
    (exists cs, calls st2 = calls st ++ cs /\
                Forall (engine_call_ok bucket prefixes) cs /\
                (dry = true -> mutations cs = [])) /\
    stdout st2 = stdout st ++
      (if decide (total = 0%nat) then []
       else progress_lines "Deleting prefixes" (snd acc) (length prefixes) total) /\
    dom (fst r) = dom (fst acc) ∪ list_to_set prefixes /\
    (dry = true -> map_Forall (fun _ x => dry_result x) (fst acc) ->
                   map_Forall (fun _ x => dry_result x) (fst r)).
Proof.
  clear read_json write_json.
  revert acc st. induction prefixes as [|p ps IH]; intros [results completed] st.
  - exists (results, completed), st. split; [done|]. split; [done|]. split.
    { exists []. by rewrite app_nil_r. }
    split; [by case_decide; rewrite app_nil_r|]. split; [set_solver|done].
  - cbn [for_each]. unfold bind at 1. unfold bind at 1.
    destruct (delete_prefix_trace bucket p dry st) as (r0 & w & cs & E & Hcs & Hdry).
    rewrite E. cbv zeta. unfold bind at 1.
    assert (Hp : exists st1,
               print_progress "Deleting prefixes" (completed + 1) total (advance w cs st)
               = (Ret tt, st1) /\
               stdin st1 = stdin st /\ calls st1 = calls st ++ cs /\
               stdout st1 = stdout st ++
                 (if decide (total = 0%nat) then []
                  else [Progress "Deleting prefixes" (completed + 1) total])).
    { unfold print_progress. case_decide.
      - eexists. split; [reflexivity|]. cbn. by rewrite app_nil_r.
      - eexists. split; [reflexivity|]. done. }
    destruct Hp as (st1 & Ep & Hin1 & Hc1 & Ho1). rewrite Ep. unfold ret at 1.
    destruct (IH (<[p:=r0]> results, (completed + 1)%nat) st1)
      as (r & st2 & El & Hin2 & (cs2 & Hc2 & Hok2 & Hm2) & Ho2 & Hdom & Hres).
    exists r, st2. split; [exact El|]. split; [congruence|]. split; [|split; [|split]].
    + exists (cs ++ cs2). split; [by rewrite Hc2, Hc1, app_assoc|]. split.
      * apply Forall_app. split.
        -- eapply Forall_impl; [exact Hcs|]. intros c. apply engine_call_ok_mono.
           intros x Hx%list_elem_of_singleton. subst x. by left.
        -- eapply Forall_impl; [exact Hok2|]. intros c. apply engine_call_ok_mono.
           intros x Hx. by right.
      * intros Hd. rewrite mutations_app, (Hm2 Hd), (proj1 (Hdry Hd)). done.
    + rewrite Ho2, Ho1. cbn [snd length]. case_decide; [by rewrite !app_nil_r|].
      rewrite <- app_assoc. f_equal. unfold progress_lines.
      cbn [seq fmap list_fmap app]. f_equal.
      rewrite <- fmap_S_seq, <- list_fmap_compose. apply list_fmap_ext.
      intros _ i _. cbn. f_equal. lia.
    + rewrite Hdom. cbn [fst]. rewrite dom_insert_L. set_solver.
    + intros Hd Hacc. apply (Hres Hd). cbn [fst].
      apply map_Forall_insert_2; [|done]. by apply Hdry.
Qed.

Lemma delete_prefixes_concurrent_trace bucket prefixes max_workers dry
    (st : State World) :
  0 < max_workers ->
  exists results st2,
    delete_prefixes_concurrent bucket prefixes max_workers dry st = (Ret results, st2) /\
    stdin st2 = stdin st /\
    (exists cs, calls st2 = calls st ++ cs /\
                Forall (engine_call_ok bucket prefixes) cs /\
                (dry = true -> mutations cs = [])) /\
    stdout st2 = stdout st ++
      progress_lines "Deleting prefixes" 0 (length prefixes) (length prefixes) /\
    dom results = list_to_set prefixes /\
    (dry = true -> map_Forall (fun _ x => dry_result x) results).
Proof.
  clear read_json write_json.
  intros Hw. unfold delete_prefixes.delete_prefixes_concurrent. cbv zeta.
  rewrite decide_False by (by apply Z.lt_nge).
  destruct (concurrent_loop_trace bucket dry (length prefixes) prefixes (∅, 0%nat) st)
    as (r & st2 & El & Hin & Hcs & Ho & Hdom & Hres).
  cbv zeta in El. unfold bind at 1. rewrite El.
  exists (fst r), st2. split; [done|]. split; [done|]. split; [done|]. split; [|split].
  - rewrite Ho. case_decide as Hz; [|done].
    apply length_zero_iff_nil in Hz. by rewrite Hz.
  - rewrite Hdom. cbn [fst]. rewrite dom_empty_L. set_solver.
  - intros Hd. apply (Hres Hd). apply map_Forall_empty.
Qed.

Lemma total_of_zero (f : PrefixResult -> nat) (results : gmap string PrefixResult) :
  map_Forall (fun _ x => f x = 0%nat) results -> total_of f results = 0%nat.
Proof.
  intros H. unfold total_of.
  assert (HF : Forall (fun kv : string * PrefixResult => f (snd kv) = 0%nat)
                 (map_to_list results)).
  { apply Forall_forall. intros [k v] Hin. apply elem_of_map_to_list in Hin.
    by apply (H k v). }
  induction HF as [|kv l Hkv HF IH]; [done|].
  cbn [fmap list_fmap foldr]. cbn [compose]. by rewrite Hkv, IH.
Qed.

Lemma failed_prefixes_dry (results : gmap string PrefixResult) :
  map_Forall (fun _ x => dry_result x) results -> failed_prefixes true results = [].
Proof.
  intros H.
  destruct (decide (failed_prefixes true results = [])) as [E|E]; [exact E|].
  apply failed_prefixes_nonempty in E as (p & r & Hp & Hr).
  destruct (H p r Hp) as [found ->]. done.
Qed.

(** What [main_report] leaves behind: the results block, then the log
    call and its line when the log is written, then the elapsed time unless
    the log could not be written. *)
Lemma main_report_trace args results (st : State World) :
  stdin (snd (main_report args results st)) = stdin st /\
  world (snd (main_report args results st)) = world st /\
  calls (snd (main_report args results st)) = calls st ++ log_calls args /\
  exists tail,
    stdout (snd (main_report args results st)) =
      stdout st ++
        ResultsBlock (total_of (fun r => fst (fst r)) results)
                     (total_of (fun r => snd (fst r)) results)
                     (total_of (fun r => length (snd r)) results)
                     (fst <$> failed_prefixes (dry_run args) results)
        :: tail /\
    Forall (fun o => match o with Print _ | Elapsed => True | _ => False end) tail.
Proof.
  unfold delete_prefixes.main_report, delete_prefixes.log_calls, bind, out, log_call.
  destruct (log_path args) as [path|]; [destruct (write_json path) as [msg|]|];
    cbn; try case_decide; cbn; rewrite ?app_nil_r;
    (split; [done|]; split; [done|]; split; [done|]);
    eexists; (split; [rewrite <- ?app_assoc; reflexivity|]); by repeat constructor.
Qed.

(** Processing with a positive number of workers. *)
Lemma main_processing_trace args paths (st : State World) :
  0 < workers args ->
  exists results body tail,
    stdin (snd (main_processing args paths st)) = stdin st /\
    calls (snd (main_processing args paths st)) =
      calls st ++ CreateClient (workers args) :: body ++ log_calls args /\
    Forall (engine_call_ok (bucket_name args) paths) body /\
    (dry_run args = true -> mutations body = []) /\
    dom results = list_to_set paths /\
    (dry_run args = true -> map_Forall (fun _ x => dry_result x) results) /\
    stdout (snd (main_processing args paths st)) =
      stdout st ++
        [Print (String PyStr.newline ("Creating S3 client with "
                                      +:+ pretty (workers args) +:+ " workers..."));
         Print (String PyStr.newline
                  (if dry_run args then "Simulating deletion..."
                   else "Starting deletion..."))]
        ++ progress_lines "Deleting prefixes" 0 (length paths) (length paths)
        ++ ResultsBlock (total_of (fun r => fst (fst r)) results)
                        (total_of (fun r => snd (fst r)) results)
                        (total_of (fun r => length (snd r)) results)
                        (fst <$> failed_prefixes (dry_run args) results)
           :: tail /\
    Forall (fun o => match o with Print _ | Elapsed => True | _ => False end) tail.
Proof.
  intros Hw.
  destruct (delete_prefixes_concurrent_trace (bucket_name args) paths (workers args)
              (dry_run args) (snd (main_create_client args st)) Hw)
    as (results & st2 & E & Hin & (cs & Hcs & Hok & Hm) & Ho & Hdom & Hres).
  assert (Hmp : main_processing args paths st = main_report args results st2).
  { by rewrite (main_processing_unfold s3_client), E. }
  rewrite Hmp.
  destruct (main_report_trace args results st2) as (Rin & _ & Rc & tail & Ro & Ht).
  exists results, cs, tail. split; [by rewrite Rin, Hin|]. split.
  { rewrite Rc, Hcs. cbn. rewrite <- !app_assoc. done. }
  split; [done|]. split; [done|]. split; [done|]. split; [done|]. split; [|done].
  rewrite Ro, Ho. cbn. rewrite <- !app_assoc. done.
Qed.

Lemma main_prologue_returns args (st st1 : State World) loaded :
  main_prologue args st = (Ret loaded, st1) ->
  load_dirty_paths_result (input args) = Ret loaded /\ fst loaded <> [] /\
  calls st1 = calls st /\
  (dry_run args = true ->
   stdin st1 = stdin st /\
   stdout st1 = stdout st ++ loading_line (input args)
                  :: summary_lines (bucket_name args) true (fst loaded) (snd loaded)).
Proof.
  intros E.
  pose proof (main_prologue_frame read_json args st) as [Hc _]. rewrite E in Hc.
  destruct (load_dirty_paths_result (input args)) as [[paths sizes]|e] eqn:Hl.
  - destruct (decide (paths = [])) as [->|Hne].
    + by rewrite (main_prologue_empty _ _ _ _ Hl) in E.
    + destruct (dry_run args) eqn:Hdry.
      * rewrite (main_prologue_dry _ _ _ _ _ Hl Hne Hdry) in E.
        injection E as <- <-. done.
      * rewrite (main_prologue_live _ _ _ _ _ Hl Hne Hdry) in E.
        match type of E with
        | context [get_confirmation_loop ?l ?s] =>
            destruct (get_confirmation_loop l s) as [[[|]|e] st2] eqn:Eg
        end; try done.
        injection E as <- <-. done.
  - by rewrite (main_prologue_load_fails _ _ _ _ Hl) in E.
Qed.

(** X7. [delete_objects_batch] and the store's answer.  For an empty key
    list it returns (0, []) without calling the store.  For 1 to 1000 keys it
    makes exactly one bulk-delete call and never raises, whatever the store
    does: an answer gives the number of keys under 'Deleted' (0 when the key
    is absent) and one formatted string per entry under 'Errors'; a
    [ClientError] or any other exception gives count 0 and exactly one error
    string that carries the message. *)
Theorem delete_objects_batch_outcomes bucket keys (st : State World) :
  (keys = [] -> delete_objects_batch bucket keys st = (Ret (0%nat, []), st)) /\
  (keys <> [] -> (length keys <= 1000)%nat ->
   calls (snd (delete_objects_batch bucket keys st))
     = calls st ++ [DeleteObjects bucket keys] /\
   world (snd (delete_objects_batch bucket keys st))
     = snd (s3_delete_objects s3_client bucket keys (world st)) /\
   fst (delete_objects_batch bucket keys st) =
     match fst (s3_delete_objects s3_client bucket keys (world st)) with
     | Answer response =>
         Ret (length (default [] (Deleted response)),
              format_delete_error <$> default [] (Errors response))
     | RaisesClientError msg => Ret (0%nat, ["ClientError: " +:+ msg])
     | RaisesException msg => Ret (0%nat, ["Unexpected error: " +:+ msg])
     end).
Proof.
  split.
  - intros ->. reflexivity.
  - intros Hne Hlen. rewrite (delete_objects_batch_call s3_client) by done.
    cbn [fst snd advance calls world]. split; [done|]. split; [done|].
    destruct (s3_delete_objects s3_client bucket keys (world st)) as [[resp|msg|msg] w];
      cbn [fst]; [|done|done].
    unfold success_count, error_strings.
    destruct (Deleted resp), (Errors resp); reflexivity.
Qed.

(** X8. A prefix under which nothing is listed is fully processed and is
    not an error: in live mode as in a dry run [delete_prefix] returns
    (0, 0, []) after the listing alone, without any bulk-delete call, and
    [main] does not count such a result as failed. *)
Theorem empty_prefix_is_not_an_error bucket prefix dry (st : State World) :
  fst (list_all_objects_impl bucket prefix (world st)) = [] ->
  delete_prefix bucket prefix dry st =
    (Ret (0%nat, 0%nat, []),
     advance (snd (list_all_objects_impl bucket prefix (world st)))
       [ListAllObjects bucket prefix] st) /\
  had_errors dry (0%nat, 0%nat, []) = false.
Proof.
  intros He. split; [|by destruct dry].
  destruct dry.
  - rewrite delete_prefix_dry, He. reflexivity.
  - pose proof (delete_prefix_live s3_client list_all_objects_impl bucket prefix st) as E.
    cbv zeta in E. rewrite E, He. reflexivity.
Qed.

(** X9. A dry run, from start to end: [main] issues no bulk-delete call,
    reads nothing from standard input and shows no prompt; when it reaches
    the report, the totals of the report are 0 deleted and 0 errors, and no
    prefix is listed as failed. *)
Theorem dry_run_changes_nothing args (st : State World) :
  dry_run args = true ->
  mutations (calls (snd (main args st))) = mutations (calls st) /\
  stdin (snd (main args st)) = stdin st /\
  exists os, stdout (snd (main args st)) = stdout st ++ os /\
    Forall (fun o => is_prompt o = false) os /\
    (forall found deleted errors failed,
        ResultsBlock found deleted errors failed ∈ os ->
        deleted = 0%nat /\ errors = 0%nat /\ failed = []).
Proof.
  intros Hdry. rewrite main_unfold.
  destruct (main_prologue args st) as [[loaded|e] st1] eqn:Ep.
  - destruct (main_prologue_returns _ _ _ _ Ep) as (Hl & Hne & Hc1 & Hd).
    destruct (Hd Hdry) as [Hin1 Ho1].
    destruct (decide (workers args <= 0)) as [Hw|Hw].
    { rewrite (main_processing_no_workers s3_client) by done.
      cbn [fst snd]. unfold main_create_client, bind, out, create_s3_client, log_call.
      cbn [snd add_call add_out calls stdin stdout]. split; [|split].
      - rewrite Hc1, mutations_app. cbn. by rewrite app_nil_r.
      - done.
      - eexists. split; [rewrite Ho1, <- !app_assoc; reflexivity|].
        split; [by repeat constructor|].
        intros ???? Hin0. cbn in Hin0.
        repeat (apply elem_of_cons in Hin0 as [Hin0|Hin0]; [done|]).
        by apply elem_of_nil in Hin0. }
    destruct (main_processing_trace args (fst loaded) st1 ltac:(lia))
      as (results & body & tail & Hin & Hc & Hok & Hm & Hdom & Hres & Ho & Ht).
    specialize (Hm Hdry). specialize (Hres Hdry).
    split; [|split].
    + rewrite Hc, Hc1. rewrite mutations_app.
      change (CreateClient (workers args) :: ?l)
        with ([CreateClient (workers args)] ++ l).
      rewrite !mutations_app, Hm. unfold delete_prefixes.log_calls.
      destruct (log_path args) as [path|]; [destruct (write_json path)|];
        cbn; by rewrite app_nil_r.
    + by rewrite Hin.
    + eexists. split; [rewrite Ho, Ho1, <- app_assoc; reflexivity|].
      rewrite Hdry.
      rewrite (failed_prefixes_dry _ Hres).
      rewrite (total_of_zero (fun r => snd (fst r)) results)
        by (intros k x Hk; by destruct (Hres k x Hk) as [f ->]).
      rewrite (total_of_zero (fun r => length (snd r)) results)
        by (intros k x Hk; by destruct (Hres k x Hk) as [f ->]).
      assert (Htail : Forall (fun o => is_prompt o = false) tail).
      { eapply Forall_impl; [exact Ht|]. by intros []. }
      split.
      * cbn. repeat (constructor; [done|]).
        apply Forall_app. split.
        -- unfold progress_lines. by apply Forall_fmap, Forall_true.
        -- by constructor.
      * intros found deleted errors failed Hin0. cbn in Hin0.
        repeat (apply elem_of_cons in Hin0 as [Hin0|Hin0]; [done|]).
        apply elem_of_app in Hin0 as [Hin0|Hin0].
        { unfold progress_lines in Hin0.
          apply list_elem_of_fmap in Hin0 as (i & Hi & _). done. }
        apply elem_of_cons in Hin0 as [Hin0|Hin0]; [by injection Hin0 as -> -> -> ->|].
        rewrite Forall_forall in Ht. by apply Ht in Hin0.
  - cbn [fst snd].
    pose proof (main_prologue_frame read_json args st) as [Hc _]. rewrite Ep in Hc.
    cbn [snd] in Hc. rewrite Hc. split; [done|].
    destruct (load_dirty_paths_result (input args)) as [[paths sizes]|e0] eqn:Hl.
    + destruct (decide (paths = [])) as [->|Hne].
      * rewrite (main_prologue_empty _ _ _ _ Hl) in Ep. injection Ep as <- <-.
        split; [done|]. eexists. split; [reflexivity|]. split; [by repeat constructor|].
        intros ???? Hin0. repeat (apply elem_of_cons in Hin0 as [Hin0|Hin0]; [done|]).
        by apply elem_of_nil in Hin0.
      * by rewrite (main_prologue_dry _ _ _ _ _ Hl Hne Hdry) in Ep.
    + rewrite (main_prologue_load_fails _ _ _ _ Hl) in Ep. injection Ep as <- <-.
      split; [done|]. eexists. split; [reflexivity|]. split; [by repeat constructor|].
      intros ???? Hin0. repeat (apply elem_of_cons in Hin0 as [Hin0|Hin0]; [done|]).
      by apply elem_of_nil in Hin0.
Qed.

(** X10. Input errors are fatal before anything else happens.  When the
    input file cannot be read or parsed, is not a JSON object, or has a
    'dirty_paths' entry that is not a list, [main] prints the error and
    exits with status 1, in either mode, without reading standard input,
    creating a client or calling the store.  A size map of the wrong type
    is not an error: the paths load with an empty size map. *)
Theorem malformed_input_is_fatal_early args (st : State World) :
  ((exists msg, read_json (input args) = Unreadable msg) \/
   (exists t, read_json (input args) = Parsed (DocNotADict t)) \/
   (exists t sz,
       read_json (input args) = Parsed (DocDict (Some (PathsNotAList t)) sz)) ->
   exists e,
     main args st =
       (Raise (SystemExit 1),
        emit [loading_line (input args);
              Print ("Error loading input file: " +:+ exn_str e)] st)) /\
  (forall paths,
      read_json (input args)
        = Parsed (DocDict (Some (PathsList paths)) (Some SizesNotADict)) ->
      load_dirty_paths_result (input args) = Ret (paths, ∅)).
Proof.
  split.
  - intros H.
    assert (He : exists e, load_dirty_paths_result (input args) = Raise e).
    { unfold delete_prefixes.load_dirty_paths_result.
      destruct H as [[msg ->]|[[t ->]|(t & sz & ->)]]; by eexists. }
    destruct He as [e He]. exists e.
    by rewrite main_unfold, (main_prologue_load_fails _ _ _ _ He).
  - intros paths Hr. unfold delete_prefixes.load_dirty_paths_result.
    by rewrite Hr.
Qed.

(** X11. Every submitted prefix is accounted for.  With a positive number
    of workers, [delete_prefixes_concurrent] lets no exception escape, its
    results have an entry for each prefix of the list and for nothing else
    (a prefix listed twice has one entry), and one progress line is written
    per prefix, numbered from 1 to the number of prefixes.  With a number
    of workers that is not positive the pool cannot be created: the call
    raises [ValueError] before any prefix is touched. *)
Theorem every_prefix_has_a_result bucket prefixes max_workers dry (st : State World) :
  (0 < max_workers ->
   exists results st2,
     delete_prefixes_concurrent bucket prefixes max_workers dry st = (Ret results, st2) /\
     (forall p, is_Some (results !! p) <-> p ∈ prefixes) /\
     stdout st2 = stdout st ++
       progress_lines "Deleting prefixes" 0 (length prefixes) (length prefixes) /\
     stdin st2 = stdin st) /\
  (max_workers <= 0 ->
   delete_prefixes_concurrent bucket prefixes max_workers dry st =
   (Raise (ValueError "max_workers must be greater than 0"), st)).
Proof.
  clear read_json write_json. split.
  - intros Hw.
    destruct (delete_prefixes_concurrent_trace bucket prefixes max_workers dry st Hw)
      as (results & st2 & E & Hin & _ & Ho & Hdom & _).
    exists results, st2. split; [done|]. split; [|done].
    intros p. rewrite <- elem_of_dom, Hdom. apply elem_of_list_to_set.
  - apply delete_prefixes_concurrent_no_workers.
Qed.

(** X12. Without [--dry-run], when standard input ends before a
    recognized answer was given, [input] raises [EOFError]: the run ends
    with that exception (exit status 1) after one prompt and one re-prompt
    per line read and a last prompt, and it has made no store call. *)
Theorem closed_stdin_aborts args (st : State World) paths sizes :
  dry_run args = false ->
  load_dirty_paths_result (input args) = Ret (paths, sizes) -> paths <> [] ->
  Forall (fun l => ~ recognized l) (stdin st) ->
  fst (main args st) = Raise EOFError /\
  exit_status (fst (main args st)) = 1 /\
  calls (snd (main args st)) = calls st /\
  world (snd (main args st)) = world st /\
  stdout (snd (main args st)) =
    stdout st ++ loading_line (input args)
      :: summary_lines (bucket_name args) false paths sizes
      ++ [Print warning_text; Print undone_text]
      ++ reprompts (stdin st) ++ [Prompt prompt_text].
Proof.
  intros Hdry Hl Hne Hbad.
  rewrite main_unfold, (main_prologue_live _ _ _ _ _ Hl Hne Hdry).
  rewrite get_confirmation_loop_eof by done.
  cbn [fst snd exit_status set_stdin emit calls world stdout].
  repeat split. rewrite <- !app_assoc. done.
Qed.

(** X13. The calls of a whole run.  [main] either makes no call at all, or
    it creates the client once, first.  With a number of workers that is not
    positive that is its only call.  Otherwise it then makes only listings
    of prefixes from the loaded list and bulk deletes of 1 to 1000 keys, all
    in the bucket named on the command line, and none of them a bulk delete
    in a dry run; the log file is written last, when a name that is not
    empty was given for it and the file can be written. *)
Theorem main_call_discipline args (st : State World) :
  calls (snd (main args st)) = calls st \/
  exists paths sizes,
    load_dirty_paths_result (input args) = Ret (paths, sizes) /\
    ((workers args <= 0 /\
      calls (snd (main args st)) = calls st ++ [CreateClient (workers args)]) \/
     (0 < workers args /\
      exists body,
        calls (snd (main args st)) =
          calls st ++ CreateClient (workers args)
                      :: body ++ match output_log args with
                                 | Some (String c path) =>
                                     match write_json (String c path) with
                                     | None => [WriteLog (String c path)]
                                     | Some _ => []
                                     end
                                 | _ => []
                                 end /\
        Forall (engine_call_ok (bucket_name args) paths) body /\
        (dry_run args = true -> mutations body = []))).
Proof.
  rewrite main_unfold.
  destruct (main_prologue args st) as [[[paths sizes]|e] st1] eqn:Ep.
  - right. destruct (main_prologue_returns _ _ _ _ Ep) as (Hl & Hne & Hc1 & _).
    exists paths, sizes. split; [done|]. cbn [fst].
    destruct (decide (workers args <= 0)) as [Hw|Hw].
    + left. split; [done|].
      rewrite (main_processing_no_workers s3_client) by done.
      cbn [snd]. unfold main_create_client, bind, out, create_s3_client, log_call.
      cbn [snd add_call add_out calls]. by rewrite Hc1.
    + right. split; [lia|].
      destruct (main_processing_trace args paths st1 ltac:(lia))
        as (results & body & tail & _ & Hc & Hok & Hm & _).
      exists body. split; [|done]. rewrite Hc, Hc1.
      unfold delete_prefixes.log_calls, log_path.
      by destruct (output_log args) as [[|c path]|].
  - left. pose proof (main_prologue_frame read_json args st) as [Hc _].
    by rewrite Ep in Hc.
Qed.

End EngineRuns.

(** ** The paginated listing helpers: complete runs and what they leave *)

Section PaginationRuns.
Import PyStr Py utils.
Local Open Scope py_scope.
Context {World : Type}.
Variable s3_client : S3Client World.

Local Abbreviation list_next_level_prefixes :=
  (utils.list_next_level_prefixes s3_client).
Local Abbreviation sum_sizes_in_prefix := (utils.sum_sizes_in_prefix s3_client).
Local Abbreviation pages_then_end := (utils.pages_then_end s3_client).

Section LoopRuns.
Context {S : Type}.
Variable bucket_name prefix : string.
Variable delimiter : option string.
Variable step : S -> ListResponse -> S.
Variable turn : S * option string -> M World (Ctl (S * option string)).

Hypothesis turn_answer : forall acc token (st : State World) page w1,
  s3_list_objects_v2 s3_client
    (list_params bucket_name prefix delimiter token) (world st) = (Answer page, w1) ->
  turn (acc, token) st =
  (Ret (if truthy (NextContinuationToken page)
        then Continue (step acc page, NextContinuationToken page)
        else Break (step acc page, NextContinuationToken page)),
   advance w1 [ListObjectsV2 (list_params bucket_name prefix delimiter token)] st).

Hypothesis turn_failure : forall acc token (st : State World) r w1,
  s3_list_objects_v2 s3_client
    (list_params bucket_name prefix delimiter token) (world st) = (r, w1) ->
  failed r = true ->
  exists line,
    turn (acc, token) st =
    (Ret (Break (acc, token)),
     emit [Print line]
       (advance w1 [ListObjectsV2 (list_params bucket_name prefix delimiter token)] st)).

Lemma loop_pages_then_end token w pages w' :
  pages_then_end bucket_name prefix delimiter token w pages w' ->
  forall fuel acc (st : State World),
    world st = w -> (length pages <= fuel)%nat ->
    exists token',
      while_true fuel turn (acc, token) st =
      Some (Ret (foldl step acc pages, token'),
            advance w' (listing_calls bucket_name prefix delimiter token pages) st).
Proof.
  induction 1 as [token w page w' E Ht|token w page w1 pages w' E Ht Hrest IH];
    intros fuel acc st Hw Hfuel.
  - destruct fuel as [|fuel]; [simpl in Hfuel; lia|]. subst w.
    exists (NextContinuationToken page). cbn [while_true].
    by rewrite (turn_answer _ _ _ _ _ E), Ht.
  - destruct fuel as [|fuel]; [simpl in Hfuel; lia|]. subst w.
    cbn [while_true]. rewrite (turn_answer _ _ _ _ _ E), Ht.
    destruct (IH fuel (step acc page)
                (advance w1 [ListObjectsV2
                               (list_params bucket_name prefix delimiter token)] st)
                eq_refl) as [token' El].
    { simpl in Hfuel. lia. }
    exists token'. rewrite El. cbn [foldl listing_calls].
    by rewrite advance_advance.
Qed.

(** Whatever the store does, a loop that ends has made between one call and
    [fuel] calls, all of them listing calls of this pagination; it has read
    nothing, and its result keeps every property the steps keep. *)
Lemma loop_frame (P : S -> Prop) fuel acc token (st st' : State World) o :
  (forall a page, P a -> P (step a page)) -> P acc ->
  while_true fuel turn (acc, token) st = Some (o, st') ->
  stdin st' = stdin st /\
  (exists cs, calls st' = calls st ++ cs /\
              Forall (is_listing_call bucket_name prefix delimiter) cs /\
              (1 <= length cs <= fuel)%nat) /\
  exists a token', o = Ret (a, token') /\ P a.
Proof.
  intros Hstep. revert acc token st.
  induction fuel as [|fuel IH]; intros acc token st Hacc H; [done|].
  cbn [while_true] in H.
  destruct (s3_list_objects_v2 s3_client
              (list_params bucket_name prefix delimiter token) (world st))
    as [r w1] eqn:E.
  destruct r as [page|msg|msg].
  - rewrite (turn_answer _ _ _ _ _ E) in H.
    destruct (truthy (NextContinuationToken page)).
    + destruct (IH _ _ _ (Hstep _ page Hacc) H) as (Hin & (cs & Hc & Hok & Hlen) & Hres).
      split; [done|]. split; [|done].
      exists (ListObjectsV2 (list_params bucket_name prefix delimiter token) :: cs).
      split; [rewrite Hc; cbn; by rewrite <- app_assoc|].
      split; [constructor; [by eexists|done]|]. cbn [length]. lia.
    + injection H as <- <-. split; [done|]. split.
      * eexists. split; [reflexivity|]. split; [|cbn; lia].
        constructor; [by eexists|constructor].
      * do 2 eexists. split; [reflexivity|]. by apply Hstep.
  - destruct (turn_failure acc token st _ w1 E eq_refl) as [line Et].
    rewrite Et in H. injection H as <- <-. split; [done|]. split.
    + eexists. split; [reflexivity|]. split; [|cbn; lia].
      constructor; [by eexists|constructor].
    + by do 2 eexists.
  - destruct (turn_failure acc token st _ w1 E eq_refl) as [line Et].
    rewrite Et in H. injection H as <- <-. split; [done|]. split.
    + eexists. split; [reflexivity|]. split; [|cbn; lia].
      constructor; [by eexists|constructor].
    + by do 2 eexists.
Qed.
End LoopRuns.

Lemma list_next_level_prefixes_turn_answer bucket_name prefix acc token
    (st : State World) page w1 :
  s3_list_objects_v2 s3_client
    (list_params bucket_name prefix (Some "/") token) (world st) = (Answer page, w1) ->
  list_next_level_prefixes_turn s3_client bucket_name prefix (acc, token) st =
  (Ret (if truthy (NextContinuationToken page)
        then Continue (children_step prefix acc page, NextContinuationToken page)
        else Break (children_step prefix acc page, NextContinuationToken page)),
   advance w1 [ListObjectsV2 (list_params bucket_name prefix (Some "/") token)] st).
Proof.
  intros E. unfold list_next_level_prefixes_turn, try_except, bind, list_objects_v2.
  rewrite E. cbn [lift_client]. by destruct (truthy _).
Qed.

Lemma list_next_level_prefixes_turn_failure bucket_name prefix acc token
    (st : State World) r w1 :
  s3_list_objects_v2 s3_client
    (list_params bucket_name prefix (Some "/") token) (world st) = (r, w1) ->
  failed r = true ->
  exists line,
    list_next_level_prefixes_turn s3_client bucket_name prefix (acc, token) st =
    (Ret (Break (acc, token)),
     emit [Print line]
       (advance w1 [ListObjectsV2 (list_params bucket_name prefix (Some "/") token)] st)).
Proof.
  intros E Hf. unfold list_next_level_prefixes_turn, try_except, bind, list_objects_v2.
  rewrite E. destruct r as [page|msg|msg]; [done| |]; cbn; by eexists.
Qed.

Lemma sum_sizes_in_prefix_turn_answer bucket_name prefix acc token
    (st : State World) page w1 :
  s3_list_objects_v2 s3_client
    (list_params bucket_name prefix None token) (world st) = (Answer page, w1) ->
  sum_sizes_in_prefix_turn s3_client bucket_name prefix (acc, token) st =
  (Ret (if truthy (NextContinuationToken page)
        then Continue (sizes_step acc page, NextContinuationToken page)
        else Break (sizes_step acc page, NextContinuationToken page)),
   advance w1 [ListObjectsV2 (list_params bucket_name prefix None token)] st).
Proof.
  intros E. unfold sum_sizes_in_prefix_turn, try_except, bind, list_objects_v2.
  rewrite E. cbn [lift_client]. by destruct (truthy _).
Qed.

Lemma sum_sizes_in_prefix_turn_failure bucket_name prefix acc token
    (st : State World) r w1 :
  s3_list_objects_v2 s3_client
    (list_params bucket_name prefix None token) (world st) = (r, w1) ->
  failed r = true ->
  exists line,
    sum_sizes_in_prefix_turn s3_client bucket_name prefix (acc, token) st =
    (Ret (Break (acc, token)),
     emit [Print line]
       (advance w1 [ListObjectsV2 (list_params bucket_name prefix None token)] st)).
Proof.
  intros E Hf. unfold sum_sizes_in_prefix_turn, try_except, bind, list_objects_v2.
  rewrite E. destruct r as [page|msg|msg]; [done| |]; cbn; by eexists.
Qed.

Lemma endswith_char_snoc c s : endswith_char c (s +:+ String c EmptyString) = true.
Proof.
  induction s as [|d s IH].
  { change (bool_decide (c = c) = true). by apply bool_decide_eq_true. }
  rewrite app_cons. cbn [endswith_char].
  destruct (s +:+ String c EmptyString) eqn:E; [by destruct s|done].
Qed.

Lemma drop_last_snoc c s : drop_last (s +:+ String c EmptyString) = s.
Proof.
  induction s as [|d s IH]; [done|].
  rewrite app_cons. cbn [drop_last].
  destruct (s +:+ String c EmptyString) eqn:E; [by destruct s|]. by rewrite IH.
Qed.

Lemma add_common_prefix_child prefix (acc : gset string) full :
  add_common_prefix prefix acc full =
  match child_name prefix full with
  | Some c => acc ∪ {[ c ]}
  | None => acc
  end.
Proof. unfold add_common_prefix, child_name. cbv zeta. by case_decide. Qed.

Lemma child_name_nonempty prefix full c : child_name prefix full = Some c -> c <> EmptyString.
Proof.
  unfold child_name. cbv zeta. case_decide; [done|]. by intros [= <-].
Qed.

Lemma children_fold_elem prefix (acc : gset string) cps c :
  c ∈ foldl (add_common_prefix prefix) acc cps <->
  c ∈ acc \/ exists full, full ∈ cps /\ child_name prefix full = Some c.
Proof.
  revert acc. induction cps as [|x cps IH]; intros acc.
  - cbn. split; [by left|]. intros [?|(full & Hin & _)]; [done|].
    by apply elem_of_nil in Hin.
  - cbn [foldl]. rewrite IH, add_common_prefix_child. split.
    + intros [Hc|(full & Hin & Hn)].
      * destruct (child_name prefix x) as [c'|] eqn:E; [|by left].
        apply elem_of_union in Hc as [?|Hc%elem_of_singleton]; [by left|].
        subst c'. right. exists x. split; [by left|done].
      * right. exists full. split; [by right|done].
    + intros [Hc|(full & Hin & Hn)].
      * left. destruct (child_name prefix x); [|done]. apply elem_of_union. by left.
      * apply elem_of_cons in Hin as [->|Hin].
        -- left. rewrite Hn. apply elem_of_union. right. by apply elem_of_singleton.
        -- right. eauto.
Qed.

Lemma children_pages_elem prefix (acc : gset string) pages c :
  c ∈ foldl (children_step prefix) acc pages <->
  c ∈ acc \/
  exists page cps full,
    page ∈ pages /\ CommonPrefixes page = Some cps /\ full ∈ cps /\
    child_name prefix full = Some c.
Proof.
  revert acc. induction pages as [|page pages IH]; intros acc.
  - cbn. split; [by left|]. intros [?|(page & cps & full & Hin & _)]; [done|].
    by apply elem_of_nil in Hin.
  - cbn [foldl]. rewrite IH. unfold children_step. split.
    + intros [Hc|(pg & cps & full & Hin & Hcps & Hf & Hn)].
      * destruct (CommonPrefixes page) as [cps|] eqn:E; [|by left].
        apply children_fold_elem in Hc as [?|(full & Hf & Hn)]; [by left|].
        right. exists page, cps, full. split; [by left|done].
      * right. exists pg, cps, full. split; [by right|done].
    + intros [Hc|(pg & cps & full & Hin & Hcps & Hf & Hn)].
      * left. destruct (CommonPrefixes page); [|done].
        apply children_fold_elem. by left.
      * apply elem_of_cons in Hin as [->|Hin].
        -- left. rewrite Hcps. apply children_fold_elem. right. eauto.
        -- right. exists pg, cps, full. done.
Qed.

Lemma add_sizes_sum (total : Z) (contents : list S3Object) :
  add_sizes total contents
  = total + foldr Z.add 0 ((fun obj => default 0 (Size obj)) <$> contents).
Proof.
  unfold add_sizes. revert total.
  induction contents as [|o l IH]; intros total; cbn; [lia|]. rewrite IH. lia.
Qed.

Lemma sizes_pages_sum (total : Z) pages :
  foldl sizes_step total pages = total + foldr Z.add 0 (listed_sizes pages).
Proof.
  unfold listed_sizes. revert total.
  induction pages as [|page pages IH]; intros total; cbn; [lia|].
  rewrite IH. unfold sizes_step. rewrite add_sizes_sum, fmap_app, foldr_app.
  generalize ((fun obj => default 0 (Size obj))
                <$> concat ((fun page => default [] (Contents page)) <$> pages)).
  intros l2.
  generalize ((fun obj => default 0 (Size obj)) <$> default [] (Contents page)).
  intros l1. induction l1 as [|x l1 IH1]; cbn; lia.
Qed.

(** X14. A pagination of [list_next_level_prefixes] that runs to its end.
    When the store answers every call and the last page names no further
    page (no token, or an empty one), the function returns, given fuel for
    the pages, exactly the child names of the common prefixes of all pages.
    It makes one listing call per page, the first without a continuation
    token and each later one with the token the page before named, and it
    writes nothing to the console. *)
Theorem list_next_level_prefixes_complete bucket_name prefix (st : State World)
    pages w' fuel :
  pages_then_end bucket_name prefix (Some "/") None (world st) pages w' ->
  (length pages <= fuel)%nat ->
  exists children,
    list_next_level_prefixes fuel bucket_name prefix st =
      Some (Ret children,
            advance w' (listing_calls bucket_name prefix (Some "/") None pages) st) /\
    forall c, c ∈ children <->
      exists page cps full,
        page ∈ pages /\ CommonPrefixes page = Some cps /\ full ∈ cps /\
        child_name prefix full = Some c.
Proof.
  intros Hp Hfuel.
  destruct (loop_pages_then_end bucket_name prefix (Some "/") (children_step prefix)
              (list_next_level_prefixes_turn s3_client bucket_name prefix)
              (list_next_level_prefixes_turn_answer bucket_name prefix)
              None (world st) pages w' Hp fuel ∅ st eq_refl Hfuel) as [token' E].
  exists (foldl (children_step prefix) ∅ pages). split.
  - unfold utils.list_next_level_prefixes. by rewrite E.
  - intros c. rewrite children_pages_elem. split; [|by right].
    intros [?%not_elem_of_empty|?]; done.
Qed.

(** X15. A pagination of [sum_sizes_in_prefix] that runs to its end
    returns, given fuel for the pages, the sum of the sizes of all objects
    on all pages, an object without 'Size' and a page without 'Contents'
    adding nothing; it makes one listing call per page, without delimiter,
    following the continuation tokens. *)
Theorem sum_sizes_in_prefix_complete bucket_name prefix (st : State World)
    pages w' fuel :
  pages_then_end bucket_name prefix None None (world st) pages w' ->
  (length pages <= fuel)%nat ->
  sum_sizes_in_prefix fuel bucket_name prefix st =
    Some (Ret (foldr Z.add 0 (listed_sizes pages)),
          advance w' (listing_calls bucket_name prefix None None pages) st).
Proof.
  intros Hp Hfuel.
  destruct (loop_pages_then_end bucket_name prefix None sizes_step
              (sum_sizes_in_prefix_turn s3_client bucket_name prefix)
              (sum_sizes_in_prefix_turn_answer bucket_name prefix)
              None (world st) pages w' Hp fuel 0 st eq_refl Hfuel) as [token' E].
  unfold utils.sum_sizes_in_prefix. rewrite E.
  by rewrite sizes_pages_sum, Z.add_0_l.
Qed.

(** X16. Child names.  A common prefix made of the listing prefix, a
    non-empty name and a final '/' contributes exactly that name.  A common
    prefix that leaves nothing after the listing prefix, or only '/',
    contributes nothing, so whatever the store does no result of
    [list_next_level_prefixes] contains the empty string. *)
Theorem child_names_nonempty bucket_name prefix :
  (forall name (acc : gset string),
      name <> EmptyString ->
      add_common_prefix prefix acc (prefix +:+ name +:+ "/") = acc ∪ {[ name ]}) /\
  (forall acc : gset string,
      add_common_prefix prefix acc prefix = acc /\
      add_common_prefix prefix acc (prefix +:+ "/") = acc) /\
  (forall fuel (st st' : State World) children,
      list_next_level_prefixes fuel bucket_name prefix st = Some (Ret children, st') ->
      EmptyString ∉ children).
Proof.
  split; [|split].
  - intros name acc Hne. rewrite add_common_prefix_child. unfold child_name. cbv zeta.
    rewrite slice_from_app, endswith_char_snoc, drop_last_snoc.
    by rewrite decide_False.
  - intros acc. rewrite !add_common_prefix_child. unfold child_name. cbv zeta.
    assert (E1 : slice_from (String.length prefix) prefix = EmptyString).
    { clear. induction prefix as [|c p IH]; [done|exact IH]. }
    rewrite E1, slice_from_app. done.
  - intros fuel st st' children H. unfold utils.list_next_level_prefixes in H.
    destruct (while_true fuel _ _ st) as [[[[v tok]|e] st1]|] eqn:E; [| |done].
    + injection H as <- <-.
      assert (Hstep : forall (a : gset string) page,
                 EmptyString ∉ a -> EmptyString ∉ children_step prefix a page).
      { intros a page Ha Hin. unfold children_step in Hin.
        destruct (CommonPrefixes page) as [cps|]; [|done].
        apply children_fold_elem in Hin as [?|(full & _ & Hn)]; [done|].
        by apply child_name_nonempty in Hn. }
      destruct (loop_frame bucket_name prefix (Some "/") (children_step prefix)
                  (list_next_level_prefixes_turn s3_client bucket_name prefix)
                  (list_next_level_prefixes_turn_answer bucket_name prefix)
                  (list_next_level_prefixes_turn_failure bucket_name prefix)
                  (fun a : gset string => EmptyString ∉ a) fuel ∅ None st st1
                  (Ret (v, tok)) Hstep (not_elem_of_empty _) E)
        as (_ & _ & (a & token' & Heq & Ha)).
      by injection Heq as <- <-.
    + done.
Qed.

(** X17. What the listing helpers leave behind.  Whatever the store does,
    a call of [list_next_level_prefixes] or [sum_sizes_in_prefix] that ends
    has made at least one and at most [fuel] store calls, all of them
    listings of the given bucket and prefix (with delimiter '/' for the
    first helper, without for the second); it has made no bulk delete and
    has read nothing from standard input. *)
Theorem listing_helpers_only_list bucket_name prefix fuel (st st' : State World) :
  (forall o, list_next_level_prefixes fuel bucket_name prefix st = Some (o, st') ->
     stdin st' = stdin st /\
     mutations (calls st') = mutations (calls st) /\
     exists cs, calls st' = calls st ++ cs /\
       Forall (is_listing_call bucket_name prefix (Some "/")) cs /\
       (1 <= length cs <= fuel)%nat) /\
  (forall o, sum_sizes_in_prefix fuel bucket_name prefix st = Some (o, st') ->
     stdin st' = stdin st /\
     mutations (calls st') = mutations (calls st) /\
     exists cs, calls st' = calls st ++ cs /\
       Forall (is_listing_call bucket_name prefix None) cs /\
       (1 <= length cs <= fuel)%nat).
Proof.
  assert (Hmut : forall delimiter cs,
             Forall (is_listing_call bucket_name prefix delimiter) cs ->
             mutations cs = []).
  { intros delimiter cs HF. induction HF as [|c cs [tok ->] HF IH]; [done|].
    exact IH. }
  split.
  - intros o H. unfold utils.list_next_level_prefixes in H.
    destruct (while_true fuel _ _ st) as [[o1 st1]|] eqn:E; [|done].
    assert (st1 = st') as -> by (destruct o1 as [[? ?]|?]; by injection H).
    destruct (loop_frame bucket_name prefix (Some "/") (children_step prefix)
                (list_next_level_prefixes_turn s3_client bucket_name prefix)
                (list_next_level_prefixes_turn_answer bucket_name prefix)
                (list_next_level_prefixes_turn_failure bucket_name prefix)
                (fun _ => True) fuel ∅ None st st' o1)
      as (Hin & (cs & Hc & Hok & Hlen) & _); [done..|].
    split; [done|]. split; [|by exists cs].
    by rewrite Hc, mutations_app, (Hmut _ _ Hok), app_nil_r.
  - intros o H. unfold utils.sum_sizes_in_prefix in H.
    destruct (while_true fuel _ _ st) as [[o1 st1]|] eqn:E; [|done].
    assert (st1 = st') as -> by (destruct o1 as [[? ?]|?]; by injection H).
    destruct (loop_frame bucket_name prefix None sizes_step
                (sum_sizes_in_prefix_turn s3_client bucket_name prefix)
                (sum_sizes_in_prefix_turn_answer bucket_name prefix)
                (sum_sizes_in_prefix_turn_failure bucket_name prefix)
                (fun _ => True) fuel 0 None st st' o1)
      as (Hin & (cs & Hc & Hok & Hlen) & _); [done..|].
    split; [done|]. split; [|by exists cs].
    by rewrite Hc, mutations_app, (Hmut _ _ Hok), app_nil_r.
Qed.

End PaginationRuns.

(** ** The enumerators: identifiers *)

Section Identifiers.
Import PyStr Py utils list_backup_prefixes.

Lemma contains_app sep (a b : string) :
  contains sep (a +:+ b) = contains sep a || contains sep b.
Proof.
  induction a as [|x a IH]; [done|].
  rewrite app_cons, !contains_cons, IH. by rewrite orb_assoc.
Qed.

Lemma endswith_char_contains c s : endswith_char c s = true -> contains c s = true.
Proof.
  induction s as [|d s IH]; [done|]. rewrite contains_cons. intros H.
  destruct s as [|d' s'].
  - cbn in H. by rewrite H.
  - rewrite IH; [by rewrite orb_true_r|exact H].
Qed.

Lemma hex_run_inv n s r :
  hex_run n s = Some r ->
  exists h, s = h +:+ r /\ String.length h = n /\ all_hex h = true.
Proof.
  revert s. induction n as [|n IH]; intros s H; cbn [hex_run] in H.
  - injection H as ->. by exists EmptyString.
  - destruct s as [|c s]; [done|]. destruct (is_hex c) eqn:Hc; [|done].
    destruct (IH _ H) as (h & -> & Hl & Hh). exists (String c h).
    cbn [all_hex String.length]. by rewrite Hc, Hh, Hl.
Qed.

Lemma hex_run_app n h r :
  String.length h = n -> all_hex h = true -> hex_run n (h +:+ r) = Some r.
Proof.
  revert n. induction h as [|c h IH]; intros n <- Hh; [done|].
  cbn [all_hex] in Hh. apply andb_true_iff in Hh as [Hc Hh].
  rewrite app_cons. cbn [String.length hex_run]. rewrite Hc. by apply IH.
Qed.

Lemma hyphen_inv s r : hyphen s = Some r -> s = "-" +:+ r.
Proof.
  destruct s as [|c s]; [done|]. unfold hyphen. case_decide; [|done].
  intros [= <-]. by subst c.
Qed.

Lemma at_end_inv s : at_end s = true -> s = EmptyString \/ s = nl.
Proof.
  unfold at_end. intros [H|H]%orb_true_iff; apply bool_decide_eq_true in H; auto.
Qed.

Lemma is_hex_lower c : is_hex (lower_char c) = is_hex c.
Proof. by destruct c as [[] [] [] [] [] [] [] []]. Qed.

Lemma is_hex_not_sep c :
  is_hex c = true -> bool_decide (c = "/"%char) = false /\ c <> "-"%char.
Proof. by destruct c as [[] [] [] [] [] [] [] []]. Qed.

Lemma lower_char_hyphen c :
  bool_decide (lower_char c = "-"%char) = bool_decide (c = "-"%char).
Proof. by destruct c as [[] [] [] [] [] [] [] []]. Qed.

Lemma lower_char_newline c :
  bool_decide (lower_char c = newline) = bool_decide (c = newline).
Proof. by destruct c as [[] [] [] [] [] [] [] []]. Qed.

Lemma hex_run_lower n s : hex_run n (lower s) = lower <$> hex_run n s.
Proof.
  revert s. induction n as [|n IH]; intros s; [done|].
  destruct s as [|c s]; [done|]. cbn [lower hex_run]. rewrite is_hex_lower.
  by destruct (is_hex c).
Qed.

Lemma hyphen_lower s : hyphen (lower s) = lower <$> hyphen s.
Proof.
  destruct s as [|c s]; [done|]. cbn [lower hyphen].
  pose proof (lower_char_hyphen c) as H.
  repeat case_decide; done.
Qed.

Lemma at_end_lower s : at_end (lower s) = at_end s.
Proof.
  destruct s as [|c [|d s]]; [done| |].
  - by destruct c as [[] [] [] [] [] [] [] []].
  - unfold at_end, nl. cbn [lower]. by rewrite !bool_decide_eq_false_2.
Qed.

Lemma all_hex_no_slash h : all_hex h = true -> contains "/" h = false.
Proof.
  induction h as [|c h IH]; [done|]. cbn [all_hex]. intros [Hc Hh]%andb_true_iff.
  rewrite contains_cons, (proj1 (is_hex_not_sep c Hc)). by apply IH.
Qed.

Lemma hyphen_app r : hyphen ("-" +:+ r) = Some r.
Proof. done. Qed.

Lemma uuid_pattern_match s rest :
  foldl (fun rest item => rest ≫= item) (Some s) uuid_pattern = Some rest <->
  exists a b c d e,
    (String.length a = 8 /\ String.length b = 4 /\ String.length c = 4 /\
     String.length d = 4 /\ String.length e = 12)%nat /\
    (all_hex a && all_hex b && all_hex c && all_hex d && all_hex e = true) /\
    s = uuid_text a b c d e +:+ rest.
Proof.
  unfold uuid_pattern, uuid_text. cbn -[hex_run hyphen]. split.
  - intros H.
    destruct (hex_run 8 s) as [s1|] eqn:E1; [|done]. cbn -[hex_run hyphen] in H.
    destruct (hyphen s1) as [s2|] eqn:E2; [|done]. cbn -[hex_run hyphen] in H.
    destruct (hex_run 4 s2) as [s3|] eqn:E3; [|done]. cbn -[hex_run hyphen] in H.
    destruct (hyphen s3) as [s4|] eqn:E4; [|done]. cbn -[hex_run hyphen] in H.
    destruct (hex_run 4 s4) as [s5|] eqn:E5; [|done]. cbn -[hex_run hyphen] in H.
    destruct (hyphen s5) as [s6|] eqn:E6; [|done]. cbn -[hex_run hyphen] in H.
    destruct (hex_run 4 s6) as [s7|] eqn:E7; [|done]. cbn -[hex_run hyphen] in H.
    destruct (hyphen s7) as [s8|] eqn:E8; [|done]. cbn -[hex_run hyphen] in H.
    apply hex_run_inv in E1 as (a & -> & La & Ha).
    apply hyphen_inv in E2 as ->.
    apply hex_run_inv in E3 as (b & -> & Lb & Hb).
    apply hyphen_inv in E4 as ->.
    apply hex_run_inv in E5 as (c & -> & Lc & Hc).
    apply hyphen_inv in E6 as ->.
    apply hex_run_inv in E7 as (d & -> & Ld & Hd).
    apply hyphen_inv in E8 as ->.
    apply hex_run_inv in H as (e & -> & Le & He).
    exists a, b, c, d, e. split; [done|]. split; [by rewrite Ha, Hb, Hc, Hd, He|].
    by rewrite !str_app_assoc.
  - intros (a & b & c & d & e & (La & Lb & Lc & Ld & Le) & Hh & ->).
    repeat (apply andb_true_iff in Hh as [Hh ?]).
    rewrite !str_app_assoc.
    rewrite (hex_run_app 8 a) by done. cbn -[hex_run hyphen].
    rewrite hyphen_app. cbn -[hex_run hyphen].
    rewrite (hex_run_app 4 b) by done. cbn -[hex_run hyphen].
    rewrite hyphen_app. cbn -[hex_run hyphen].
    rewrite (hex_run_app 4 c) by done. cbn -[hex_run hyphen].
    rewrite hyphen_app. cbn -[hex_run hyphen].
    rewrite (hex_run_app 4 d) by done. cbn -[hex_run hyphen].
    rewrite hyphen_app. cbn -[hex_run hyphen].
    by rewrite (hex_run_app 12 e).
Qed.

Lemma is_valid_uuid_no_slash s :
  is_valid_uuid s = true ->
  s <> EmptyString /\ contains "/" s = false /\ endswith_char "/" s = false.
Proof.
  unfold is_valid_uuid. intros H.
  destruct (foldl _ _ _) as [rest|] eqn:E; [|done].
  apply uuid_pattern_match in E
    as (a & b & c & d & e & (La & Lb & Lc & Ld & Le) & Hh & ->).
  repeat (apply andb_true_iff in Hh as [Hh ?]).
  assert (Hc : contains "/" (uuid_text a b c d e +:+ rest) = false).
  { unfold uuid_text.
    rewrite !contains_app, (all_hex_no_slash a), (all_hex_no_slash b),
      (all_hex_no_slash c), (all_hex_no_slash d), (all_hex_no_slash e) by done.
    by destruct (at_end_inv _ H) as [->| ->]. }
  split; [|split; [done|]].
  - destruct a; [done|]. done.
  - destruct (endswith_char "/" _) eqn:Ee; [|done].
    apply endswith_char_contains in Ee. congruence.
Qed.

(** X18. The identifier check.  [is_valid_uuid] accepts exactly the strings
    made of five groups of 8, 4, 4, 4 and 12 hexadecimal digits joined by
    hyphens, optionally followed by one newline.  It does not look at the
    case of the letters, and an accepted string is not empty and contains
    no '/'. *)
Theorem is_valid_uuid_shape (s : string) :
  (is_valid_uuid s = true <->
   exists a b c d e,
     (String.length a = 8 /\ String.length b = 4 /\ String.length c = 4 /\
      String.length d = 4 /\ String.length e = 12)%nat /\
     (all_hex a && all_hex b && all_hex c && all_hex d && all_hex e = true) /\
     (s = uuid_text a b c d e \/ s = uuid_text a b c d e +:+ nl)) /\
  is_valid_uuid (lower s) = is_valid_uuid s /\
  (is_valid_uuid s = true -> s <> EmptyString /\ contains "/" s = false).
Proof.
  split; [|split].
  - unfold is_valid_uuid. split.
    + intros H. destruct (foldl _ _ _) as [rest|] eqn:E; [|done].
      apply uuid_pattern_match in E as (a & b & c & d & e & Hl & Hh & ->).
      exists a, b, c, d, e. split; [done|]. split; [done|].
      destruct (at_end_inv _ H) as [->| ->]; [left|by right].
      by rewrite str_app_nil_r.
    + intros (a & b & c & d & e & Hl & Hh & Hs).
      assert (E : exists rest, at_end rest = true /\
                    s = uuid_text a b c d e +:+ rest).
      { destruct Hs as [->| ->].
        - exists EmptyString. by rewrite str_app_nil_r.
        - by exists nl. }
      destruct E as (rest & Hr & ->).
      assert (Hm : foldl (fun rest item => rest ≫= item)
                     (Some (uuid_text a b c d e +:+ rest)) uuid_pattern = Some rest).
      { apply uuid_pattern_match. by exists a, b, c, d, e. }
      by rewrite Hm.
  - unfold is_valid_uuid.
    assert (Hf : forall (items : list (string -> option string)) (r : option string),
               Forall (fun item => forall x, item (lower x) = lower <$> item x) items ->
               foldl (fun rest item => rest ≫= item) (lower <$> r) items
               = lower <$> foldl (fun rest item => rest ≫= item) r items).
    { intros items. induction items as [|item items IH]; intros r HF; [done|].
      inversion HF as [|? ? Hi HF']; subst. cbn [foldl].
      rewrite <- IH by done. f_equal. destruct r as [x|]; [|done]. apply Hi. }
    change (Some (lower s)) with (lower <$> Some s). rewrite Hf.
    + destruct (foldl _ _ _) as [rest|]; [|done]. apply at_end_lower.
    + unfold uuid_pattern.
      repeat (constructor; [first [apply hex_run_lower|apply hyphen_lower]|]).
      constructor.
  - intros H. destruct (is_valid_uuid_no_slash s H) as (? & ? & _). done.
Qed.

End Identifiers.

(** ** The backup enumerator: discovery of the top-level names *)

Section Discovery.
Import PyStr Py utils list_backup_prefixes.
Local Open Scope py_scope.
Context {World : Type}.
Variable s3_client : S3Client World.

Local Abbreviation discover_ch_s3_prefixes :=
  (list_backup_prefixes.discover_ch_s3_prefixes s3_client).
Local Abbreviation pages_then_end := (utils.pages_then_end s3_client).

Lemma discover_turn_answer bucket_name acc token (st : State World) page w1 :
  s3_list_objects_v2 s3_client
    (list_params bucket_name "ch-s3-" (Some "/") token) (world st) = (Answer page, w1) ->
  discover_ch_s3_prefixes_turn s3_client bucket_name (acc, token) st =
  (Ret (if truthy (NextContinuationToken page)
        then Continue (discover_step acc page, NextContinuationToken page)
        else Break (discover_step acc page, NextContinuationToken page)),
   advance w1 [ListObjectsV2 (list_params bucket_name "ch-s3-" (Some "/") token)] st).
Proof.
  intros E. unfold discover_ch_s3_prefixes_turn, try_except, bind, list_objects_v2.
  rewrite E. cbn [lift_client]. by destruct (truthy _).
Qed.

Lemma discover_turn_failure bucket_name acc token (st : State World) r w1 :
  s3_list_objects_v2 s3_client
    (list_params bucket_name "ch-s3-" (Some "/") token) (world st) = (r, w1) ->
  failed r = true ->
  exists line,
    discover_ch_s3_prefixes_turn s3_client bucket_name (acc, token) st =
    (Ret (Break (acc, token)),
     emit [Print line]
       (advance w1 [ListObjectsV2 (list_params bucket_name "ch-s3-" (Some "/") token)]
          st)).
Proof.
  intros E Hf. unfold discover_ch_s3_prefixes_turn, try_except, bind, list_objects_v2.
  rewrite E. destruct r as [page|msg|msg]; [done| |]; cbn; by eexists.
Qed.

Lemma endswith_drop_last c s :
  endswith_char c s = true -> s = drop_last s +:+ String c EmptyString.
Proof.
  induction s as [|d s IH]; [done|]. intros H. destruct s as [|d' s'].
  - cbn in H. apply bool_decide_eq_true in H. by subst d.
  - cbn [drop_last]. rewrite app_cons. f_equal. by apply IH.
Qed.

Lemma endswith_char_app c (p u : string) :
  u <> EmptyString -> endswith_char c (p +:+ u) = endswith_char c u.
Proof.
  intros Hu. induction p as [|a p IH]; [done|].
  rewrite app_cons. cbn [endswith_char].
  destruct (p +:+ u) eqn:E; [|done].
  destruct p; [|done]. by destruct u.
Qed.

Lemma elem_of_concat {A} (x : A) (ls : list (list A)) :
  x ∈ concat ls <-> exists l, l ∈ ls /\ x ∈ l.
Proof.
  induction ls as [|l ls IH]; cbn [concat].
  - split; [by intros ?%elem_of_nil|]. by intros (l & ?%elem_of_nil & _).
  - rewrite elem_of_app, IH. split.
    + intros [H|(l' & Hl & Hx)]; [exists l; split; [by left|done]|].
      exists l'. split; [by right|done].
    + intros (l' & [->|Hl]%elem_of_cons & Hx); [by left|]. right. eauto.
Qed.

(** A top-level name is kept when it is the literal 'ch-s3-' followed by
    an identifier that passes the check, listed as it is or with one '/'
    after it. *)
Lemma top_level_name_Some full t :
  top_level_name full = Some t <->
  (exists u, t = "ch-s3-" +:+ u /\ is_valid_uuid u = true) /\
  (full = t \/ full = t +:+ "/").
Proof.
  unfold top_level_name. cbv zeta. split.
  - intros H.
    destruct (startswith _ _ && is_valid_uuid _) eqn:E; [|done].
    injection H as <-. apply andb_true_iff in E as [Hs Hv]. split.
    + eexists. split; [|exact Hv]. by apply startswith_split in Hs.
    + destruct (endswith_char "/" full) eqn:Ee; [right|by left].
      by apply endswith_drop_last.
  - intros [(u & -> & Hv) Hf].
    destruct (is_valid_uuid_no_slash u Hv) as (Hne & _ & He).
    assert (Ht : endswith_char "/" ("ch-s3-" +:+ u) = false)
      by (by rewrite endswith_char_app).
    destruct Hf as [->| ->].
    + rewrite Ht, startswith_app.
      change (slice_from 6 ("ch-s3-" +:+ u)) with u. by rewrite Hv.
    + rewrite endswith_char_snoc, drop_last_snoc, startswith_app.
      change (slice_from 6 ("ch-s3-" +:+ u)) with u. by rewrite Hv.
Qed.

Lemma keep_ch_s3_prefix_name acc full :
  keep_ch_s3_prefix acc full = acc ++ option_list (top_level_name full).
Proof.
  unfold keep_ch_s3_prefix, top_level_name. cbv zeta.
  destruct (startswith _ _); cbn [andb]; [|by rewrite app_nil_r].
  destruct (is_valid_uuid _); [done|by rewrite app_nil_r].
Qed.

Lemma discover_fold acc cps :
  foldl keep_ch_s3_prefix acc cps = acc ++ omap top_level_name cps.
Proof.
  revert acc. induction cps as [|full cps IH]; intros acc; cbn [foldl omap].
  - by rewrite app_nil_r.
  - rewrite IH, keep_ch_s3_prefix_name, <- app_assoc. f_equal.
    unfold omap. cbn [list_omap]. by destruct (top_level_name full).
Qed.

Lemma discover_pages acc pages :
  foldl discover_step acc pages =
  acc ++ omap top_level_name
           (concat ((fun page => default [] (CommonPrefixes page)) <$> pages)).
Proof.
  revert acc. induction pages as [|page pages IH]; intros acc; cbn.
  - by rewrite app_nil_r.
  - rewrite IH. unfold discover_step.
    rewrite omap_app, app_assoc. f_equal.
    destruct (CommonPrefixes page) as [cps|]; cbn; [apply discover_fold|].
    by rewrite app_nil_r.
Qed.

(** X19. A discovery that runs to its end.  When the store answers every
    listing of the names under 'ch-s3-' and the last page names no further
    page, [discover_ch_s3_prefixes] returns, given fuel for the pages, a
    sorted list: the kept names of all common prefixes of all pages, a name
    listed twice being returned twice.  A name [t] is returned exactly when
    it is 'ch-s3-' followed by an identifier that passes [is_valid_uuid]
    and some page lists [t] or [t/].  One listing call is made per page,
    following the continuation tokens. *)
Theorem discover_ch_s3_prefixes_complete bucket_name (st : State World)
    pages w' fuel :
  pages_then_end bucket_name "ch-s3-" (Some "/") None (world st) pages w' ->
  (length pages <= fuel)%nat ->
  exists tops,
    discover_ch_s3_prefixes fuel bucket_name st =
      Some (Ret tops,
            advance w' (listing_calls bucket_name "ch-s3-" (Some "/") None pages) st) /\
    Sorted String.le tops /\
    tops ≡ₚ omap top_level_name
              (concat ((fun page => default [] (CommonPrefixes page)) <$> pages)) /\
    forall t, t ∈ tops <->
      (exists u, t = "ch-s3-" +:+ u /\ is_valid_uuid u = true) /\
      exists page cps full,
        page ∈ pages /\ CommonPrefixes page = Some cps /\ full ∈ cps /\
        (full = t \/ full = t +:+ "/").
Proof.
  intros Hp Hfuel.
  destruct (loop_pages_then_end s3_client bucket_name "ch-s3-" (Some "/") discover_step
              (discover_ch_s3_prefixes_turn s3_client bucket_name)
              (discover_turn_answer bucket_name)
              None (world st) pages w' Hp fuel [] st eq_refl Hfuel) as [token' E].
  exists (sorted (foldl discover_step [] pages)).
  split; [|split; [|split]].
  - unfold list_backup_prefixes.discover_ch_s3_prefixes. by rewrite E.
  - apply sorted_Sorted.
  - by rewrite sorted_Permutation, discover_pages.
  - intros t. rewrite sorted_Permutation, discover_pages, app_nil_l.
    rewrite list_elem_of_omap. split.
    + intros (full & Hin & Hn). apply top_level_name_Some in Hn as [Hu Hf].
      split; [done|]. apply elem_of_concat in Hin as (cps & Hc & Hin).
      apply list_elem_of_fmap in Hc as (page & -> & Hpg).
      destruct (CommonPrefixes page) as [cps|] eqn:Ec;
        [|by apply elem_of_nil in Hin].
      by exists page, cps, full.
    + intros [Hu (page & cps & full & Hpg & Hc & Hin & Hf)].
      exists full. split; [|by apply top_level_name_Some].
      apply elem_of_concat. exists cps. split; [|done].
      apply list_elem_of_fmap. exists page. by rewrite Hc.
Qed.

(** X20. Discovery against any store.  Whatever the store does, a call of
    [discover_ch_s3_prefixes] that ends returns a list and lets no
    exception escape; the list is sorted and each of its entries is
    'ch-s3-' followed by an identifier that passes [is_valid_uuid], so it
    contains no '/'.  The call has made between one and [fuel] store calls,
    all of them listings of the prefix 'ch-s3-' with delimiter '/' in the
    given bucket, no bulk delete, and has read nothing from standard
    input. *)
Theorem discover_ch_s3_prefixes_any_store fuel bucket_name (st st' : State World) o :
  discover_ch_s3_prefixes fuel bucket_name st = Some (o, st') ->
  (exists tops,
     o = Ret tops /\ Sorted String.le tops /\
     Forall (fun t => (exists u, t = "ch-s3-" +:+ u /\ is_valid_uuid u = true) /\
                      contains "/" t = false) tops) /\
  stdin st' = stdin st /\
  mutations (calls st') = mutations (calls st) /\
  exists cs, calls st' = calls st ++ cs /\
    Forall (is_listing_call bucket_name "ch-s3-" (Some "/")) cs /\
    (1 <= length cs <= fuel)%nat.
Proof.
  intros H. unfold list_backup_prefixes.discover_ch_s3_prefixes in H.
  destruct (while_true fuel _ _ st) as [[o1 st1]|] eqn:E; [|done].
  assert (st1 = st') as -> by (destruct o1 as [[? ?]|?]; congruence).
  pose (P := fun l : list string =>
               Forall (fun t => (exists u, t = "ch-s3-" +:+ u /\ is_valid_uuid u = true) /\
                                contains "/" t = false) l).
  assert (Hstep : forall a page, P a -> P (discover_step a page)).
  { intros a page Ha. unfold P in *. change (discover_step a page)
      with (foldl discover_step a [page]).
    rewrite discover_pages. apply Forall_app. split; [done|].
    apply Forall_forall. intros t (full & _ & Hn)%list_elem_of_omap.
    apply top_level_name_Some in Hn as [(u & -> & Hv) _].
    split; [by exists u|].
    destruct (is_valid_uuid_no_slash u Hv) as (_ & Hc & _).
    by rewrite contains_app, Hc. }
  destruct (loop_frame s3_client bucket_name "ch-s3-" (Some "/") discover_step
              (discover_ch_s3_prefixes_turn s3_client bucket_name)
              (discover_turn_answer bucket_name)
              (discover_turn_failure bucket_name)
              P fuel [] None st st' o1 Hstep (Forall_nil_2 _) E)
    as (Hin & (cs & Hc & Hok & Hlen) & (a & token' & -> & Ha)).
  injection H as <-.
  split; [|split; [done|split; [|by exists cs]]].
  - exists (sorted a). split; [done|]. split; [apply sorted_Sorted|].
    unfold P in Ha. by rewrite sorted_Permutation.
  - rewrite Hc, mutations_app.
    assert (Hmut : mutations cs = []).
    { clear -Hok. induction Hok as [|c cs [tok ->] HF IH]; [done|]. exact IH. }
    by rewrite Hmut, app_nil_r.
Qed.

End Discovery.

(** ** The data enumerator: from the workers' results to the resolver *)

Section Enumeration.
Import PyStr get_final_dirty_data_prefix list_data_prefixes.

Lemma ch_s3_prefixes_NoDup : NoDup ch_s3_prefixes.
Proof.
  pose (v := fun c : ascii =>
               let n := N_of_ascii c in
               if (n <? 58)%N then (n - 48)%N else (n - 87)%N).
  pose (g := fun s : string =>
               match slice_from 6 s with
               | String a (String b (String c _)) =>
                   N.to_nat (256 * v a + 16 * v b + v c)%N
               | _ => 0%nat
               end).
  apply (NoDup_fmap_1 g).
  assert (E : g <$> ch_s3_prefixes = seq 0 4096) by (by vm_compute).
  rewrite E. apply NoDup_seq.
Qed.

Lemma dict_set_fresh {V} (d : list (string * V)) k v :
  k ∉ d.*1 -> dict_set d k v = d ++ [(k, v)].
Proof.
  induction d as [|[k' v'] d IH]; intros Hk; [done|].
  rewrite fmap_cons in Hk. apply not_elem_of_cons in Hk as [Hne Hk].
  cbn in Hne. cbn [dict_set]. rewrite decide_False by done.
  cbn [app]. by rewrite IH.
Qed.

Lemma record_fresh {V} (d l : list (string * V)) :
  NoDup (d.*1 ++ l.*1) ->
  foldl (fun d r => dict_set d r.1 r.2) d l = d ++ l.
Proof.
  revert d. induction l as [|[k v] l IH]; intros d Hnd; cbn [foldl].
  - by rewrite app_nil_r.
  - rewrite fmap_cons in Hnd. cbn [fst snd] in *.
    rewrite dict_set_fresh.
    + rewrite IH, <- app_assoc; [done|].
      by rewrite fmap_app, <- app_assoc.
    + apply NoDup_app in Hnd as (_ & Hd & _). intros Hin.
      apply (Hd _ Hin). by left.
Qed.

Lemma concat_fmap_Permutation {A B} (f : A -> list B) (l l' : list A) :
  l ≡ₚ l' -> concat (f <$> l) ≡ₚ concat (f <$> l').
Proof.
  induction 1 as [|x l l' Hp IH|x y l|l l' l'' Hp1 IH1 Hp2 IH2]; cbn.
  - done.
  - by rewrite IH.
  - rewrite !app_assoc. f_equiv. apply Permutation_app_comm.
  - by etransitivity.
Qed.

Lemma concat_fmap_length {A B} (f : A -> list B) (l : list A) :
  length (concat (f <$> l)) = sum_list (length ∘ f <$> l).
Proof.
  induction l as [|x l IH]; [done|]. cbn. by rewrite length_app, IH.
Qed.

Lemma dom_sized (m : gmap string Z) (sized : list (string * Z)) :
  dom (foldl (fun m r => <[ r.1 := r.2 ]> m) m sized)
  = dom m ∪ list_to_set sized.*1.
Proof.
  revert m. induction sized as [|[k v] sized IH]; intros m; cbn [foldl].
  - cbn. set_solver.
  - rewrite IH, dom_insert_L, fmap_cons. cbn. set_solver.
Qed.

Lemma prefixes_sorted_concat completed sized :
  NoDup completed.*1 ->
  prefixes (output_data completed sized) =
  sorted (concat ((fun r : string * list string => full_path r.1 <$> r.2)
                    <$> completed)).
Proof.
  intros Hnd. unfold output_data. cbn [prefixes].
  by rewrite record_fresh.
Qed.

Lemma split_app_sep sep a b :
  split sep (a +:+ String sep b) = split sep a ++ split sep b.
Proof.
  induction a as [|c a IH].
  - change (EmptyString +:+ String sep b) with (String sep b).
    rewrite split_cons. by rewrite decide_True.
  - rewrite app_cons, !split_cons, IH. case_decide; [done|].
    pose proof (split_nonempty sep a) as Hne.
    by destruct (split sep a).
Qed.

Lemma extract_uuid_last p : last (split "/" p) = Some (extract_uuid_from_path p).
Proof.
  unfold extract_uuid_from_path.
  pose proof (split_nonempty "/" p) as Hne.
  pose proof (split_singleton "/" p) as Hone.
  destruct (split "/" p) as [|w ws] eqn:E; [done|].
  case_decide as Hlen.
  - destruct (last (w :: ws)) eqn:El; [done|]. by apply last_None in El.
  - destruct ws; [|simpl in Hlen; lia]. simpl. f_equal. by apply Hone.
Qed.

Lemma extract_full_path top child :
  extract_uuid_from_path (full_path top child) = extract_uuid_from_path child.
Proof.
  pose proof (extract_uuid_last (full_path top child)) as H1.
  pose proof (extract_uuid_last child) as H2.
  unfold full_path in H1.
  change (top +:+ "/" +:+ child) with (top +:+ String "/" child) in H1.
  rewrite split_app_sep in H1.
  pose proof (split_nonempty "/" child) as Hne.
  destruct (split "/" child) as [|w ws _] using rev_ind; [done|].
  rewrite app_assoc, last_snoc in H1. rewrite last_snoc in H2.
  unfold full_path.
  change (top +:+ "/" +:+ child) with (top +:+ String "/" child). congruence.
Qed.

(** X21. The candidate names of the data enumerator.  The list it scans
    holds the 4096 names 'ch-s3-' followed by three lower-case hexadecimal
    digits, from 'ch-s3-000' to 'ch-s3-fff' in ascending order, each once;
    small numbers are padded with zeros. *)
Theorem ch_s3_prefixes_scan_space :
  ch_s3_prefixes =
    (x ← hex_chars; y ← hex_chars; z ← hex_chars;
     ["ch-s3-" +:+ String x (String y (String z EmptyString))]) /\
  length ch_s3_prefixes = 4096%nat /\
  NoDup ch_s3_prefixes /\
  head ch_s3_prefixes = Some "ch-s3-000" /\
  last ch_s3_prefixes = Some "ch-s3-fff".
Proof.
  split; [by vm_compute|]. split; [by vm_compute|].
  split; [apply ch_s3_prefixes_NoDup|]. split; by vm_compute.
Qed.

(** X22. The paths the data enumerator writes.  Each of the 4096 candidate
    names is submitted once, so the results come back one per name, in any
    order.  Whatever that order, the 'prefixes' entry of the document is the
    sorted list of the paths 'name/child' for every child returned for a
    name; it is the same for every order of completion.  The summary counts
    its entries, one per child of every name, and when the sizes come back
    one per path, the 'prefix_sizes_bytes' entry has exactly the listed
    paths as its keys. *)
Theorem collected_paths (completed : list (string * list string))
    (sized : list (string * Z)) :
  completed.*1 ≡ₚ ch_s3_prefixes ->
  Sorted String.le (prefixes (output_data completed sized)) /\
  (forall p, p ∈ prefixes (output_data completed sized) <->
     exists top children child,
       (top, children) ∈ completed /\ child ∈ children /\
       p = full_path top child) /\
  (forall completed' sized',
     completed' ≡ₚ completed ->
     prefixes (output_data completed' sized')
     = prefixes (output_data completed sized)) /\
  total_full_paths (summary (output_data completed sized))
  = length (prefixes (output_data completed sized)) /\
  length (prefixes (output_data completed sized))
  = sum_list (length <$> completed.*2) /\
  (sized.*1 ≡ₚ prefixes (output_data completed sized) ->
   dom (prefix_sizes_bytes (output_data completed sized))
   = list_to_set (prefixes (output_data completed sized))).
Proof.
  intros Hkeys.
  assert (Hnd : NoDup completed.*1) by (rewrite Hkeys; apply ch_s3_prefixes_NoDup).
  rewrite (prefixes_sorted_concat _ sized Hnd).
  split; [apply sorted_Sorted|]. split; [|split; [|split; [|split]]].
  - intros p. rewrite sorted_Permutation, elem_of_concat. split.
    + intros (l & Hl & Hp).
      apply list_elem_of_fmap in Hl as ([top children] & -> & Hin).
      apply list_elem_of_fmap in Hp as (child & -> & Hc).
      by exists top, children, child.
    + intros (top & children & child & Hin & Hc & ->).
      exists (full_path top <$> children). split.
      * apply list_elem_of_fmap. by exists (top, children).
      * apply list_elem_of_fmap. by exists child.
  - intros completed' sized' Hp.
    rewrite prefixes_sorted_concat by (by rewrite Hp).
    apply sorted_perm_eq. by apply concat_fmap_Permutation.
  - unfold output_data. cbn [summary total_full_paths]. by rewrite record_fresh.
  - rewrite (Permutation_length (sorted_Permutation _)), concat_fmap_length.
    rewrite <- list_fmap_compose. f_equal.
    apply list_fmap_ext. intros i [top children] _. cbn. apply length_fmap.
  - intros Hs. unfold output_data at 1. cbn [prefix_sizes_bytes].
    rewrite dom_sized, dom_empty_L.
    apply set_eq. intros x.
    rewrite elem_of_union, !elem_of_list_to_set, Hs. set_solver.
Qed.

(** X23. From the enumerator to the resolver.  When the document the data
    enumerator writes is the resolver's input, the resolver accepts it, and
    a path 'name/child' of it is in the dirty list exactly when the last
    '/'-segment of the child is not in the loaded allow-list: the name in
    front plays no part.  For a child without '/', that is the child
    itself. *)
Theorem enumerated_paths_resolve (completed : list (string * list string))
    (sized : list (string * Z)) (file content : string)
    (top : string) (children : list string) (child : string) :
  completed.*1 ≡ₚ ch_s3_prefixes ->
  (top, children) ∈ completed -> child ∈ children ->
  exists out,
    main file
      (DocObject (Some (prefixes (output_data completed sized)))
                 (Some (prefix_sizes_bytes (output_data completed sized))))
      content = inl out /\
    (full_path top child ∈ dirty_paths out <->
     extract_uuid_from_path child ∉ load_non_terminated_uuids content) /\
    (contains "/" child = false ->
     (full_path top child ∈ dirty_paths out <->
      child ∉ load_non_terminated_uuids content)).
Proof.
  intros Hkeys Hin Hc.
  assert (Hnd : NoDup completed.*1) by (rewrite Hkeys; apply ch_s3_prefixes_NoDup).
  eexists. split; [reflexivity|].
  assert (Hd : full_path top child
               ∈ dirty_paths
                   (main_output (prefixes (output_data completed sized))
                      (prefix_sizes_bytes (output_data completed sized))
                      (load_non_terminated_uuids content)) <->
               extract_uuid_from_path child ∉ load_non_terminated_uuids content).
  { rewrite main_output_dirty_paths, sorted_Permutation, list_elem_of_filter.
    unfold is_dirty. rewrite extract_full_path.
    rewrite (prefixes_sorted_concat _ sized Hnd), sorted_Permutation, elem_of_concat.
    split; [by intros [? _]|]. intros Hn. split; [done|].
    exists (full_path top <$> children). split.
    - apply list_elem_of_fmap. by exists (top, children).
    - apply list_elem_of_fmap. by exists child. }
  split; [exact Hd|]. intros Hs. rewrite Hd.
  pose proof (extract_uuid_last child) as Hl.
  rewrite (split_no_sep _ _ Hs) in Hl.
  change (last [child]) with (Some child) in Hl. injection Hl as <-. done.
Qed.

End Enumeration.


(** ** The data enumerator: its workers *)

Section Workers.
Import PyStr Py utils list_data_prefixes.
Local Open Scope py_scope.
Context {World : Type}.
Variable s3_client : S3Client World.

Local Abbreviation process_prefix := (list_data_prefixes.process_prefix s3_client).
Local Abbreviation size_for_prefix := (list_data_prefixes.size_for_prefix s3_client).
Local Abbreviation pages_then_end := (utils.pages_then_end s3_client).

Lemma listing_calls_no_mutation bucket_name prefix delimiter cs :
  Forall (is_listing_call bucket_name prefix delimiter) cs -> mutations cs = [].
Proof. induction 1 as [|c cs [tok ->] HF IH]; [done|]. exact IH. Qed.

Lemma list_next_level_prefixes_ends fuel bucket_name prefix (st st' : State World) o :
  list_next_level_prefixes s3_client fuel bucket_name prefix st = Some (o, st') ->
  (exists children : gset string, o = Ret children /\ EmptyString ∉ children) /\
  stdin st' = stdin st /\
  exists cs, calls st' = calls st ++ cs /\
    Forall (is_listing_call bucket_name prefix (Some "/")) cs.
Proof.
  intros H. unfold list_next_level_prefixes in H.
  destruct (while_true fuel _ _ st) as [[o1 st1]|] eqn:E; [|done].
  assert (st1 = st') as -> by (destruct o1 as [[? ?]|?]; congruence).
  assert (Hstep : forall (a : gset string) page,
             EmptyString ∉ a -> EmptyString ∉ children_step prefix a page).
  { intros a page Ha Hin. unfold children_step in Hin.
    destruct (CommonPrefixes page) as [cps|]; [|done].
    apply children_fold_elem in Hin as [?|(full & _ & Hn)]; [done|].
    by apply child_name_nonempty in Hn. }
  destruct (loop_frame s3_client bucket_name prefix (Some "/") (children_step prefix)
              (list_next_level_prefixes_turn s3_client bucket_name prefix)
              (list_next_level_prefixes_turn_answer s3_client bucket_name prefix)
              (list_next_level_prefixes_turn_failure s3_client bucket_name prefix)
              (fun a : gset string => EmptyString ∉ a) fuel ∅ None st st' o1
              Hstep (not_elem_of_empty _) E)
    as (Hin & (cs & Hc & Hok & _) & (a & token' & -> & Ha)).
  injection H as <-. split; [by exists a|]. split; [done|]. by exists cs.
Qed.

Lemma sum_sizes_in_prefix_ends fuel bucket_name prefix (st st' : State World) o :
  sum_sizes_in_prefix s3_client fuel bucket_name prefix st = Some (o, st') ->
  (exists total_size, o = Ret total_size) /\
  stdin st' = stdin st /\
  exists cs, calls st' = calls st ++ cs /\
    Forall (is_listing_call bucket_name prefix None) cs.
Proof.
  intros H. unfold sum_sizes_in_prefix in H.
  destruct (while_true fuel _ _ st) as [[o1 st1]|] eqn:E; [|done].
  assert (st1 = st') as -> by (destruct o1 as [[? ?]|?]; congruence).
  destruct (loop_frame s3_client bucket_name prefix None sizes_step
              (sum_sizes_in_prefix_turn s3_client bucket_name prefix)
              (sum_sizes_in_prefix_turn_answer s3_client bucket_name prefix)
              (sum_sizes_in_prefix_turn_failure s3_client bucket_name prefix)
              (fun _ => True) fuel 0 None st st' o1 (fun _ _ _ => I) I E)
    as (Hin & (cs & Hc & Hok & _) & (a & token' & -> & _)).
  injection H as <-. split; [by exists a|]. split; [done|]. by exists cs.
Qed.

Lemma sorted_elements (X : gset string) :
  Sorted String.le (sorted (elements X)) /\ NoDup (sorted (elements X)) /\
  forall x, x ∈ sorted (elements X) <-> x ∈ X.
Proof.
  split; [apply sorted_Sorted|]. split.
  - rewrite sorted_Permutation. apply NoDup_elements.
  - intros x. by rewrite sorted_Permutation, elem_of_elements.
Qed.

(** X24. The workers of the data enumerator, against any store.  A call of
    [process_prefix] that ends returns its argument together with a list;
    no exception escapes.  The list is sorted, has no duplicate and does not
    contain the empty string.  A call of [size_for_prefix] that ends returns
    its argument together with a size.  Both make only listing calls, the
    first for the prefix 'name/' with delimiter '/', the second for
    'path/' without delimiter; neither makes a bulk delete nor reads
    standard input. *)
Theorem workers_return_their_argument fuel bucket_name (st st' : State World) :
  (forall ch_s3_prefix o,
     process_prefix fuel bucket_name ch_s3_prefix st = Some (o, st') ->
     (exists prefixes_list,
        o = Ret (ch_s3_prefix, prefixes_list) /\
        Sorted String.le prefixes_list /\ NoDup prefixes_list /\
        EmptyString ∉ prefixes_list) /\
     stdin st' = stdin st /\
     mutations (calls st') = mutations (calls st) /\
     exists cs, calls st' = calls st ++ cs /\
       Forall (is_listing_call bucket_name (ch_s3_prefix +:+ "/") (Some "/")) cs) /\
  (forall full_path o,
     size_for_prefix fuel bucket_name full_path st = Some (o, st') ->
     (exists total_size, o = Ret (full_path, total_size)) /\
     stdin st' = stdin st /\
     mutations (calls st') = mutations (calls st) /\
     exists cs, calls st' = calls st ++ cs /\
       Forall (is_listing_call bucket_name (full_path +:+ "/") None) cs).
Proof.
  split.
  - intros name o H.
    unfold list_data_prefixes.process_prefix, list_prefixes_for_ch_s3_prefix in H.
    cbv zeta in H.
    destruct (list_next_level_prefixes _ _ _ _ st) as [[o1 st1]|] eqn:E; [|done].
    destruct (list_next_level_prefixes_ends _ _ _ _ _ _ E)
      as ((children & -> & Hne) & Hin & cs & Hc & Hok).
    injection H as <- <-.
    destruct (sorted_elements children) as (Hs & Hnd & Hel).
    split; [|split; [done|split; [|by exists cs]]].
    + eexists. split; [done|]. split; [done|]. split; [done|]. by rewrite Hel.
    + by rewrite Hc, mutations_app, (listing_calls_no_mutation _ _ _ _ Hok), app_nil_r.
  - intros path o H. unfold list_data_prefixes.size_for_prefix in H.
    destruct (sum_sizes_in_prefix _ _ _ _ st) as [[o1 st1]|] eqn:E; [|done].
    destruct (sum_sizes_in_prefix_ends _ _ _ _ _ _ E)
      as ((n & ->) & Hin & cs & Hc & Hok).
    injection H as <- <-.
    split; [by exists n|]. split; [done|]. split; [|by exists cs].
    by rewrite Hc, mutations_app, (listing_calls_no_mutation _ _ _ _ Hok), app_nil_r.
Qed.

(** X25. From a listed directory to the sized prefix.  When the listing
    under 'name/' runs to its end, [process_prefix] returns the name with
    the sorted children of all pages.  A directory 'name/child/' on some
    page, with a non-empty child, puts that child on the list, and the path
    'name/child' built from it, followed by '/', is that same directory.
    [size_for_prefix], called on the path 'name/child', lists under
    'name/child/' without delimiter and, when that listing runs to its end,
    returns the path with the sum of the sizes of the objects on its pages:
    it sums the sizes under exactly what was listed. *)
Theorem listed_directory_is_sized bucket_name ch_s3_prefix (st : State World)
    pages w' fuel :
  pages_then_end bucket_name (ch_s3_prefix +:+ "/") (Some "/") None (world st)
    pages w' ->
  (length pages <= fuel)%nat ->
  exists prefixes_list,
    process_prefix fuel bucket_name ch_s3_prefix st =
      Some (Ret (ch_s3_prefix, prefixes_list),
            advance w'
              (listing_calls bucket_name (ch_s3_prefix +:+ "/") (Some "/") None pages)
              st) /\
    (forall child, child ∈ prefixes_list <->
       exists page cps full,
         page ∈ pages /\ CommonPrefixes page = Some cps /\ full ∈ cps /\
         child_name (ch_s3_prefix +:+ "/") full = Some child) /\
    (forall child page cps,
       child <> EmptyString ->
       page ∈ pages -> CommonPrefixes page = Some cps ->
       full_path ch_s3_prefix child +:+ "/" ∈ cps ->
       child ∈ prefixes_list) /\
    (forall child (st2 : State World) pages2 w2 fuel2,
       full_path ch_s3_prefix child +:+ "/"
         = (ch_s3_prefix +:+ "/") +:+ child +:+ "/" /\
       (pages_then_end bucket_name (full_path ch_s3_prefix child +:+ "/") None None
          (world st2) pages2 w2 ->
        (length pages2 <= fuel2)%nat ->
        size_for_prefix fuel2 bucket_name (full_path ch_s3_prefix child) st2 =
          Some (Ret (full_path ch_s3_prefix child,
                     foldr Z.add 0 (listed_sizes pages2)),
                advance w2
                  (listing_calls bucket_name (full_path ch_s3_prefix child +:+ "/")
                     None None pages2) st2))).
Proof.
  intros Hp Hfuel.
  destruct (loop_pages_then_end s3_client bucket_name (ch_s3_prefix +:+ "/") (Some "/")
              (children_step (ch_s3_prefix +:+ "/"))
              (list_next_level_prefixes_turn s3_client bucket_name
                 (ch_s3_prefix +:+ "/"))
              (list_next_level_prefixes_turn_answer s3_client bucket_name
                 (ch_s3_prefix +:+ "/"))
              None (world st) pages w' Hp fuel ∅ st eq_refl Hfuel) as [token' E].
  assert (Hel : forall child,
             child ∈ sorted (elements (foldl (children_step (ch_s3_prefix +:+ "/"))
                                         (∅ : gset string) pages)) <->
             exists page cps full,
               page ∈ pages /\ CommonPrefixes page = Some cps /\ full ∈ cps /\
               child_name (ch_s3_prefix +:+ "/") full = Some child).
  { intros child.
    rewrite (proj2 (proj2 (sorted_elements _))), children_pages_elem.
    split; [|by right]. intros [?%not_elem_of_empty|?]; done. }
  eexists. split; [|split; [|split]].
  - unfold list_data_prefixes.process_prefix, list_prefixes_for_ch_s3_prefix.
    cbv zeta. unfold list_next_level_prefixes. by rewrite E.
  - exact Hel.
  - intros child page cps Hne Hpg Hc Hin. apply Hel.
    exists page, cps, (full_path ch_s3_prefix child +:+ "/").
    split; [done|]. split; [done|]. split; [done|].
    unfold full_path, child_name. cbv zeta.
    rewrite !str_app_assoc, <- (str_app_assoc ch_s3_prefix "/").
    rewrite slice_from_app, endswith_char_snoc, drop_last_snoc.
    by rewrite decide_False.
  - intros child st2 pages2 w2 fuel2. split.
    + unfold full_path. by rewrite !str_app_assoc.
    + intros Hp2 Hfuel2.
      destruct (loop_pages_then_end s3_client bucket_name
                  (full_path ch_s3_prefix child +:+ "/") None sizes_step
                  (sum_sizes_in_prefix_turn s3_client bucket_name
                     (full_path ch_s3_prefix child +:+ "/"))
                  (sum_sizes_in_prefix_turn_answer s3_client bucket_name
                     (full_path ch_s3_prefix child +:+ "/"))
                  None (world st2) pages2 w2 Hp2 fuel2 0 st2 eq_refl Hfuel2)
        as [token2 E2].
      unfold list_data_prefixes.size_for_prefix, sum_sizes_in_prefix.
      rewrite E2. by rewrite sizes_pages_sum, Z.add_0_l.
Qed.

End Workers.
(** ** The further statements at concrete inputs *)

Section FurtherInstances.
Import PyStr Py utils delete_prefixes.

Lemma delete_objects_batch_outcomes_witness :
  ["k"] <> ([] : list string) /\ (length ["k"] <= 1000)%nat /\
  calls (snd (delete_objects_batch Mock.client "b" ["k"]
                (Mock.start Mock.denied [])))
  = [DeleteObjects "b" ["k"]].
Proof.
  split; [discriminate|]. split; [simpl; lia|].
  destruct (proj2 (delete_objects_batch_outcomes Mock.client "b" ["k"]
                     (Mock.start Mock.denied []))
              ltac:(discriminate) ltac:(simpl; lia)) as (H & _).
  exact H.
Defined.

Lemma empty_prefix_is_not_an_error_witness :
  fst (Mock.list_all_objects_impl "b" "q" (Mock.store (Mock.keys_under "p" 3))) = [] /\
  fst (delete_prefix Mock.client Mock.list_all_objects_impl "b" "q" false
         (Mock.start (Mock.store (Mock.keys_under "p" 3)) []))
  = Ret (0%nat, 0%nat, []).
Proof.
  assert (H : fst (Mock.list_all_objects_impl "b" "q"
                     (Mock.store (Mock.keys_under "p" 3))) = [])
    by reflexivity.
  split; [exact H|].
  destruct (empty_prefix_is_not_an_error Mock.client Mock.list_all_objects_impl
              "b" "q" false (Mock.start (Mock.store (Mock.keys_under "p" 3)) []) H)
    as [E _].
  exact (f_equal fst E).
Defined.

Lemma dry_run_changes_nothing_witness :
  dry_run Mock.dry_args = true /\
  mutations (calls (snd (main Mock.client Mock.list_all_objects_impl
                           (Mock.reader ["p"]) Mock.writable Mock.dry_args
                           (Mock.start (Mock.store (Mock.keys_under "p" 3)) []))))
  = [].
Proof.
  split; [reflexivity|].
  exact (proj1 (dry_run_changes_nothing Mock.client Mock.list_all_objects_impl
                  (Mock.reader ["p"]) Mock.writable Mock.dry_args
                  (Mock.start (Mock.store (Mock.keys_under "p" 3)) []) eq_refl)).
Defined.

Lemma malformed_input_is_fatal_early_witness :
  Mock.not_an_object (input Mock.dry_args) = Parsed (DocNotADict json_list) /\
  exists e,
    main Mock.client Mock.list_all_objects_impl Mock.not_an_object Mock.writable Mock.dry_args
      (Mock.start (Mock.store []) [])
    = (Raise (SystemExit 1),
       emit [loading_line (input Mock.dry_args);
             Print ("Error loading input file: " +:+ exn_str e)]
         (Mock.start (Mock.store []) [])).
Proof.
  split; [reflexivity|].
  apply (proj1 (malformed_input_is_fatal_early Mock.client
                  Mock.list_all_objects_impl Mock.not_an_object Mock.writable Mock.dry_args
                  (Mock.start (Mock.store []) []))).
  right. left. by exists json_list.
Defined.

Lemma every_prefix_has_a_result_witness :
  (0 <= 0)%Z /\
  delete_prefixes_concurrent Mock.client Mock.list_all_objects_impl "b" ["p"] 0 true
    (Mock.start (Mock.store (Mock.keys_under "p" 3)) [])
  = (Raise (ValueError "max_workers must be greater than 0"),
     Mock.start (Mock.store (Mock.keys_under "p" 3)) []).
Proof.
  split; [lia|].
  apply (proj2 (every_prefix_has_a_result Mock.client Mock.list_all_objects_impl
                  "b" ["p"] 0 true
                  (Mock.start (Mock.store (Mock.keys_under "p" 3)) []))).
  lia.
Defined.

Lemma closed_stdin_aborts_witness :
  dry_run Mock.live_args = false /\
  fst (main Mock.client Mock.list_all_objects_impl (Mock.reader ["p"])
         Mock.writable Mock.live_args
         (Mock.start (Mock.store (Mock.keys_under "p" 3)) ["maybe"]))
  = Raise EOFError /\
  calls (snd (main Mock.client Mock.list_all_objects_impl (Mock.reader ["p"])
                Mock.writable Mock.live_args
                (Mock.start (Mock.store (Mock.keys_under "p" 3)) ["maybe"])))
  = [].
Proof.
  split; [reflexivity|].
  destruct (closed_stdin_aborts Mock.client Mock.list_all_objects_impl
              (Mock.reader ["p"]) Mock.writable Mock.live_args
              (Mock.start (Mock.store (Mock.keys_under "p" 3)) ["maybe"])
              ["p"] ∅ eq_refl eq_refl ltac:(discriminate) maybe_unrecognized)
    as (H1 & _ & H2 & _).
  split; [exact H1|exact H2].
Defined.

Lemma steady_pages delimiter :
  pages_then_end Mock.client "b" "p/" delimiter None Mock.steady
    [Mock.page_a; Mock.page_b] (Mock.store []).
Proof.
  eapply pte_more; [reflexivity|reflexivity|].
  eapply pte_last; reflexivity.
Qed.

Lemma list_next_level_prefixes_complete_witness :
  pages_then_end Mock.client "b" "p/" (Some "/") None Mock.steady
    [Mock.page_a; Mock.page_b] (Mock.store []) /\
  (length [Mock.page_a; Mock.page_b] <= 2)%nat /\
  exists children,
    fst <$> list_next_level_prefixes Mock.client 2 "b" "p/" (Mock.start Mock.steady [])
    = Some (Ret children) /\
    ("b" ∈ children <->
     exists page cps full,
       page ∈ [Mock.page_a; Mock.page_b] /\ CommonPrefixes page = Some cps /\
       full ∈ cps /\ child_name "p/" full = Some "b").
Proof.
  split; [exact (steady_pages (Some "/"))|]. split; [simpl; lia|].
  destruct (list_next_level_prefixes_complete Mock.client "b" "p/"
              (Mock.start Mock.steady []) [Mock.page_a; Mock.page_b]
              (Mock.store []) 2 (steady_pages (Some "/")) ltac:(simpl; lia))
    as (children & E & Hc).
  exists children. split; [by rewrite E|exact (Hc "b")].
Defined.

Lemma sum_sizes_in_prefix_complete_witness :
  pages_then_end Mock.client "b" "p/" None None Mock.steady
    [Mock.page_a; Mock.page_b] (Mock.store []) /\
  (length [Mock.page_a; Mock.page_b] <= 2)%nat /\
  fst <$> sum_sizes_in_prefix Mock.client 2 "b" "p/" (Mock.start Mock.steady [])
  = Some (Ret 12).
Proof.
  split; [exact (steady_pages None)|]. split; [simpl; lia|].
  by rewrite (sum_sizes_in_prefix_complete Mock.client "b" "p/"
                (Mock.start Mock.steady []) [Mock.page_a; Mock.page_b]
                (Mock.store []) 2 (steady_pages None) ltac:(simpl; lia)).
Defined.

Lemma child_names_nonempty_witness :
  "a" <> EmptyString /\
  add_common_prefix "p/" ∅ "p/a/" = ∅ ∪ {[ "a" ]}.
Proof.
  split; [discriminate|].
  exact (proj1 (child_names_nonempty Mock.client "b" "p/") "a" ∅
           ltac:(discriminate)).
Defined.

Lemma listing_helpers_only_list_witness :
  exists o st',
    sum_sizes_in_prefix Mock.client 5 "b" "p/" (Mock.start Mock.flaky [])
    = Some (o, st') /\
    mutations (calls st') = [].
Proof.
  eexists _, _. split; [vm_compute; reflexivity|].
  refine (proj1 (proj2 (proj2 (listing_helpers_only_list Mock.client "b" "p/" 5
                                 (Mock.start Mock.flaky []) _) _ _))).
  vm_compute; reflexivity.
Defined.

Lemma is_valid_uuid_shape_witness :
  list_backup_prefixes.is_valid_uuid "0A1b2c3d-0000-1111-2222-333344445555" = true /\
  contains "/" "0A1b2c3d-0000-1111-2222-333344445555" = false.
Proof.
  split; [reflexivity|].
  exact (proj2 (proj2 (proj2 (is_valid_uuid_shape
                                "0A1b2c3d-0000-1111-2222-333344445555"))
                  eq_refl)).
Defined.

Lemma backups_pages :
  pages_then_end Mock.client "b" "ch-s3-" (Some "/") None Mock.backups
    [Mock.tops_a; Mock.tops_b] (Mock.store []).
Proof.
  eapply pte_more; [reflexivity|reflexivity|].
  eapply pte_last; reflexivity.
Qed.

Lemma discover_ch_s3_prefixes_complete_witness :
  pages_then_end Mock.client "b" "ch-s3-" (Some "/") None Mock.backups
    [Mock.tops_a; Mock.tops_b] (Mock.store []) /\
  (length [Mock.tops_a; Mock.tops_b] <= 2)%nat /\
  exists tops,
    fst <$> list_backup_prefixes.discover_ch_s3_prefixes Mock.client 2 "b"
              (Mock.start Mock.backups [])
    = Some (Ret tops) /\
    Sorted String.le tops /\
    tops ≡ₚ ["ch-s3-0a1b2c3d-0000-1111-2222-333344445555";
             "ch-s3-0A1B2C3D-AAAA-BBBB-CCCC-DDDDEEEEFFFF"].
Proof.
  split; [exact backups_pages|]. split; [simpl; lia|].
  destruct (discover_ch_s3_prefixes_complete Mock.client "b"
              (Mock.start Mock.backups []) [Mock.tops_a; Mock.tops_b]
              (Mock.store []) 2 backups_pages ltac:(simpl; lia))
    as (tops & E & Hs & Hp & _).
  exists tops. split; [by rewrite E|]. split; [exact Hs|exact Hp].
Defined.

Lemma discover_ch_s3_prefixes_any_store_witness :
  exists o st',
    list_backup_prefixes.discover_ch_s3_prefixes Mock.client 5 "b"
      (Mock.start Mock.flaky []) = Some (o, st') /\
    (exists tops, o = Ret tops) /\ mutations (calls st') = [].
Proof.
  eexists _, _. split; [vm_compute; reflexivity|].
  edestruct (discover_ch_s3_prefixes_any_store Mock.client 5 "b"
               (Mock.start Mock.flaky []))
    as ((tops & Ho & _) & _ & Hm & _).
  { vm_compute; reflexivity. }
  split; [exists tops; exact Ho|exact Hm].
Defined.

Lemma completed_keys : Mock.completed.*1 ≡ₚ list_data_prefixes.ch_s3_prefixes.
Proof.
  unfold Mock.completed. rewrite <- list_fmap_compose.
  by rewrite list_fmap_id.
Qed.

Lemma completed_00a : ("ch-s3-00a", ["u1"; "u2"]) ∈ Mock.completed.
Proof. apply (list_elem_of_lookup_2 _ 10%nat). reflexivity. Qed.

Lemma collected_paths_witness :
  Mock.completed.*1 ≡ₚ list_data_prefixes.ch_s3_prefixes /\
  Sorted String.le
    (list_data_prefixes.prefixes
       (list_data_prefixes.output_data Mock.completed Mock.sized)) /\
  "ch-s3-00a/u2" ∈ list_data_prefixes.prefixes
                     (list_data_prefixes.output_data Mock.completed Mock.sized).
Proof.
  split; [exact completed_keys|].
  destruct (collected_paths Mock.completed Mock.sized completed_keys)
    as (Hs & Hm & _).
  split; [exact Hs|]. apply Hm.
  exists "ch-s3-00a", ["u1"; "u2"], "u2".
  split; [exact completed_00a|]. split; [|reflexivity].
  (apply list_elem_of_further, list_elem_of_here).
Defined.

Lemma enumerated_paths_resolve_witness :
  Mock.completed.*1 ≡ₚ list_data_prefixes.ch_s3_prefixes /\
  ("ch-s3-00a", ["u1"; "u2"]) ∈ Mock.completed /\
  "u2" ∈ ["u1"; "u2"] /\
  exists out,
    get_final_dirty_data_prefix.main "data_prefixes.json"
      (get_final_dirty_data_prefix.DocObject
         (Some (list_data_prefixes.prefixes
                  (list_data_prefixes.output_data Mock.completed Mock.sized)))
         (Some (list_data_prefixes.prefix_sizes_bytes
                  (list_data_prefixes.output_data Mock.completed Mock.sized))))
      "u1" = inl out /\
    (list_data_prefixes.full_path "ch-s3-00a" "u2"
       ∈ get_final_dirty_data_prefix.dirty_paths out <->
     get_final_dirty_data_prefix.extract_uuid_from_path "u2"
       ∉ get_final_dirty_data_prefix.load_non_terminated_uuids "u1").
Proof.
  assert (Hc : "u2" ∈ ["u1"; "u2"])
    by (apply list_elem_of_further, list_elem_of_here).
  split; [exact completed_keys|]. split; [exact completed_00a|].
  split; [exact Hc|].
  destruct (enumerated_paths_resolve Mock.completed Mock.sized
              "data_prefixes.json" "u1" "ch-s3-00a" ["u1"; "u2"] "u2"
              completed_keys completed_00a Hc) as (out & E & Hd & _).
  exists out. split; [exact E|exact Hd].
Defined.

Lemma workers_return_their_argument_witness :
  exists o st',
    list_data_prefixes.size_for_prefix Mock.client 5 "b" "p/a"
      (Mock.start Mock.flaky []) = Some (o, st') /\
    (exists total_size, o = Ret ("p/a", total_size)) /\
    mutations (calls st') = [].
Proof.
  eexists _, _. split; [vm_compute; reflexivity|].
  edestruct (workers_return_their_argument Mock.client 5 "b"
               (Mock.start Mock.flaky [])) as [_ H].
  edestruct (H "p/a") as (Ho & _ & Hm & _); [vm_compute; reflexivity|].
  split; [exact Ho|exact Hm].
Defined.

Lemma listed_directory_is_sized_witness :
  pages_then_end Mock.client "b" ("p" +:+ "/") (Some "/") None Mock.steady
    [Mock.page_a; Mock.page_b] (Mock.store []) /\
  (length [Mock.page_a; Mock.page_b] <= 2)%nat /\
  exists prefixes_list,
    fst <$> list_data_prefixes.process_prefix Mock.client 2 "b" "p"
              (Mock.start Mock.steady [])
    = Some (Ret ("p", prefixes_list)) /\
    "b" ∈ prefixes_list.
Proof.
  split; [exact (steady_pages (Some "/"))|]. split; [simpl; lia|].
  destruct (listed_directory_is_sized Mock.client "b" "p"
              (Mock.start Mock.steady []) [Mock.page_a; Mock.page_b]
              (Mock.store []) 2 (steady_pages (Some "/")) ltac:(simpl; lia))
    as (prefixes_list & E & _ & Hc & _).
  exists prefixes_list. split; [by rewrite E|].
  apply (Hc "b" Mock.page_b ["p/b/"; "p/"]);
    [discriminate| |reflexivity|apply list_elem_of_here].
  apply list_elem_of_further, list_elem_of_here.
Defined.

End FurtherInstances.
